(** * Diligent::Parsing: scanners, tokenizer, source rebuilder, function
    locator

    Shallow embedding of [Common/interface/ParsingTools.hpp].

    Iterators are offsets ([nat]) from the start of the source buffer; the
    buffer itself is a total function [mem : nat -> ascii] together with the
    end offset [End].  Dereferencing an iterator [p] is [mem p]; nothing in the
    model forbids a read at or after [End], the value found there is whatever
    [mem] holds.  Functions that throw [std::pair<Iterator, const char*>]
    return a [result]. *)

From Stdlib Require Import Arith Lia List Bool Ascii String ZArith.
Import ListNotations.

Local Open Scope char_scope.
Local Open Scope nat_scope.

(** ** Characters *)

Definition NUL : ascii := Ascii.zero.

(** The double-quote character. *)
Definition quote : ascii := "034".

Definition is_char (a b : ascii) : bool := Ascii.eqb a b.

Definition code (c : ascii) : nat := nat_of_ascii c.

Definition between (lo hi c : ascii) : bool :=
  (code lo <=? code c) && (code c <=? code hi).

(** Modelled from the spec: [IsNum] is defined in StringTools.h, not in
    ParsingTools.hpp; the float recognizer uses it as the decimal digit
    test. *)
Definition IsNum (c : ascii) : bool := between "0" "9" c.

(** [isalpha] and [isalnum] of the C library, in the C locale. *)
Definition isalpha (c : ascii) : bool := between "a" "z" c || between "A" "Z" c.
Definition isalnum (c : ascii) : bool := isalpha c || IsNum c.

Definition IsWhitespace (Symbol : ascii) : bool :=
  is_char Symbol " " || is_char Symbol "009".

Definition IsNewLine (Symbol : ascii) : bool :=
  is_char Symbol "013" || is_char Symbol "010".

(** [strchr(" \t\r\n", Symbol) != nullptr]: [strchr] also finds the
    terminator of the searched string, so the NUL character is a delimiter. *)
Definition strchr_found (s : list ascii) (Symbol : ascii) : bool :=
  existsb (is_char Symbol) s || is_char Symbol NUL.

Definition IsDelimiter (Symbol : ascii) : bool :=
  strchr_found [" "; "009"; "013"; "010"] Symbol.

Definition IsStatementSeparator (Symbol : ascii) : bool :=
  strchr_found [";"; "}"] Symbol.

(** ** Outcomes *)

(** A function declared [noexcept(false)] either returns or throws a
    [std::pair<Iterator, const char*>]: the position of the error and its
    description. *)
Inductive result (A : Type) : Type :=
| Ok (a : A)
| Throw (where_ : nat) (what : string).
Arguments Ok {A} a.
Arguments Throw {A} where_ what.

(** Reads of the buffer that are recorded: a value together with the list of
    offsets that were dereferenced to compute it, in program order. *)
Definition Traced (A : Type) : Type := (A * list nat)%type.

Definition tret {A} (a : A) : Traced A := (a, []).

Definition tbind {A B} (m : Traced A) (f : A -> Traced B) : Traced B :=
  let (a, l1) := m in let (b, l2) := f a in (b, l1 ++ l2).

Declare Scope traced_scope.
Delimit Scope traced_scope with traced.
Notation "x <- m ;; k" := (tbind m (fun x => k))
  (at level 61, m at next level, right associativity) : traced_scope.

Definition value {A} (m : Traced A) : A := fst m.
Definition reads {A} (m : Traced A) : list nat := snd m.

Section Scanners.

(** The source buffer and the [End] iterator. *)
Variable mem : nat -> ascii.
Variable End : nat.

(** Text of the iterator range [[a, b)]. *)
Definition range (a b : nat) : list ascii := map mem (seq a (b - a)).

(** The loop [for (; Pos != End && P( *Pos ); ++Pos)] with an empty body; the
    countdown [n] bounds the number of iterations, callers pass
    [End - Pos]. *)
Fixpoint advance_while (P : ascii -> bool) (n Pos : nat) : nat :=
  match n with
  | 0 => Pos
  | S n' =>
      if (negb (Pos =? End)) && P (mem Pos)
      then advance_while P n' (S Pos)
      else Pos
  end.

Definition at_end (Pos : nat) : bool := (Pos =? End) || is_char (mem Pos) NUL.

(** *** SkipLine *)
Definition SkipLine (Pos : nat) (GoToNextLine : bool) : nat * bool :=
  let Pos :=
    advance_while (fun c => negb (is_char c NUL) && negb (IsNewLine c))
                  (End - Pos) Pos in
  let Pos :=
    if GoToNextLine && negb (Pos =? End) && IsNewLine (mem Pos) then
      let Pos := S Pos in
      if is_char (mem (Pos - 1)) "013" && negb (Pos =? End)
         && is_char (mem Pos) "010"
      then S Pos (* treat CR LF as a single ending *)
      else Pos
    else Pos in
  (Pos, Pos =? End).

(** *** SkipComment *)

Definition unterminated_comment : string :=
  "Unable to find the end of the multiline comment."%string.

(** The [while] loop of the multi-line branch: [Some Pos] when the closing
    star-slash is found ([Pos] is just after it), [None] when the loop is
    left (by its condition or by [break]) and the function goes on to
    throw. *)
Fixpoint FindCommentEnd (n NextPos : nat) : option nat :=
  match n with
  | 0 => None
  | S n' =>
      if at_end NextPos then None
      else if is_char (mem NextPos) "*" then
        let NextPos := S NextPos in
        if at_end NextPos then None
        else if is_char (mem NextPos) "/" then Some (S NextPos)
        else FindCommentEnd n' NextPos
      else FindCommentEnd n' (S NextPos)
  end.

Definition SkipComment (Pos : nat) : result (nat * bool) :=
  if at_end Pos then Ok (Pos, true)
  else if negb (is_char (mem Pos) "/") then Ok (Pos, false)
  else
    let NextPos := Pos + 1 in
    if at_end NextPos then Ok (Pos, false)
    else if is_char (mem NextPos) "/" then
      (* Single-line comment *)
      let Pos := fst (SkipLine (NextPos + 1) true) in
      Ok (Pos, at_end Pos)
    else if is_char (mem NextPos) "*" then
      (* Multi-line comment *)
      let NextPos := S NextPos in
      match FindCommentEnd (S (End - NextPos)) NextPos with
      | Some Pos => Ok (Pos, at_end Pos)
      | None => Throw Pos unterminated_comment
      end
    else Ok (Pos, at_end Pos).

(** *** SkipDelimiters *)
Definition SkipDelimiters (Pos : nat) : nat * bool :=
  let Pos := advance_while IsDelimiter (End - Pos) Pos in
  (Pos, Pos =? End).

(** *** SkipDelimitersAndComments *)

(** The [do ... while] loop; one unit of the countdown per iteration. *)
Fixpoint SkipDelimitersAndComments_loop (n Pos : nat) : result nat :=
  match n with
  | 0 => Ok Pos
  | S n' =>
      let Pos' := advance_while IsDelimiter (End - Pos) Pos in
      let DelimiterSkipped := negb (Pos' =? Pos) in
      let StartPos := Pos' in
      match SkipComment Pos' with
      | Throw p m => Throw p m
      | Ok (Pos, _) =>
          let CommentSkipped := negb (StartPos =? Pos) in
          if negb (Pos =? End) && (DelimiterSkipped || CommentSkipped)
          then SkipDelimitersAndComments_loop n' Pos
          else Ok Pos
      end
  end.

Definition SkipDelimitersAndComments (Pos : nat) : result (nat * bool) :=
  match SkipDelimitersAndComments_loop (S (End - Pos)) Pos with
  | Ok Pos => Ok (Pos, Pos =? End)
  | Throw p m => Throw p m
  end.

(** *** SkipIdentifier *)
Definition SkipIdentifier (Pos : nat) : nat * bool :=
  if Pos =? End then (Pos, true)
  else if isalpha (mem Pos) || is_char (mem Pos) "_" then
    let Pos := S Pos in
    if Pos =? End then (Pos, true)
    else
      let Pos :=
        advance_while (fun c => isalnum c || is_char c "_") (End - Pos) Pos in
      (Pos, Pos =? End)
  else (Pos, false).

End Scanners.

(** ** SkipFloatNumber

    The recognizer is written over [Traced]: every dereference of the cursor
    [c] goes through [deref] and is recorded, so that the set of buffer
    offsets the scan touches can be stated. *)
Section FloatNumber.

Variable mem : nat -> ascii.
Variable End : nat.

Local Open Scope traced_scope.

Definition deref (p : nat) : Traced ascii := (mem p, [p]).

(** The macro [CHECK_END()]: return from the function when [c == End] or
    [c] points at the terminator; [Pos] is what the caller will see. *)
Definition CHECK_END (c Pos : nat) (k : Traced nat) : Traced nat :=
  if c =? End then tret Pos
  else ch <- deref c ;; if is_char ch NUL then tret Pos else k.

(** [while (c != End && IsNum( *c )) Pos = ++c;], returning the final
    [(c, Pos)]. *)
Fixpoint SkipDigits (n c Pos : nat) : Traced (nat * nat) :=
  match n with
  | 0 => tret (c, Pos)
  | S n' =>
      if c =? End then tret (c, Pos)
      else ch <- deref c ;;
           if IsNum ch then SkipDigits n' (S c) (S c) else tret (c, Pos)
  end.

(** The trailing [f]/[F] suffix. *)
Definition FloatSuffix (HasDecimalPart HasExponent : bool)
           (Start c Pos : nat) : Traced nat :=
  if (HasDecimalPart || HasExponent) && negb (c =? End) && (Start <? Pos) then
    ch <- deref c ;;
    if is_char ch "f" || is_char ch "F" then tret (S c) else tret Pos
  else tret Pos.

(** From [const auto HasExponent = ...] on. *)
Definition FloatExponent (HasIntegerPart HasDecimalPart : bool)
           (Start c Pos : nat) : Traced nat :=
  ch <- deref c ;;
  let HasExponent := is_char ch "e" || is_char ch "E" in
  if HasExponent then
    if negb HasIntegerPart then tret Pos (* .e, e, e+1, +.e are invalid *)
    else
      let c := S c in
      if c =? End then tret Pos
      else
        sg <- deref c ;;
        if negb (is_char sg "+") && negb (is_char sg "-") then tret Pos
        else
          let c := S c in
          if c =? End then tret Pos
          else
            d <- deref c ;;
            if negb (IsNum d) then tret Pos
            else
              cp <- SkipDigits (End - c) c Pos ;;
              FloatSuffix HasDecimalPart true Start (fst cp) (snd cp)
  else FloatSuffix HasDecimalPart false Start c Pos.

(** From [const auto HasDecimalPart = ...] on. *)
Definition FloatDecimal (HasIntegerPart : bool)
           (Start c Pos : nat) : Traced nat :=
  ch <- deref c ;;
  let HasDecimalPart := is_char ch "." in
  if HasDecimalPart then
    let c := S c in
    (* . as well as +. or -. are not valid numbers, however 0., +0., and
       -0. are. *)
    let Pos := if HasIntegerPart then c else Pos in
    cp <- SkipDigits (End - c) c Pos ;;
    CHECK_END (fst cp) (snd cp)
              (FloatExponent HasIntegerPart true Start (fst cp) (snd cp))
  else FloatExponent HasIntegerPart false Start c Pos.

(** From [const auto HasIntegerPart = ...] on. *)
Definition FloatInteger (Start c Pos : nat) : Traced nat :=
  ch <- deref c ;;
  let HasIntegerPart := IsNum ch in
  if HasIntegerPart then
    cp <- SkipDigits (End - c) c Pos ;;
    CHECK_END (fst cp) (snd cp) (FloatDecimal true Start (fst cp) (snd cp))
  else FloatDecimal false Start c Pos.

(** [SkipFloatNumber(Pos, End)]: the value is the final [Pos]. *)
Definition SkipFloatNumber (Pos : nat) : Traced nat :=
  let Start := Pos in
  let c := Pos in
  CHECK_END c Pos (
    sg <- deref c ;;
    let c := if is_char sg "+" || is_char sg "-" then S c else c in
    CHECK_END c Pos (
      z <- deref c ;;
      leading <- (if is_char z "0"
                  then (nx <- deref (c + 1) ;; tret (IsNum nx))
                  else tret false) ;;
      if leading then tret (c + 1) (* 01 is invalid *)
      else FloatInteger Start c Pos)).

End FloatNumber.

(** ** Concrete buffers *)

(** The buffer holding the characters of [s] from offset 0 on; offsets past
    the last character of [s] read as the terminator. *)
Definition buffer (s : string) : nat -> ascii :=
  fun i => nth i (list_ascii_of_string s) NUL.

Definition text (s : string) : list ascii := list_ascii_of_string s.

(** [s] between two double-quote characters. *)
Definition quoted (s : string) : string :=
  String quote (s ++ String quote EmptyString).

(** The span [SkipFloatNumber] consumes at the start of [s], with [End] at
    the end of [s]. *)
Definition consumed (s : string) : list ascii :=
  range (buffer s) 0 (value (SkipFloatNumber (buffer s) (String.length s) 0)).

(** ** Tokens *)

Inductive TokenType : Type :=
| Undefined
| Identifier
| NumericConstant
| StringConstant
| PreprocessorDirective
| Assignment
| ComparisonOp
| LogicOp
| BitwiseOp
| MathOp
| IncDecOp
| Colon
| DoubleColon
| Comma
| Semicolon
| QuestionMark
| OpenParen
| ClosingParen
| OpenBrace
| ClosingBrace
| OpenSquareBracket
| ClosingSquareBracket
| OpenAngleBracket
| ClosingAngleBracket.

Definition TokenType_eq_dec (a b : TokenType) : {a = b} + {a <> b}.
Proof. decide equality. Defined.

Definition is_type (a b : TokenType) : bool :=
  if TokenType_eq_dec a b then true else false.

(** Modelled from the spec: the token class is a template parameter of
    [Tokenize], [BuildSource] and [FindFunction] and is supplied by their
    callers.  A token records its type, the range of the delimiters and
    comments that precede it and the range of its own text; tokens hold
    ranges, not copies.  The caller's [CreateToken] builds a token from
    the five values it is given. *)
Record Token : Type := CreateToken {
  Type_ : TokenType;
  DelimStart : nat;
  DelimEnd : nat;
  LiteralStart : nat;
  LiteralEnd : nat
}.

(** [TokenClass{}]: the empty token. *)
Definition EmptyToken : Token := CreateToken Undefined 0 0 0 0.

Definition GetType (t : Token) : TokenType := Type_ t.

Definition SetType (t : Token) (ty : TokenType) : Token :=
  CreateToken ty (DelimStart t) (DelimEnd t) (LiteralStart t) (LiteralEnd t).

(** The literal's end bound is widened to [End_]. *)
Definition ExtendLiteral (t : Token) (Start_ End_ : nat) : Token :=
  CreateToken (Type_ t) (DelimStart t) (DelimEnd t) (LiteralStart t) End_.

Definition text_eqb (a b : list ascii) : bool :=
  if list_eq_dec ascii_dec a b then true else false.

Section Tokens.

Variable mem : nat -> ascii.

Definition Literal (t : Token) : list ascii :=
  range mem (LiteralStart t) (LiteralEnd t).

Definition Delimiter (t : Token) : list ascii :=
  range mem (DelimStart t) (DelimEnd t).

(** [CompareLiteral] against a C string and against an iterator range. *)
Definition CompareLiteral (t : Token) (s : list ascii) : bool :=
  text_eqb (Literal t) s.

Definition CompareLiteralRange (t : Token) (Start_ End_ : nat) : bool :=
  text_eqb (Literal t) (range mem Start_ End_).

(** *** BuildSource *)
Definition OutputToken (t : Token) : list ascii :=
  Delimiter t
    ++ (if is_type (GetType t) StringConstant then [quote] else [])
    ++ Literal t
    ++ (if is_type (GetType t) StringConstant then [quote] else []).

Definition BuildSource (Tokens : list Token) : list ascii :=
  flat_map OutputToken Tokens.

End Tokens.

(** ** SplitString *)

(** How a run of [SplitString] ends: it returns, it lets an exception of a
    scanner or of the handler escape, or its [VERIFY] fires. *)
Inductive run (A : Type) : Type :=
| Finished (a : A)
| Raised (where_ : nat) (what : string)
| VerifyFailed (what : string).
Arguments Finished {A} a.
Arguments Raised {A} where_ what.
Arguments VerifyFailed {A} what.

Section SplitString.

Variable mem : nat -> ascii.
Variable End : nat.

(** The handler is a closure over mutable state of type [St]; it receives
    [DelimStart] and [Pos], and yields the new state, the new [Pos] and its
    return value ([true] to continue). *)
Context {St : Type}.
Variable Handler : St -> nat -> nat -> result (St * nat * bool).

Definition handler_not_updated : string :=
  "Position has not been updated by the handler."%string.

(** One unit of [fuel] per iteration of the [while] loop; [None] when the
    fuel runs out before the loop is left. *)
Fixpoint SplitString_loop (fuel : nat) (st : St) (Pos : nat)
  : option (run St) :=
  match fuel with
  | 0 => None
  | S fuel' =>
      if Pos =? End then Some (Finished st)
      else
        let DelimStart := Pos in
        match SkipDelimitersAndComments mem End Pos with
        | Throw p m => Some (Raised p m)
        | Ok (Pos, _) =>
            let OrigPos := Pos in
            match Handler st DelimStart Pos with
            | Throw p m => Some (Raised p m)
            | Ok (st, Pos, continue) =>
                if negb continue then Some (Finished st)
                else if (Pos =? End) || negb (OrigPos =? Pos)
                     then SplitString_loop fuel' st Pos
                     else Some (VerifyFailed handler_not_updated)
            end
        end
  end.

Definition SplitString (fuel : nat) (st : St) (Start : nat)
  : option (run St) :=
  SplitString_loop fuel st Start.

End SplitString.

(** ** Tokenize *)

Definition unmatched_quotes : string :=
  "Unable to find matching closing quotes."%string.

Definition unable_to_tokenize : string := "Unable to tokenize string."%string.

(** What [Tokenize] does: it returns the tokens, or it logs the scanner's
    error and throws [std::runtime_error], or the splitter's [VERIFY] fires. *)
Inductive tokenized : Type :=
| Tokens_ (Tokens : list Token)
| RuntimeError (logged_where : nat) (logged_what : string) (what : string)
| DebugAssertion (what : string).

Section Tokenize.

Variable mem : nat -> ascii.
Variable SourceEnd : nat.

(** The caller's classifier, applied to the text of the literal. *)
Variable GetTokenType : list ascii -> TokenType.

(** [Tokens.back()] and writing through the reference it returns. *)
Definition back (Tokens : list Token) : Token := last Tokens EmptyToken.

Definition set_back (Tokens : list Token) (t : Token) : list Token :=
  removelast Tokens ++ [t].

Definition empty (Tokens : list Token) : bool :=
  match Tokens with [] => true | _ => false end.

Definition handled : Type := (list Token * nat * bool)%type.

(** [LastToken.SetType(ty); LastToken.ExtendLiteral(Pos, Pos + 1); ++Pos;]
    followed by [return Pos != SourceEnd]. *)
Definition ExtendLastToken (Tokens : list Token) (ty : TokenType) (Pos : nat)
  : handled :=
  let LastToken := back Tokens in
  let LastToken := ExtendLiteral (SetType LastToken ty) Pos (Pos + 1) in
  let Pos := Pos + 1 in
  (set_back Tokens LastToken, Pos, negb (Pos =? SourceEnd)).

(** The condition under which the lambda [AddDoubleCharToken] returns
    [true]. *)
Definition AddDoubleCharToken_applies (Tokens : list Token)
           (DelimStart DelimEnd Pos : nat) : bool :=
  negb (empty Tokens) && (DelimStart =? DelimEnd)
  && CompareLiteralRange mem (back Tokens) Pos (Pos + 1).

Definition assignment_prefixes : list (list ascii) :=
  map text ["+"; "-"; "*"; "/"; "%"; "<<"; ">>"; "&"; "|"; "^"]%string.

Definition comparison_prefixes : list (list ascii) :=
  map text ["<"; ">"; "="; "!"]%string.

(** The statements after the [switch]: fix [LiteralEnd], push the token. *)
Definition PushToken (Tokens : list Token) (ty : TokenType)
           (DelimStart DelimEnd LiteralStart LiteralEnd Pos : nat)
  : result handled :=
  let LiteralEnd := if LiteralEnd =? DelimStart then Pos else LiteralEnd in
  Ok (Tokens ++ [CreateToken ty DelimStart DelimEnd LiteralStart LiteralEnd],
      Pos, negb (Pos =? SourceEnd)).

(** The lambda passed to [SplitString]. *)
Definition TokenizeHandler (Tokens : list Token) (DelimStart Pos : nat)
  : result handled :=
  let DelimEnd := Pos in
  let LiteralStart := Pos in
  let LiteralEnd := DelimStart in
  if Pos =? SourceEnd then
    Ok (Tokens ++ [CreateToken Undefined DelimStart DelimEnd LiteralStart Pos],
        Pos, false)
  else
    let SINGLE_CHAR_TOKEN ty :=
      PushToken Tokens ty DelimStart DelimEnd LiteralStart LiteralEnd (S Pos) in
    let DOUBLE_CHAR_TOKEN DoubleCharType ty :=
      if AddDoubleCharToken_applies Tokens DelimStart DelimEnd Pos
      then Ok (ExtendLastToken Tokens DoubleCharType Pos)
      else SINGLE_CHAR_TOKEN ty in
    let ch := mem Pos in
    if is_char ch "#" then
      PushToken Tokens PreprocessorDirective DelimStart DelimEnd
                LiteralStart LiteralEnd (fst (SkipLine mem SourceEnd Pos false))
    else if is_char ch "=" then
      if negb (empty Tokens) && (DelimStart =? DelimEnd) then
        let LastToken := back Tokens in
        if existsb (CompareLiteral mem LastToken) assignment_prefixes
        then Ok (ExtendLastToken Tokens Assignment Pos)
        else if existsb (CompareLiteral mem LastToken) comparison_prefixes
        then Ok (ExtendLastToken Tokens ComparisonOp Pos)
        else SINGLE_CHAR_TOKEN Assignment
      else SINGLE_CHAR_TOKEN Assignment
    else if is_char ch "|" || is_char ch "&" then
      DOUBLE_CHAR_TOKEN LogicOp BitwiseOp
    else if is_char ch "<" || is_char ch ">" then
      DOUBLE_CHAR_TOKEN BitwiseOp ComparisonOp
    else if is_char ch "+" || is_char ch "-" then
      DOUBLE_CHAR_TOKEN IncDecOp MathOp
    else if is_char ch ":" then
      DOUBLE_CHAR_TOKEN DoubleColon Colon
    else if is_char ch "~" || is_char ch "^" then SINGLE_CHAR_TOKEN BitwiseOp
    else if is_char ch "*" || is_char ch "/" || is_char ch "%" then
      SINGLE_CHAR_TOKEN MathOp
    else if is_char ch "!" then SINGLE_CHAR_TOKEN LogicOp
    else if is_char ch "," then SINGLE_CHAR_TOKEN Comma
    else if is_char ch ";" then SINGLE_CHAR_TOKEN Semicolon
    else if is_char ch "?" then SINGLE_CHAR_TOKEN QuestionMark
    else if is_char ch "(" then SINGLE_CHAR_TOKEN OpenParen
    else if is_char ch ")" then SINGLE_CHAR_TOKEN ClosingParen
    else if is_char ch "{" then SINGLE_CHAR_TOKEN OpenBrace
    else if is_char ch "}" then SINGLE_CHAR_TOKEN ClosingBrace
    else if is_char ch "[" then SINGLE_CHAR_TOKEN OpenSquareBracket
    else if is_char ch "]" then SINGLE_CHAR_TOKEN ClosingSquareBracket
    else if is_char ch quote then
      (* Skip quotes *)
      let LiteralStart := S LiteralStart in
      let Pos :=
        advance_while mem SourceEnd
                      (fun c => negb (is_char c NUL) && negb (is_char c quote))
                      (SourceEnd - S Pos) (S Pos) in
      if (Pos =? SourceEnd) || negb (is_char (mem Pos) quote)
      then Throw (LiteralStart - 1) unmatched_quotes
      else
        let LiteralEnd := Pos in
        PushToken Tokens StringConstant DelimStart DelimEnd
                  LiteralStart LiteralEnd (S Pos)
    else
      let Pos := fst (SkipIdentifier mem SourceEnd Pos) in
      let '(ty, Pos) :=
        if negb (LiteralStart =? Pos) then
          let ty := GetTokenType (range mem LiteralStart Pos) in
          (if is_type ty Undefined then Identifier else ty, Pos)
        else
          let Pos := value (SkipFloatNumber mem SourceEnd Pos) in
          (if negb (LiteralStart =? Pos) then NumericConstant else Undefined,
           Pos) in
      let Pos := if is_type ty Undefined then S Pos (* Add single character *)
                 else Pos in
      PushToken Tokens ty DelimStart DelimEnd LiteralStart LiteralEnd Pos.

(** [Tokenize]: the list is seeded with the empty token; the [catch] block
    logs the pair thrown by the scanners and throws the runtime error. *)
Definition Tokenize (fuel : nat) : option tokenized :=
  match SplitString mem SourceEnd TokenizeHandler fuel [EmptyToken] 0 with
  | None => None
  | Some (Finished Tokens) => Some (Tokens_ Tokens)
  | Some (Raised p m) => Some (RuntimeError p m unable_to_tokenize)
  | Some (VerifyFailed m) => Some (DebugAssertion m)
  end.

End Tokenize.

(** ** FindFunction *)

Definition name_is_null : string := "Name must not be null"%string.

Definition brackets_not_balanced : string :=
  "Brackets are not correctly balanced"%string.

Section FindFunction.

Variable mem : nat -> ascii.

(** The token container; token iterators are indices into it. *)
Variable Tokens : list Token.
Variable Start End : nat.

Definition at_ (Tok : nat) : Token := nth Tok Tokens EmptyToken.

(** The [case TokenType::Identifier] block: [true] when it returns
    the iterator [Tok] (the source's [Token]). *)
Definition IsFunctionName (Name : list ascii) (Tok : nat)
           (BracketCount : Z) : bool :=
  (BracketCount =? 0)%Z
  && CompareLiteral mem (at_ Tok) Name
  && (let NextToken := S Tok in
      negb (NextToken =? End) && is_type (GetType (at_ NextToken)) OpenParen)
  && (let PrevToken := Tok in
      negb (PrevToken =? Start)
      && is_type (GetType (at_ (PrevToken - 1))) Identifier).

(** The [for] loop over the tokens; the result is the iterator returned and
    the messages logged. *)
Fixpoint FindFunction_loop (Name : list ascii) (n Tok : nat)
         (BracketCount : Z) : nat * list string :=
  match n with
  | 0 => (End, [])
  | S n' =>
      if Tok =? End then (End, [])
      else
        match GetType (at_ Tok) with
        | OpenBrace | OpenParen | OpenSquareBracket | OpenAngleBracket =>
            FindFunction_loop Name n' (S Tok) (BracketCount + 1)
        | ClosingBrace | ClosingParen | ClosingSquareBracket
        | ClosingAngleBracket =>
            let BracketCount := (BracketCount - 1)%Z in
            if (BracketCount <? 0)%Z then (End, [brackets_not_balanced])
            else FindFunction_loop Name n' (S Tok) BracketCount
        | Identifier =>
            if IsFunctionName Name Tok BracketCount then (Tok, [])
            else FindFunction_loop Name n' (S Tok) BracketCount
        | _ => FindFunction_loop Name n' (S Tok) BracketCount
        end
  end.

(** [Name] is a C string or the null pointer ([None]). *)
Definition FindFunction (Name : option (list ascii)) : nat * list string :=
  match Name with
  | None | Some [] => (End, [name_is_null])
  | Some Name => FindFunction_loop Name (End - Start) Start 0
  end.

End FindFunction.

(** ** Running on string literals *)

(** A classifier that knows no keyword. *)
Definition no_keywords (s : list ascii) : TokenType := Undefined.

Definition TokenizeString (GetTokenType : list ascii -> TokenType) (s : string)
  : option tokenized :=
  Tokenize (buffer s) (String.length s) GetTokenType (S (String.length s)).

(** The type and literal text of each token. *)
Definition view (mem : nat -> ascii) (Tokens : list Token)
  : list (TokenType * string) :=
  map (fun t => (GetType t, string_of_list_ascii (Literal mem t))) Tokens.

(** ** Vocabulary of the statements *)

(** The characters that double into one token. *)
Definition doubling_chars : list ascii := ["|"; "&"; "<"; ">"; "+"; "-"; ":"].

(** The calls of the handler that a run of [SplitString] makes, in order:
    the state, [DelimStart] and [Pos] with which each call is made.  The
    function follows the loop of [SplitString_loop]. *)
Fixpoint SplitString_calls {St : Type} (mem : nat -> ascii) (End : nat)
         (Handler : St -> nat -> nat -> result (St * nat * bool))
         (fuel : nat) (st : St) (Pos : nat) : list (St * nat * nat) :=
  match fuel with
  | 0 => []
  | S fuel' =>
      if Pos =? End then []
      else
        let DelimStart := Pos in
        match SkipDelimitersAndComments mem End Pos with
        | Throw _ _ => []
        | Ok (Pos, _) =>
            let OrigPos := Pos in
            (st, DelimStart, Pos)
            :: match Handler st DelimStart Pos with
               | Throw _ _ => []
               | Ok (st, Pos, continue) =>
                   if negb continue then []
                   else if (Pos =? End) || negb (OrigPos =? Pos)
                        then SplitString_calls mem End Handler fuel' st Pos
                        else []
               end
        end
  end.

(** The calls of the handler in a run of [Tokenize]. *)
Definition Tokenize_calls (mem : nat -> ascii) (SourceEnd : nat)
           (GetTokenType : list ascii -> TokenType) (fuel : nat)
  : list (list Token * nat * nat) :=
  SplitString_calls mem SourceEnd (TokenizeHandler mem SourceEnd GetTokenType)
                    fuel [EmptyToken] 0.

(** The call merges the character at [Pos] into a string constant: the
    last token is a string constant and the handler returns without adding
    a token, having widened that one. *)
Definition merges_string (mem : nat -> ascii) (SourceEnd : nat)
           (GetTokenType : list ascii -> TokenType)
           (call : list Token * nat * nat) : bool :=
  let '(Tokens, DelimStart, Pos) := call in
  is_type (GetType (back Tokens)) StringConstant
  && match TokenizeHandler mem SourceEnd GetTokenType Tokens DelimStart Pos
     with
     | Ok (Tokens', _, _) => List.length Tokens' =? List.length Tokens
     | Throw _ _ => false
     end.

(** No call of the run merges into a string constant. *)
Definition no_string_merge (mem : nat -> ascii) (SourceEnd : nat)
           (GetTokenType : list ascii -> TokenType) (fuel : nat) : bool :=
  forallb (fun call => negb (merges_string mem SourceEnd GetTokenType call))
          (Tokenize_calls mem SourceEnd GetTokenType fuel).

(** Character tests and range texts are reasoned about through their lemmas,
    not by unfolding. *)
Arguments is_char : simpl never.
Arguments IsNum : simpl never.
Arguments isalpha : simpl never.
Arguments isalnum : simpl never.
Arguments IsNewLine : simpl never.
Arguments IsDelimiter : simpl never.
Arguments is_type : simpl never.
Arguments text_eqb : simpl never.
Arguments range : simpl never.
Arguments at_end : simpl never.

(** The four ways a call of the tokenizer's handler with input left
    ([Pos < SourceEnd]) can end: it throws; it widens the last token with the
    character at [Pos] (a merge); it pushes a token whose literal starts at
    [Pos]; it pushes a string constant whose literal lies between two
    quotes. *)
Inductive HandlerCase (mem : nat -> ascii) (SourceEnd : nat)
          (GetTokenType : list ascii -> TokenType)
          (Tokens : list Token) (DelimStart Pos : nat)
  : result (list Token * nat * bool) -> Prop :=
| HandlerThrows :
    HandlerCase mem SourceEnd GetTokenType Tokens DelimStart Pos
                (Throw Pos unmatched_quotes)
| HandlerMerges (ty : TokenType) :
    ty <> StringConstant ->
    Tokens <> [] ->
    DelimStart = Pos ->
    (mem Pos = "=" /\
     In (Literal mem (back Tokens))
        (assignment_prefixes ++ comparison_prefixes))
    \/ (In (mem Pos) doubling_chars /\ Literal mem (back Tokens) = [mem Pos]) ->
    HandlerCase mem SourceEnd GetTokenType Tokens DelimStart Pos
                (Ok (ExtendLastToken SourceEnd Tokens ty Pos))
| HandlerPushes (ty : TokenType) (Pos' : nat) :
    Pos < Pos' <= SourceEnd ->
    (ty = StringConstant -> exists s, GetTokenType s = StringConstant) ->
    HandlerCase mem SourceEnd GetTokenType Tokens DelimStart Pos
                (Ok (Tokens ++ [CreateToken ty DelimStart Pos Pos Pos'],
                     Pos', negb (Pos' =? SourceEnd)))
| HandlerPushesString (Closing : nat) :
    Pos < Closing < SourceEnd ->
    mem Pos = quote ->
    mem Closing = quote ->
    HandlerCase mem SourceEnd GetTokenType Tokens DelimStart Pos
                (Ok (Tokens ++ [CreateToken StringConstant DelimStart Pos
                                            (S Pos) Closing],
                     S Closing, negb (S Closing =? SourceEnd))).

(** A token's literal is not empty, or the token is the empty string
    constant: two adjacent quotes with nothing between them. *)
Definition has_text (mem : nat -> ascii) (t : Token) : Prop :=
  LiteralStart t < LiteralEnd t
  \/ (GetType t = StringConstant
      /\ LiteralStart t = LiteralEnd t
      /\ 0 < LiteralStart t
      /\ mem (LiteralStart t - 1) = quote
      /\ mem (LiteralEnd t) = quote).

(** The token pushed when the input ends with delimiters or comments: it
    carries that run and an empty literal at the end of the input. *)
Definition trailing (End : nat) (t : Token) : Prop :=
  GetType t = Undefined
  /\ DelimStart t < DelimEnd t
  /\ DelimEnd t = End
  /\ LiteralStart t = End
  /\ LiteralEnd t = End.

(** Loop invariant of the tokenizer for the literals: the list starts with
    the empty token, no literal ends after [Pos], and every other token has
    text, but for a trailing token that can only be there when the input is
    exhausted. *)
Definition literals_inv (mem : nat -> ascii) (End : nat)
           (Tokens : list Token) (Pos : nat) : Prop :=
  Pos <= End
  /\ exists rest,
      Tokens = EmptyToken :: rest
      /\ Forall (fun t => LiteralEnd t <= Pos) rest
      /\ (Forall (has_text mem) rest
          \/ (Pos = End
              /\ exists rest' t, rest = rest' ++ [t]
                                 /\ Forall (has_text mem) rest'
                                 /\ trailing End t)).

(** Token [t], together with the delimiters before it, covers the buffer
    from [DelimStart t] to [Pos]: a string constant sits between two quotes,
    any other literal follows its delimiters immediately. *)
Definition tiles (mem : nat -> ascii) (t : Token) (Pos : nat) : Prop :=
  DelimStart t <= DelimEnd t
  /\ LiteralStart t <= LiteralEnd t
  /\ if is_type (GetType t) StringConstant
     then LiteralStart t = S (DelimEnd t)
          /\ mem (DelimEnd t) = quote
          /\ mem (LiteralEnd t) = quote
          /\ Pos = S (LiteralEnd t)
     else LiteralStart t = DelimEnd t /\ Pos = LiteralEnd t.

(** Loop invariant of the tokenizer for the rebuilt text: the tokens before
    the last one rebuild the buffer up to the last token's delimiters, and
    the last token covers the rest up to [Pos]. *)
Definition rebuild_inv (mem : nat -> ascii) (End : nat)
           (Tokens : list Token) (Pos : nat) : Prop :=
  Pos <= End
  /\ exists init t,
      Tokens = init ++ [t]
      /\ BuildSource mem init = range mem 0 (DelimStart t)
      /\ tiles mem t Pos.


(** A handler of [SplitString] makes progress when, called with input left,
    it moves [Pos] forward and asks to stop exactly at [End]. *)
Definition makes_progress {St : Type} (End : nat)
           (Handler : St -> nat -> nat -> result (St * nat * bool)) : Prop :=
  forall st DelimStart Pos st' Pos' continue,
    DelimStart <= Pos -> Pos < End ->
    Handler st DelimStart Pos = Ok (st', Pos', continue) ->
    Pos < Pos' <= End /\ continue = negb (Pos' =? End).

(** Called at the end of the input, the handler stops the loop. *)
Definition stops_at_end {St : Type} (End : nat)
           (Handler : St -> nat -> nat -> result (St * nat * bool)) : Prop :=
  forall st DelimStart,
    exists st', Handler st DelimStart End = Ok (st', End, false).

(** No star-slash starts at or after offset [p] and lies before [End]. *)
Definition no_closer_from (mem : nat -> ascii) (End : nat) (p : nat) : Prop :=
  forall i, p <= i -> S i < End -> ~ (mem i = "*" /\ mem (S i) = "/").

(** For the exponent of a float literal. *)
Definition is_exp (c : ascii) : bool := is_char c "e" || is_char c "E".

Definition is_sign (c : ascii) : bool := is_char c "+" || is_char c "-".

(** The literal at [Pos] has an integer part: a digit at [Pos], or after the
    sign at [Pos]. *)
Definition has_integer_part (mem : nat -> ascii) (Pos : nat) : Prop :=
  IsNum (mem (if is_sign (mem Pos) then S Pos else Pos)) = true.

(** The exponent character at offset [k] of a literal that starts at [Pos]
    and is consumed up to [r]: an integer part precedes it, a sign and a
    digit follow it, and they are consumed as well. *)
Definition exponent_ok (mem : nat -> ascii) (Pos r k : nat) : Prop :=
  has_integer_part mem Pos
  /\ is_sign (mem (S k)) = true
  /\ IsNum (mem (S (S k))) = true
  /\ S (S k) < r.

(** What a token adds to the bracket count of [FindFunction]. *)
Definition bracket_delta (ty : TokenType) : Z :=
  match ty with
  | OpenBrace | OpenParen | OpenSquareBracket | OpenAngleBracket => 1
  | ClosingBrace | ClosingParen | ClosingSquareBracket
  | ClosingAngleBracket => -1
  | _ => 0
  end.

(** The running bracket depth after the first [n] tokens from [Start]. *)
Fixpoint depth (Tokens : list Token) (Start n : nat) : Z :=
  match n with
  | 0 => 0
  | S n' =>
      (depth Tokens Start n'
       + bracket_delta (GetType (at_ Tokens (Start + n'))))%Z
  end.

(** Token [i] is what [FindFunction] returns when it gets there: an
    identifier at depth zero that is the name, followed by an opening
    parenthesis and preceded by an identifier. *)
Definition found_at (mem : nat -> ascii) (Tokens : list Token)
           (Start End : nat) (Name : list ascii) (i : nat) : bool :=
  is_type (GetType (at_ Tokens i)) Identifier
  && IsFunctionName mem Tokens Start End Name i
                    (depth Tokens Start (i - Start)).


(** All the offsets of [l] are before [End]. *)
Definition before_End (End : nat) (l : list nat) : Prop :=
  Forall (fun p => p < End) l.

(** A classifier that takes every identifier for a string constant. *)
Definition all_strings (s : list ascii) : TokenType := StringConstant.

(** ** Vocabulary of the further properties *)

(** A comment opens at offset [p]: a slash followed, before [End], by a
    slash or a star. *)
Definition comment_start (mem : nat -> ascii) (End p : nat) : Prop :=
  mem p = "/" /\ S p < End /\ (mem (S p) = "/" \/ mem (S p) = "*").

(** Carriage return and line feed. *)
Definition CR : ascii := "013".
Definition LF : ascii := "010".

(** The characters an identifier continues with. *)
Definition is_identifier_char (c : ascii) : bool :=
  isalnum c || is_char c "_".

(** Line endings as strings, for concrete buffers. *)
Definition lf : string := String LF EmptyString.
Definition crlf : string := String CR (String LF EmptyString).

(** Some offset of [[a, b)] holds a digit. *)
Definition has_digit (mem : nat -> ascii) (a b : nat) : Prop :=
  exists k, a <= k < b /\ IsNum (mem k) = true.

(** Two buffers hold the same characters before [End]. *)
Definition same_before (End : nat) (mem mem' : nat -> ascii) : Prop :=
  forall i, i < End -> mem i = mem' i.

(** The types the tokenizer gives to the tokens it pushes, and the types it
    gives to a token it widens. *)
Definition pushed_types : list TokenType :=
  [Undefined; Identifier; NumericConstant; PreprocessorDirective; Assignment;
   ComparisonOp; LogicOp; BitwiseOp; MathOp; Colon; Comma; Semicolon;
   QuestionMark; OpenParen; ClosingParen; OpenBrace; ClosingBrace;
   OpenSquareBracket; ClosingSquareBracket].

Definition merged_types : list TokenType :=
  [Assignment; ComparisonOp; LogicOp; BitwiseOp; IncDecOp; DoubleColon].

(** No quote and no terminator strictly between offsets [a] and [b]. *)
Definition inside_string (mem : nat -> ascii) (a b : nat) : Prop :=
  forall i, a < i < b -> mem i <> quote /\ mem i <> NUL.

(** The four ways a call of the tokenizer's handler with input left can end,
    with what the handler has looked at: the string scan of a throw and of a
    string constant, the type given by a merge, and whether the type of a
    pushed token is the tokenizer's or the classifier's answer on the
    literal. *)
Inductive HandlerOutcome (mem : nat -> ascii) (SourceEnd : nat)
          (GetTokenType : list ascii -> TokenType)
          (Tokens : list Token) (DelimStart Pos : nat)
  : result (list Token * nat * bool) -> Prop :=
| OutcomeThrows (Stop : nat) :
    mem Pos = quote ->
    Pos < Stop <= SourceEnd ->
    inside_string mem Pos Stop ->
    Stop = SourceEnd \/ mem Stop = NUL ->
    HandlerOutcome mem SourceEnd GetTokenType Tokens DelimStart Pos
                   (Throw Pos unmatched_quotes)
| OutcomeMerges (ty : TokenType) :
    In ty merged_types ->
    Tokens <> [] ->
    DelimStart = Pos ->
    HandlerOutcome mem SourceEnd GetTokenType Tokens DelimStart Pos
                   (Ok (ExtendLastToken SourceEnd Tokens ty Pos))
| OutcomePushes (ty : TokenType) (Pos' : nat) :
    Pos < Pos' <= SourceEnd ->
    mem Pos <> quote ->
    In ty pushed_types
    \/ (ty = GetTokenType (range mem Pos Pos') /\ ty <> Undefined) ->
    HandlerOutcome mem SourceEnd GetTokenType Tokens DelimStart Pos
                   (Ok (Tokens ++ [CreateToken ty DelimStart Pos Pos Pos'],
                        Pos', negb (Pos' =? SourceEnd)))
| OutcomePushesString (Closing : nat) :
    mem Pos = quote ->
    Pos < Closing < SourceEnd ->
    mem Closing = quote ->
    inside_string mem Pos Closing ->
    HandlerOutcome mem SourceEnd GetTokenType Tokens DelimStart Pos
                   (Ok (Tokens ++ [CreateToken StringConstant DelimStart Pos
                                               (S Pos) Closing],
                        S Closing, negb (S Closing =? SourceEnd))).

(** The four bounds of a token are in order. *)
Definition well_ordered (t : Token) : Prop :=
  DelimStart t <= DelimEnd t
  /\ DelimEnd t <= LiteralStart t
  /\ LiteralStart t <= LiteralEnd t.

(** The tokens of [l] are in order one after the other, the first one not
    before offset [from]. *)
Fixpoint token_chain (from : nat) (l : list Token) : Prop :=
  match l with
  | [] => True
  | t :: l' =>
      from <= DelimStart t /\ well_ordered t /\ token_chain (LiteralEnd t) l'
  end.

(** Where the chain ends: the literal end of the last token. *)
Fixpoint chain_end (from : nat) (l : list Token) : nat :=
  match l with
  | [] => from
  | t :: l' => chain_end (LiteralEnd t) l'
  end.

(** The delimiter range of [t] is the gap that
    [SkipDelimitersAndComments] skips from its start. *)
Definition delimiter_is_gap (mem : nat -> ascii) (End : nat) (t : Token)
  : Prop :=
  exists b,
    SkipDelimitersAndComments mem End (DelimStart t) = Ok (DelimEnd t, b).

(** A string constant lies between two quotes, the first one right after
    its delimiters, and holds neither a quote nor a terminator. *)
Definition string_between_quotes (mem : nat -> ascii) (End : nat) (t : Token)
  : Prop :=
  LiteralStart t = S (DelimEnd t)
  /\ mem (DelimEnd t) = quote
  /\ LiteralEnd t < End
  /\ mem (LiteralEnd t) = quote
  /\ inside_string mem (DelimEnd t) (LiteralEnd t).

(** The type of [t] is one the tokenizer gives by itself, or an answer of
    the classifier. *)
Definition type_accounted (GetTokenType : list ascii -> TokenType)
           (t : Token) : Prop :=
  In (GetType t) (pushed_types ++ merged_types ++ [StringConstant])
  \/ exists s, GetTokenType s = GetType t.

(** What the loop of [Tokenize] keeps true of the tokens made so far, [Pos]
    being where the next gap starts. *)
Definition tokenizer_inv (mem : nat -> ascii) (End : nat)
           (GetTokenType : list ascii -> TokenType)
           (Tokens : list Token) (Pos : nat) : Prop :=
  Pos <= End
  /\ token_chain 0 Tokens
  /\ chain_end 0 Tokens <= Pos
  /\ List.length Tokens <= S Pos
  /\ Forall (type_accounted GetTokenType) Tokens
  /\ Forall (fun t => GetType t = StringConstant ->
                      string_between_quotes mem End t
                      \/ exists s, GetTokenType s = StringConstant) Tokens
  /\ exists rest,
      Tokens = EmptyToken :: rest
      /\ Forall (delimiter_is_gap mem End) rest.

(** The reasons for which [Tokenize] throws. *)

(** The scan for the closing star-slash, from offset [p] on, comes to
    [End] or to a terminator before it has found one: [Stop] is the first
    such offset and no star-slash lies entirely before it. *)
Definition comment_unclosed (mem : nat -> ascii) (End p : nat) : Prop :=
  exists Stop,
    p <= Stop <= End
    /\ (Stop = End \/ mem Stop = NUL)
    /\ (forall i, p <= i < Stop -> mem i <> NUL)
    /\ (forall i, p <= i -> S i < Stop ->
                  ~ (mem i = "*" /\ mem (S i) = "/")).

(** A multi-line comment opens at [p] and is never closed. *)
Definition comment_left_open (mem : nat -> ascii) (End p : nat) : Prop :=
  S p < End /\ mem p = "/" /\ mem (S p) = "*"
  /\ comment_unclosed mem End (p + 2).

Definition string_left_open (mem : nat -> ascii) (End p : nat) : Prop :=
  p < End /\ mem p = quote
  /\ exists Stop,
      p < Stop <= End /\ inside_string mem p Stop
      /\ (Stop = End \/ mem Stop = NUL).

(** The two reasons for which the gap scanner and the handler throw. *)
Definition genuine_error (mem : nat -> ascii) (End p : nat) (m : string)
  : Prop :=
  (m = unterminated_comment /\ comment_left_open mem End p)
  \/ (m = unmatched_quotes /\ string_left_open mem End p).

(** Between tokens [a] and [b] the scan of [FindFunction] goes on: none of
    them is returned and the bracket depth is not negative after any of
    them. *)
Definition scan_passes (mem : nat -> ascii) (Tokens : list Token)
           (Start End : nat) (Name : list ascii) (a b : nat) : Prop :=
  forall j, a <= j < b ->
    found_at mem Tokens Start End Name j = false
    /\ (0 <= depth Tokens Start (S j - Start))%Z.

(** How a scan ends: at a token that is returned, at the end of the tokens,
    or at a closing bracket that takes the depth below zero. *)
Inductive ScanEnd (mem : nat -> ascii) (Tokens : list Token)
          (Start End : nat) (Name : list ascii) (Tok : nat)
  : nat * list string -> Prop :=
| ScanFinds (r : nat) :
    Tok <= r < End ->
    scan_passes mem Tokens Start End Name Tok r ->
    found_at mem Tokens Start End Name r = true ->
    ScanEnd mem Tokens Start End Name Tok (r, [])
| ScanExhausts :
    scan_passes mem Tokens Start End Name Tok End ->
    ScanEnd mem Tokens Start End Name Tok (End, [])
| ScanUnbalanced (k : nat) :
    Tok <= k < End ->
    scan_passes mem Tokens Start End Name Tok k ->
    found_at mem Tokens Start End Name k = false ->
    (depth Tokens Start (S k - Start) < 0)%Z ->
    ScanEnd mem Tokens Start End Name Tok (End, [brackets_not_balanced]).

(** ** GetContext *)

Definition newline_expected : string := "IsNewLine(CtxStart[-1])"%string.

Definition line_start_expected : string :=
  "CtxStart == Start || IsNewLine(CtxStart[-1])"%string.

Section GetContext.

Variable mem : nat -> ascii.
Variable Start End : nat.

(** [while (CtxStart > Start && !IsNewLine(CtxStart[-1])) --CtxStart;] *)
Fixpoint LineStart (CtxStart : nat) : nat :=
  match CtxStart with
  | 0 => 0
  | S p =>
      if (Start <? S p) && negb (IsNewLine (mem p)) then LineStart p
      else S p
  end.

(** The loop over the lines above, [n] being the lines still to add; the
    result is [None] when the [VERIFY_EXPR] of its body fires. *)
Fixpoint LinesAbove (n CtxStart : nat) : option nat :=
  match n with
  | 0 => Some CtxStart
  | S n' =>
      if Start <? CtxStart then
        if IsNewLine (mem (CtxStart - 1)) then
          let CtxStart :=
            if is_char (mem (CtxStart - 1)) LF && (Start + 1 <? CtxStart)
               && is_char (mem (CtxStart - 2)) CR
            then CtxStart - 1 else CtxStart in
          let CtxStart :=
            if Start <? CtxStart then CtxStart - 1 else CtxStart in
          LinesAbove n' (LineStart CtxStart)
        else None
      else Some CtxStart
  end.

(** The loop over the lines below. *)
Fixpoint LinesBelow (n CtxEnd : nat) : nat :=
  match n with
  | 0 => CtxEnd
  | S n' =>
      if negb (CtxEnd =? End) && negb (is_char (mem CtxEnd) NUL) then
        let CtxEnd :=
          if is_char (mem CtxEnd) CR && negb (CtxEnd + 1 =? End)
             && is_char (mem (CtxEnd + 1)) LF
          then S CtxEnd else CtxEnd in
        let CtxEnd := if negb (CtxEnd =? End) then S CtxEnd else CtxEnd in
        LinesBelow n' (fst (SkipLine mem End CtxEnd false))
      else CtxEnd
  end.

(** The line of the marker: [CharPos] spaces and a caret, after the line
    break of [std::endl]. *)
Definition marker (CharPos : nat) : list ascii :=
  [LF] ++ repeat " " CharPos ++ ["^"].

(** The string that [GetContext] returns, or the expression of the
    [VERIFY_EXPR] that fires. *)
Definition GetContext (Pos NumLines : nat) : run (list ascii) :=
  let CtxStart := LineStart Pos in
  let CharPos := Pos - CtxStart in
  let Pos := fst (SkipLine mem End Pos false) in
  match LinesAbove NumLines CtxStart with
  | None => VerifyFailed newline_expected
  | Some CtxStart =>
      if (CtxStart =? Start) || IsNewLine (mem (CtxStart - 1)) then
        let CtxEnd := LinesBelow NumLines Pos in
        Finished (range mem CtxStart Pos ++ marker CharPos
                  ++ range mem Pos CtxEnd)
      else VerifyFailed line_start_expected
  end.

End GetContext.

(** The context of offset [Pos] of the string [s]. *)
Definition GetContextOf (s : string) (Pos NumLines : nat) : run string :=
  match GetContext (buffer s) 0 (String.length s) Pos NumLines with
  | Finished l => Finished (string_of_list_ascii l)
  | Raised p m => Raised p m
  | VerifyFailed m => VerifyFailed m
  end.

(** The offsets from [a] to [b] hold no new-line character. *)
Definition no_newline (mem : nat -> ascii) (a b : nat) : Prop :=
  forall i, a <= i < b -> IsNewLine (mem i) = false.

(** Offset [a] is where a line starts. *)
Definition at_line_start (mem : nat -> ascii) (Start a : nat) : Prop :=
  a = Start \/ IsNewLine (mem (a - 1)) = true.

(** Offset [b] is where a line ends. *)
Definition at_line_end (mem : nat -> ascii) (End b : nat) : Prop :=
  b = End \/ mem b = NUL \/ IsNewLine (mem b) = true.

(** The three line breaks. *)
Definition line_break (br : list ascii) : Prop :=
  br = [LF] \/ br = [CR] \/ br = [CR; LF].

(** A text without a new-line character. *)
Definition plain (l : list ascii) : Prop :=
  Forall (fun c => IsNewLine c = false) l.

(** The text made of the pieces of [ls], each a pair of two texts. *)
Definition join (ls : list (list ascii * list ascii)) : list ascii :=
  List.concat (map (fun x => fst x ++ snd x) ls).

(** Lines that end with their line break, as above the marker. *)
Definition ended_lines (ls : list (list ascii * list ascii)) : Prop :=
  Forall (fun x => plain (fst x) /\ line_break (snd x)) ls.

(** Lines that start with the line break before them, as below the
    marker. *)
Definition started_lines (ls : list (list ascii * list ascii)) : Prop :=
  Forall (fun x => line_break (fst x) /\ plain (snd x)) ls.

(** The characters of which a number is made. *)
Definition float_char (c : ascii) : bool :=
  IsNum c || is_char c "+" || is_char c "-" || is_char c "."
  || is_char c "e" || is_char c "E" || is_char c "f" || is_char c "F".

(** The characters with which a number ends. *)
Definition float_last_char (c : ascii) : bool :=
  IsNum c || is_char c "." || is_char c "f" || is_char c "F".

(** The offsets from [a] to [b] hold characters of a number and, when
    there is one, the last of them is one with which a number ends. *)
Definition number_text (mem : nat -> ascii) (a b : nat) : Prop :=
  (forall i, a <= i < b -> float_char (mem i) = true)
  /\ (a < b -> float_last_char (mem (b - 1)) = true).

(** What holds while a number is scanned from [Start]: the characters up
    to [c] are characters of a number, and [Pos], not after [c], is at
    [Start] or after a character with which a number ends. *)
Definition scanning (mem : nat -> ascii) (Start c Pos : nat) : Prop :=
  Pos <= c
  /\ (forall i, Start <= i < c -> float_char (mem i) = true)
  /\ (Start < Pos -> float_last_char (mem (Pos - 1)) = true).

(** * D3D11 resource bind points *)

(** [static_cast<Uint8>]. *)
Definition Uint8 (z : Z) : Z := (z mod 256)%Z.

(** [static_cast<Uint32>]. *)
Definition Uint32 (z : Z) : Z := (z mod 4294967296)%Z.

Definition NumShaderTypes : nat := 6.

Definition InvalidBindPoint : Z := 255.

(** The struct: the array of the six bindings and the mask of the active
    stages, both of [Uint8]. *)
Record D3D11ResourceBindPoints : Type := MakeBindPoints {
  Bindings : list Z;
  ActiveStages : Z
}.

(** The object that the default constructor makes, from the default member
    initializers. *)
Definition DefaultBindPoints : D3D11ResourceBindPoints :=
  MakeBindPoints (repeat InvalidBindPoint NumShaderTypes) 0.

Definition GetActiveStages (bp : D3D11ResourceBindPoints) : Z :=
  ActiveStages bp.

(** [Bindings[ShaderInd]] of the constant [operator[]]; [None] outside of
    the array, where the source reads without a check. *)
Definition BindPoint_at (bp : D3D11ResourceBindPoints) (ShaderInd : nat)
  : option Z :=
  nth_error (Bindings bp) ShaderInd.

(** [(GetActiveStages() & (1u << ShaderInd)) != 0]. *)
Definition stage_bit (bp : D3D11ResourceBindPoints) (ShaderInd : nat) : bool :=
  negb (Z.land (GetActiveStages bp)
               (Uint32 (Z.shiftl 1 (Z.of_nat ShaderInd))) =? 0)%Z.

(** [IsStageActive]: [None] when its [VERIFY_EXPR] fires or the index is
    outside of the array. *)
Definition IsStageActive (bp : D3D11ResourceBindPoints) (ShaderInd : nat)
  : option bool :=
  let IsActive := stage_bit bp ShaderInd in
  match BindPoint_at bp ShaderInd with
  | Some b =>
      if (IsActive && negb (b =? InvalidBindPoint)%Z)
         || (negb IsActive && (b =? InvalidBindPoint)%Z)
      then Some IsActive
      else None
  | None => None
  end.

(** [Bindings[ShaderInd] = v] inside of the array. *)
Fixpoint assign (l : list Z) (ShaderInd : nat) (v : Z) : list Z :=
  match l, ShaderInd with
  | [], _ => []
  | _ :: l', 0 => v :: l'
  | x :: l', S i => x :: assign l' i v
  end.

(** The private [Set], which the assignment through [operator[]] calls:
    [None] when one of its two checks fires. *)
Definition Set_ (bp : D3D11ResourceBindPoints) (ShaderInd : nat)
           (BindPoint : Z) : option D3D11ResourceBindPoints :=
  if negb (ShaderInd <? NumShaderTypes) then None
  else if negb (BindPoint <? InvalidBindPoint)%Z then None
  else Some (MakeBindPoints
               (assign (Bindings bp) ShaderInd (Uint8 BindPoint))
               (Uint8 (Z.lor (ActiveStages bp)
                             (Uint32 (Z.shiftl 1 (Z.of_nat ShaderInd)))))).

(** [operator==]: the arrays are compared, the masks are not. *)
Definition BindPoints_eqb (a b : D3D11ResourceBindPoints) : bool :=
  if list_eq_dec Z.eq_dec (Bindings a) (Bindings b) then true else false.

(** The objects made from the default one by assignments of bind points
    (the values are those of a [Uint32]). *)
Inductive assigned : D3D11ResourceBindPoints -> Prop :=
| assigned_default : assigned DefaultBindPoints
| assigned_Set (bp bp' : D3D11ResourceBindPoints) (ShaderInd : nat)
               (BindPoint : Z) :
    assigned bp -> (0 <= BindPoint)%Z ->
    Set_ bp ShaderInd BindPoint = Some bp' ->
    assigned bp'.

(** The mask and the array agree: a stage is in the mask exactly when it
    has a bind point, and the mask has no other bit. *)
Definition mask_agrees (bp : D3D11ResourceBindPoints) : Prop :=
  List.length (Bindings bp) = NumShaderTypes
  /\ (0 <= ActiveStages bp)%Z
  /\ (forall j b,
        nth_error (Bindings bp) j = Some b ->
        (0 <= b < 256)%Z
        /\ Z.testbit (ActiveStages bp) (Z.of_nat j)
           = negb (b =? InvalidBindPoint)%Z)
  /\ (forall j, NumShaderTypes <= j ->
                Z.testbit (ActiveStages bp) (Z.of_nat j) = false).

(** * Properties *)

(** ** Characters and ranges *)

Lemma is_char_eq (a b : ascii) : is_char a b = true <-> a = b.
Proof. unfold is_char. apply Ascii.eqb_eq. Qed.

Lemma is_char_neq (a b : ascii) : is_char a b = false <-> a <> b.
Proof. unfold is_char. apply Ascii.eqb_neq. Qed.

Lemma is_char_refl (a : ascii) : is_char a a = true.
Proof. apply is_char_eq. reflexivity. Qed.

Lemma text_eqb_eq (a b : list ascii) : text_eqb a b = true <-> a = b.
Proof.
  unfold text_eqb. destruct (list_eq_dec ascii_dec a b); split; congruence.
Qed.

Lemma is_type_eq (a b : TokenType) : is_type a b = true <-> a = b.
Proof. unfold is_type. destruct (TokenType_eq_dec a b); split; congruence. Qed.

Lemma is_type_neq (a b : TokenType) : is_type a b = false <-> a <> b.
Proof. unfold is_type. destruct (TokenType_eq_dec a b); split; congruence. Qed.

Section RangeFacts.

Variable mem : nat -> ascii.

Lemma range_nil (a b : nat) : b <= a -> range mem a b = [].
Proof. intros H. unfold range. replace (b - a) with 0 by lia. reflexivity. Qed.

Lemma range_length (a b : nat) : List.length (range mem a b) = b - a.
Proof. unfold range. now rewrite length_map, length_seq. Qed.

Lemma range_cons (a b : nat) :
  a < b -> range mem a b = mem a :: range mem (S a) b.
Proof.
  intros H. unfold range. replace (b - a) with (S (b - S a)) by lia.
  reflexivity.
Qed.

Lemma range_app (a b c : nat) :
  a <= b -> b <= c -> range mem a b ++ range mem b c = range mem a c.
Proof.
  intros Hab Hbc. unfold range. rewrite <- map_app. f_equal.
  replace (c - a) with ((b - a) + (c - b)) by lia.
  rewrite seq_app. do 2 f_equal. lia.
Qed.

Lemma range_snoc (a b : nat) :
  a <= b -> range mem a (S b) = range mem a b ++ [mem b].
Proof.
  intros H. rewrite <- (range_app a b (S b)) by lia.
  f_equal. rewrite range_cons by lia. now rewrite range_nil by lia.
Qed.

Lemma range_single (a : nat) : range mem a (a + 1) = [mem a].
Proof. rewrite range_cons by lia. now rewrite range_nil by lia. Qed.

Lemma range_nonempty (a b : nat) : range mem a b <> [] -> a < b.
Proof.
  intros H. destruct (Nat.lt_ge_cases a b) as [|Hge]; [assumption|].
  now rewrite range_nil in H.
Qed.

End RangeFacts.

(** ** Bounds of the scanners *)

Section ScannerBounds.

Variable mem : nat -> ascii.
Variable End : nat.

Lemma advance_while_ge (P : ascii -> bool) (n Pos : nat) :
  Pos <= advance_while mem End P n Pos.
Proof.
  revert Pos. induction n as [|n IH]; intros Pos; simpl; [lia|].
  destruct (negb (Pos =? End) && P (mem Pos)); [|lia].
  specialize (IH (S Pos)). lia.
Qed.

Lemma advance_while_le (P : ascii -> bool) (n Pos : nat) :
  Pos <= End -> advance_while mem End P n Pos <= End.
Proof.
  revert Pos. induction n as [|n IH]; intros Pos H; simpl; [lia|].
  destruct (Pos =? End) eqn:E; simpl; [lia|].
  apply Nat.eqb_neq in E.
  destruct (P (mem Pos)); [|lia]. apply IH. lia.
Qed.

(** When the countdown is long enough the loop stops for the reason the
    source gives: at [End], or at a character that fails [P]. *)
Lemma advance_while_stop (P : ascii -> bool) (n Pos : nat) :
  Pos <= End -> End - Pos <= n ->
  let r := advance_while mem End P n Pos in
  r = End \/ P (mem r) = false.
Proof.
  revert Pos. induction n as [|n IH]; intros Pos H Hn; simpl.
  - left. lia.
  - destruct (Pos =? End) eqn:E; simpl.
    + left. now apply Nat.eqb_eq in E.
    + apply Nat.eqb_neq in E. destruct (P (mem Pos)) eqn:EP.
      * apply IH; lia.
      * now right.
Qed.

Lemma advance_while_first (P : ascii -> bool) (n Pos : nat) :
  Pos < End -> P (mem Pos) = true -> 0 < n ->
  Pos < advance_while mem End P n Pos.
Proof.
  intros H HP Hn. destruct n as [|n]; [lia|]. simpl.
  replace (Pos =? End) with false by (symmetry; apply Nat.eqb_neq; lia).
  simpl. rewrite HP. pose proof (advance_while_ge P n (S Pos)). lia.
Qed.

Lemma SkipLine_bounds (Pos : nat) (b : bool) :
  Pos <= End ->
  Pos <= fst (SkipLine mem End Pos b) <= End.
Proof.
  intros H. unfold SkipLine. cbv zeta.
  set (p := advance_while mem End _ (End - Pos) Pos).
  assert (Hp : Pos <= p <= End)
    by (split; [apply advance_while_ge | now apply advance_while_le]).
  cbn [fst].
  destruct (p =? End) eqn:E1.
  - rewrite andb_false_r. cbn. lia.
  - apply Nat.eqb_neq in E1.
    destruct (b && negb false && IsNewLine (mem p)); [|lia].
    destruct (S p =? End) eqn:E2.
    + rewrite andb_false_r. cbn. apply Nat.eqb_eq in E2. lia.
    + apply Nat.eqb_neq in E2.
      destruct (is_char (mem (S p - 1)) "013" && negb false
                && is_char (mem (S p)) "010"); lia.
Qed.

Lemma FindCommentEnd_bounds (n p r : nat) :
  p <= End -> FindCommentEnd mem End n p = Some r -> p < r <= End.
Proof.
  revert p. induction n as [|n IH]; intros p Hp; cbn [FindCommentEnd];
    [discriminate|].
  unfold at_end.
  destruct (p =? End) eqn:E1; cbn [orb]; [discriminate|].
  apply Nat.eqb_neq in E1.
  destruct (is_char (mem p) NUL); [discriminate|].
  destruct (is_char (mem p) "*").
  - destruct (S p =? End) eqn:E2; cbn [orb]; [discriminate|].
    apply Nat.eqb_neq in E2.
    destruct (is_char (mem (S p)) NUL); [discriminate|].
    destruct (is_char (mem (S p)) "/").
    + intros [= <-]. lia.
    + intros Hr. apply IH in Hr; lia.
  - intros Hr. apply IH in Hr; lia.
Qed.

Lemma SkipComment_bounds (Pos r : nat) (b : bool) :
  Pos <= End -> SkipComment mem End Pos = Ok (r, b) -> Pos <= r <= End.
Proof.
  intros H. unfold SkipComment, at_end.
  destruct (Pos =? End) eqn:E1; cbn [orb]; [intros [= <- _]; lia|].
  apply Nat.eqb_neq in E1.
  destruct (is_char (mem Pos) NUL); [intros [= <- _]; lia|].
  destruct (negb (is_char (mem Pos) "/")); [intros [= <- _]; lia|].
  destruct (Pos + 1 =? End) eqn:E2; cbn [orb]; [intros [= <- _]; lia|].
  apply Nat.eqb_neq in E2.
  destruct (is_char (mem (Pos + 1)) NUL); [intros [= <- _]; lia|].
  destruct (is_char (mem (Pos + 1)) "/").
  - pose proof (SkipLine_bounds (Pos + 1 + 1) true) as HS.
    destruct (SkipLine mem End (Pos + 1 + 1) true) as [q e].
    cbn [fst] in *. intros [= <- _]. lia.
  - destruct (is_char (mem (Pos + 1)) "*"); [|intros [= <- _]; lia].
    destruct (FindCommentEnd mem End _ _) as [q|] eqn:EF; [|discriminate].
    intros [= <- _]. apply FindCommentEnd_bounds in EF; lia.
Qed.

Lemma SkipDelimitersAndComments_loop_bounds (n Pos r : nat) :
  Pos <= End ->
  SkipDelimitersAndComments_loop mem End n Pos = Ok r -> Pos <= r <= End.
Proof.
  revert Pos. induction n as [|n IH]; intros Pos H;
    cbn [SkipDelimitersAndComments_loop].
  - intros [= <-]. lia.
  - cbv zeta. set (p := advance_while mem End IsDelimiter (End - Pos) Pos).
    assert (Hp : Pos <= p <= End)
      by (split; [apply advance_while_ge | now apply advance_while_le]).
    destruct (SkipComment mem End p) as [[q b]|] eqn:EC; [|discriminate].
    apply SkipComment_bounds in EC; [|lia].
    destruct (negb (q =? End) && _).
    + intros Hr. apply IH in Hr; lia.
    + intros [= <-]. lia.
Qed.

Lemma SkipDelimitersAndComments_bounds (Pos r : nat) (b : bool) :
  Pos <= End ->
  SkipDelimitersAndComments mem End Pos = Ok (r, b) -> Pos <= r <= End.
Proof.
  intros H. unfold SkipDelimitersAndComments.
  destruct (SkipDelimitersAndComments_loop mem End _ Pos) eqn:EL;
    [|discriminate].
  intros [= <- _]. now apply SkipDelimitersAndComments_loop_bounds in EL.
Qed.

Lemma SkipIdentifier_bounds (Pos : nat) :
  Pos <= End -> Pos <= fst (SkipIdentifier mem End Pos) <= End.
Proof.
  intros H. unfold SkipIdentifier.
  destruct (Pos =? End) eqn:E1; cbn [fst]; [lia|].
  apply Nat.eqb_neq in E1.
  destruct (isalpha (mem Pos) || is_char (mem Pos) "_"); cbn [fst]; [|lia].
  destruct (S Pos =? End) eqn:E2; cbn [fst].
  - apply Nat.eqb_eq in E2. lia.
  - pose proof (advance_while_ge (fun c => isalnum c || is_char c "_")
                                 (End - S Pos) (S Pos)).
    pose proof (advance_while_le (fun c => isalnum c || is_char c "_")
                                 (End - S Pos) (S Pos)).
    lia.
Qed.

End ScannerBounds.

(** ** The countdowns are long enough

    The loops of the scanners are written with a countdown; with the
    countdown the callers pass, a loop is never cut short: any longer
    countdown gives the same result. *)

Section Countdowns.

Variable mem : nat -> ascii.
Variable End : nat.

Lemma advance_while_fuel (P : ascii -> bool) (n m Pos : nat) :
  Pos <= End -> End - Pos <= n -> End - Pos <= m ->
  advance_while mem End P n Pos = advance_while mem End P m Pos.
Proof.
  revert m Pos. induction n as [|n IH]; intros m Pos HP Hn Hm.
  - assert (Pos = End) as -> by lia. destruct m; cbn; [reflexivity|].
    now rewrite Nat.eqb_refl.
  - destruct m as [|m].
    + assert (Pos = End) as -> by lia. cbn. now rewrite Nat.eqb_refl.
    + cbn [advance_while]. destruct (Pos =? End) eqn:E; [reflexivity|].
      apply Nat.eqb_neq in E. cbn [negb andb].
      destruct (P (mem Pos)); [|reflexivity]. apply IH; lia.
Qed.

Lemma FindCommentEnd_fuel (n m p : nat) :
  p <= End -> End - p < n -> End - p < m ->
  FindCommentEnd mem End n p = FindCommentEnd mem End m p.
Proof.
  revert m p. induction n as [|n IH]; intros m p Hp Hn Hm; [lia|].
  destruct m as [|m]; [lia|]. cbn [FindCommentEnd]. unfold at_end.
  destruct (p =? End) eqn:E1; cbn [orb]; [reflexivity|].
  apply Nat.eqb_neq in E1.
  destruct (is_char (mem p) NUL); [reflexivity|].
  destruct (is_char (mem p) "*").
  - destruct (S p =? End) eqn:E2; cbn [orb]; [reflexivity|].
    apply Nat.eqb_neq in E2.
    destruct (is_char (mem (S p)) NUL); [reflexivity|].
    destruct (is_char (mem (S p)) "/"); [reflexivity|]. apply IH; lia.
  - apply IH; lia.
Qed.

Lemma SkipDelimitersAndComments_loop_fuel (n m Pos : nat) :
  Pos <= End -> End - Pos < n -> End - Pos < m ->
  SkipDelimitersAndComments_loop mem End n Pos
  = SkipDelimitersAndComments_loop mem End m Pos.
Proof.
  revert m Pos. induction n as [|n IH]; intros m Pos HP Hn Hm; [lia|].
  destruct m as [|m]; [lia|]. cbn [SkipDelimitersAndComments_loop]. cbv zeta.
  set (p := advance_while mem End IsDelimiter (End - Pos) Pos).
  assert (Hp : Pos <= p <= End)
    by (split; [apply advance_while_ge | now apply advance_while_le]).
  destruct (SkipComment mem End p) as [[q b]|w s] eqn:EC; [|reflexivity].
  apply SkipComment_bounds in EC; [|lia].
  destruct (q =? End) eqn:E1; cbn [negb andb]; [reflexivity|].
  apply Nat.eqb_neq in E1.
  destruct (p =? Pos) eqn:E2; destruct (p =? q) eqn:E3; cbn [negb orb];
    try reflexivity.
  all: try apply Nat.eqb_neq in E2; try apply Nat.eqb_neq in E3.
  all: apply IH; lia.
Qed.

Lemma SkipDigits_fuel (n m c Pos : nat) :
  c <= End -> End - c <= n -> End - c <= m ->
  SkipDigits mem End n c Pos = SkipDigits mem End m c Pos.
Proof.
  revert m c Pos. induction n as [|n IH]; intros m c Pos Hc Hn Hm.
  - assert (c = End) as -> by lia. destruct m; cbn; [reflexivity|].
    now rewrite Nat.eqb_refl.
  - destruct m as [|m].
    + assert (c = End) as -> by lia. cbn. now rewrite Nat.eqb_refl.
    + cbn [SkipDigits]. destruct (c =? End) eqn:E; [reflexivity|].
      apply Nat.eqb_neq in E. unfold tbind, deref.
      destruct (IsNum (mem c)); [|reflexivity].
      rewrite (IH m (S c) (S c)) by lia. reflexivity.
Qed.

End Countdowns.

Lemma FindFunction_loop_fuel (mem : nat -> ascii) (Tokens : list Token)
      (Start End : nat) (Name : list ascii) (n m Tok : nat) (d : Z) :
  Tok <= End -> End - Tok <= n -> End - Tok <= m ->
  FindFunction_loop mem Tokens Start End Name n Tok d
  = FindFunction_loop mem Tokens Start End Name m Tok d.
Proof.
  revert m Tok d. induction n as [|n IH]; intros m Tok d HT Hn Hm.
  - assert (Tok = End) as -> by lia. destruct m; cbn; [reflexivity|].
    now rewrite Nat.eqb_refl.
  - destruct m as [|m].
    + assert (Tok = End) as -> by lia. cbn. now rewrite Nat.eqb_refl.
    + cbn [FindFunction_loop]. destruct (Tok =? End) eqn:E; [reflexivity|].
      apply Nat.eqb_neq in E.
      destruct (GetType (at_ Tokens Tok));
        try (apply IH; lia).
      * destruct (IsFunctionName _ _ _ _ _ _ _); [reflexivity|].
        apply IH; lia.
      * destruct (_ <? 0)%Z; [reflexivity|]. apply IH; lia.
      * destruct (_ <? 0)%Z; [reflexivity|]. apply IH; lia.
      * destruct (_ <? 0)%Z; [reflexivity|]. apply IH; lia.
      * destruct (_ <? 0)%Z; [reflexivity|]. apply IH; lia.
Qed.


(** ** The float recognizer: value and reads *)

Lemma value_tbind {A B} (m : Traced A) (f : A -> Traced B) :
  value (tbind m f) = value (f (value m)).
Proof. unfold value, tbind. destruct m as [a l]. cbn. now destruct (f a). Qed.

Lemma reads_tbind {A B} (m : Traced A) (f : A -> Traced B) :
  reads (tbind m f) = reads m ++ reads (f (value m)).
Proof.
  unfold reads, value, tbind. destruct m as [a l]. cbn. now destruct (f a).
Qed.

Ltac traced :=
  rewrite ?value_tbind, ?reads_tbind;
  cbn [value reads deref tret fst snd].

Section FloatBounds.

Variable mem : nat -> ascii.
Variable End : nat.

Lemma value_CHECK_END (c Pos : nat) (k : Traced nat) :
  value (CHECK_END mem End c Pos k)
  = if at_end mem End c then Pos else value k.
Proof.
  unfold CHECK_END, at_end. destruct (c =? End); cbn [orb]; [reflexivity|].
  traced. now destruct (is_char (mem c) NUL).
Qed.

(** The digit loop leaves [(c, Pos)] untouched or moves both to the first
    offset after the digits. *)
Lemma SkipDigits_value (n c Pos : nat) :
  c <= End ->
  let r := value (SkipDigits mem End n c Pos) in
  c <= fst r <= End
  /\ ((fst r = c /\ snd r = Pos) \/ (c < fst r /\ snd r = fst r)).
Proof.
  revert c Pos. induction n as [|n IH]; intros c Pos Hc; cbn [SkipDigits].
  - cbn. lia.
  - destruct (c =? End) eqn:E; [cbn; lia|]. apply Nat.eqb_neq in E.
    traced. destruct (IsNum (mem c)); [|cbn; lia].
    specialize (IH (S c) (S c)). cbv zeta in IH. lia.
Qed.

Lemma FloatSuffix_bounds (hd he : bool) (Start c Pos : nat) :
  Pos <= c <= End ->
  Pos <= value (FloatSuffix mem End hd he Start c Pos) <= End.
Proof.
  intros H. unfold FloatSuffix.
  destruct (c =? End) eqn:E.
  - rewrite andb_false_r. cbn. lia.
  - apply Nat.eqb_neq in E.
    destruct ((hd || he) && negb false && (Start <? Pos)); [|cbn; lia].
    traced. destruct (is_char (mem c) "f" || is_char (mem c) "F"); cbn; lia.
Qed.

Lemma FloatExponent_bounds (hi hd : bool) (Start c Pos : nat) :
  Pos <= c -> c < End ->
  Pos <= value (FloatExponent mem End hi hd Start c Pos) <= End.
Proof.
  intros H Hc. unfold FloatExponent. traced.
  destruct (is_char (mem c) "e" || is_char (mem c) "E");
    [|apply FloatSuffix_bounds; lia].
  destruct (negb hi); [cbn; lia|].
  destruct (S c =? End) eqn:E1; [cbn; lia|]. apply Nat.eqb_neq in E1.
  traced.
  destruct (negb (is_char (mem (S c)) "+") && negb (is_char (mem (S c)) "-"));
    [cbn; lia|].
  destruct (S (S c) =? End) eqn:E2; [cbn; lia|]. apply Nat.eqb_neq in E2.
  traced. destruct (negb (IsNum (mem (S (S c))))); [cbn; lia|].
  traced.
  pose proof (SkipDigits_value (End - S (S c)) (S (S c)) Pos) as HD.
  cbv zeta in HD.
  destruct (value (SkipDigits mem End (End - S (S c)) (S (S c)) Pos))
    as [c' Pos'].
  cbn [fst snd] in *.
  pose proof (FloatSuffix_bounds hd true Start c' Pos'). lia.
Qed.

Lemma FloatDecimal_bounds (hi : bool) (Start c Pos : nat) :
  Pos <= c -> c < End ->
  Pos <= value (FloatDecimal mem End hi Start c Pos) <= End.
Proof.
  intros H Hc. unfold FloatDecimal. traced.
  destruct (is_char (mem c) ".");
    [|apply FloatExponent_bounds; lia].
  traced.
  pose proof (SkipDigits_value (End - S c) (S c) (if hi then S c else Pos))
    as HD.
  cbv zeta in HD.
  destruct (value (SkipDigits mem End (End - S c) (S c)
                              (if hi then S c else Pos))) as [c' Pos'].
  cbn [fst snd] in *.
  rewrite value_CHECK_END. unfold at_end.
  destruct (c' =? End) eqn:E; cbn [orb]; [destruct hi; lia|].
  apply Nat.eqb_neq in E.
  pose proof (FloatExponent_bounds hi true Start c' Pos').
  destruct (is_char (mem c') NUL); destruct hi; lia.
Qed.

Lemma FloatInteger_bounds (Start c Pos : nat) :
  Pos <= c -> c < End ->
  Pos <= value (FloatInteger mem End Start c Pos) <= End.
Proof.
  intros H Hc. unfold FloatInteger. traced.
  destruct (IsNum (mem c)); [|now apply FloatDecimal_bounds].
  traced.
  pose proof (SkipDigits_value (End - c) c Pos) as HD. cbv zeta in HD.
  destruct (value (SkipDigits mem End (End - c) c Pos)) as [c' Pos'].
  cbn [fst snd] in *. rewrite value_CHECK_END.
  unfold at_end. destruct (c' =? End) eqn:E; cbn [orb]; [lia|].
  apply Nat.eqb_neq in E.
  pose proof (FloatDecimal_bounds true Start c' Pos').
  destruct (is_char (mem c') NUL); lia.
Qed.

(** The recognizer never moves [Pos] backwards nor past [End]. *)
Lemma SkipFloatNumber_bounds (Pos : nat) :
  Pos <= End ->
  Pos <= value (SkipFloatNumber mem End Pos) <= End.
Proof.
  intros H. unfold SkipFloatNumber. cbv zeta. rewrite value_CHECK_END.
  unfold at_end. destruct (Pos =? End) eqn:E; cbn [orb]; [lia|].
  apply Nat.eqb_neq in E.
  destruct (is_char (mem Pos) NUL); [lia|]. traced.
  set (c := if is_char (mem Pos) "+" || is_char (mem Pos) "-"
            then S Pos else Pos).
  assert (Hc : Pos <= c <= End) by (subst c; destruct (_ || _); lia).
  rewrite value_CHECK_END.
  unfold at_end. destruct (c =? End) eqn:E2; cbn [orb]; [lia|].
  apply Nat.eqb_neq in E2.
  destruct (is_char (mem c) NUL); [lia|]. traced.
  set (leading := value (if is_char (mem c) "0"
                         then tbind (deref mem (c + 1))
                                    (fun nx => tret (IsNum nx))
                         else tret false)).
  destruct leading; [cbn; lia|].
  apply FloatInteger_bounds; lia.
Qed.

End FloatBounds.
(** ** Where the float recognizer reads

    Every offset the recognizer dereferences is before [End], but for the
    look-ahead of the leading-zero test, which reads offset [End] when the
    zero is the last character. *)

Section FloatReads.

Variable mem : nat -> ascii.
Variable End : nat.

Lemma before_End_app (a b : list nat) :
  before_End End a -> before_End End b -> before_End End (a ++ b).
Proof. intros Ha Hb. apply Forall_app. now split. Qed.

Lemma before_End_one (p : nat) : p < End -> before_End End [p].
Proof. intros H. constructor; [assumption | constructor]. Qed.

Lemma reads_CHECK_END (c Pos : nat) (k : Traced nat) :
  c <= End ->
  (c < End -> before_End End (reads k)) ->
  before_End End (reads (CHECK_END mem End c Pos k)).
Proof.
  intros Hc Hk. unfold CHECK_END.
  destruct (c =? End) eqn:E; [constructor|]. apply Nat.eqb_neq in E.
  traced. apply before_End_app; [apply before_End_one; lia|].
  destruct (is_char (mem c) NUL); [constructor | apply Hk; lia].
Qed.

Lemma reads_SkipDigits (n c Pos : nat) :
  c <= End -> before_End End (reads (SkipDigits mem End n c Pos)).
Proof.
  revert c Pos. induction n as [|n IH]; intros c Pos Hc; cbn [SkipDigits];
    [constructor|].
  destruct (c =? End) eqn:E; [constructor|]. apply Nat.eqb_neq in E.
  traced. apply before_End_app; [apply before_End_one; lia|].
  destruct (IsNum (mem c)); [apply IH; lia | constructor].
Qed.

Lemma reads_FloatSuffix (hd he : bool) (Start c Pos : nat) :
  c <= End -> before_End End (reads (FloatSuffix mem End hd he Start c Pos)).
Proof.
  intros Hc. unfold FloatSuffix. destruct (c =? End) eqn:E.
  - rewrite andb_false_r. constructor.
  - apply Nat.eqb_neq in E.
    destruct ((hd || he) && negb false && (Start <? Pos)); [|constructor].
    traced. apply before_End_app; [apply before_End_one; lia|].
    destruct (_ || _); constructor.
Qed.

Lemma reads_FloatExponent (hi hd : bool) (Start c Pos : nat) :
  c < End -> before_End End (reads (FloatExponent mem End hi hd Start c Pos)).
Proof.
  intros Hc. unfold FloatExponent. traced.
  apply before_End_app; [apply before_End_one; lia|].
  destruct (_ || _); [|apply reads_FloatSuffix; lia].
  destruct (negb hi); [constructor|].
  destruct (S c =? End) eqn:E1; [constructor|]. apply Nat.eqb_neq in E1.
  traced. apply before_End_app; [apply before_End_one; lia|].
  destruct (_ && _); [constructor|].
  destruct (S (S c) =? End) eqn:E2; [constructor|]. apply Nat.eqb_neq in E2.
  traced. apply before_End_app; [apply before_End_one; lia|].
  destruct (negb _); [constructor|].
  traced. apply before_End_app; [apply reads_SkipDigits; lia|].
  pose proof (SkipDigits_value mem End (End - S (S c)) (S (S c)) Pos
                               ltac:(lia)) as HD.
  cbv zeta in HD. apply reads_FloatSuffix. lia.
Qed.

Lemma reads_FloatDecimal (hi : bool) (Start c Pos : nat) :
  c < End -> before_End End (reads (FloatDecimal mem End hi Start c Pos)).
Proof.
  intros Hc. unfold FloatDecimal. traced.
  apply before_End_app; [apply before_End_one; lia|].
  destruct (is_char (mem c) "."); [|now apply reads_FloatExponent].
  traced. apply before_End_app; [apply reads_SkipDigits; lia|].
  pose proof (SkipDigits_value mem End (End - S c) (S c)
                               (if hi then S c else Pos) ltac:(lia)) as HD.
  cbv zeta in HD.
  apply reads_CHECK_END; [lia|]. intros Hlt. now apply reads_FloatExponent.
Qed.

Lemma reads_FloatInteger (Start c Pos : nat) :
  c < End -> before_End End (reads (FloatInteger mem End Start c Pos)).
Proof.
  intros Hc. unfold FloatInteger. traced.
  apply before_End_app; [apply before_End_one; lia|].
  destruct (IsNum (mem c)); [|now apply reads_FloatDecimal].
  traced. apply before_End_app; [apply reads_SkipDigits; lia|].
  pose proof (SkipDigits_value mem End (End - c) c Pos ltac:(lia)) as HD.
  cbv zeta in HD.
  apply reads_CHECK_END; [lia|]. intros Hlt. now apply reads_FloatDecimal.
Qed.

(** The reads of the whole recognizer: before [End], or at [End] right after
    a zero. *)
Lemma reads_SkipFloatNumber (Pos : nat) :
  Pos <= End ->
  Forall (fun p => p < End \/ (p = End /\ 0 < End /\ mem (End - 1) = "0"))
         (reads (SkipFloatNumber mem End Pos)).
Proof.
  intros HP.
  assert (Hweak : forall l, before_End End l ->
            Forall (fun p => p < End
                             \/ (p = End /\ 0 < End /\ mem (End - 1) = "0")) l).
  { intros l Hl. eapply Forall_impl; [|exact Hl]. cbn. intros p Hp. now left. }
  unfold SkipFloatNumber, CHECK_END. cbv zeta.
  destruct (Pos =? End) eqn:E; [constructor|]. apply Nat.eqb_neq in E.
  traced. apply Forall_app. split; [apply Hweak, before_End_one; lia|].
  destruct (is_char (mem Pos) NUL); [constructor|].
  traced. apply Forall_app. split; [apply Hweak, before_End_one; lia|].
  set (c := if is_char (mem Pos) "+" || is_char (mem Pos) "-"
            then S Pos else Pos).
  assert (Hc : Pos <= c <= End) by (subst c; destruct (_ || _); lia).
  destruct (c =? End) eqn:E2; [constructor|]. apply Nat.eqb_neq in E2.
  traced. apply Forall_app. split; [apply Hweak, before_End_one; lia|].
  destruct (is_char (mem c) NUL); [constructor|].
  traced. apply Forall_app. split; [apply Hweak, before_End_one; lia|].
  destruct (is_char (mem c) "0") eqn:Ez.
  - traced. apply Forall_app. split.
    + apply Forall_app. split; [|constructor].
      constructor; [|constructor].
      destruct (Nat.eq_dec (c + 1) End) as [He|Hne]; [|left; lia].
      right. split; [assumption|]. split; [lia|].
      replace (End - 1) with c by lia. now apply is_char_eq.
    + destruct (IsNum (mem (c + 1))); [constructor|].
      apply Hweak, reads_FloatInteger. lia.
  - traced. cbn [app]. apply Hweak, reads_FloatInteger. lia.
Qed.

(** Conversely, started on a zero that is the last character before [End],
    the recognizer does read offset [End]. *)
Lemma reads_End_after_zero :
  0 < End -> mem (End - 1) = "0" ->
  In End (reads (SkipFloatNumber mem End (End - 1))).
Proof.
  intros HE Hz.
  assert (Hne : (End - 1 =? End) = false) by (apply Nat.eqb_neq; lia).
  assert (Hnul : is_char (mem (End - 1)) NUL = false) by now rewrite Hz.
  assert (Hsign : is_char (mem (End - 1)) "+" || is_char (mem (End - 1)) "-"
                  = false) by now rewrite Hz.
  assert (Hzero : is_char (mem (End - 1)) "0" = true) by now rewrite Hz.
  unfold SkipFloatNumber, CHECK_END. cbv zeta.
  rewrite Hne. cbv iota. traced. rewrite Hnul. cbv iota. traced.
  rewrite Hsign. cbv iota. rewrite Hne. cbv iota. traced.
  rewrite Hnul. cbv iota. traced. rewrite Hzero. cbv iota. traced.
  replace (End - 1 + 1) with End by lia.
  cbn [app]. do 4 apply in_cons. now left.
Qed.

End FloatReads.

(** ** The tokenizer's handler, case by case *)

Section HandlerCases.

Variable mem : nat -> ascii.
Variable SourceEnd : nat.
Variable GetTokenType : list ascii -> TokenType.




Lemma PushToken_single (Tokens : list Token) (ty : TokenType)
      (DelimStart Pos : nat) :
  Pos < SourceEnd ->
  (ty = StringConstant -> exists s, GetTokenType s = StringConstant) ->
  HandlerCase mem SourceEnd GetTokenType Tokens DelimStart Pos
       (PushToken SourceEnd Tokens ty DelimStart Pos Pos DelimStart (S Pos)).
Proof.
  intros H Hty. unfold PushToken. rewrite Nat.eqb_refl.
  apply HandlerPushes; [lia | assumption].
Qed.

Lemma PushToken_upto (Tokens : list Token) (ty : TokenType)
      (DelimStart Pos Pos' : nat) :
  Pos < Pos' <= SourceEnd ->
  (ty = StringConstant -> exists s, GetTokenType s = StringConstant) ->
  HandlerCase mem SourceEnd GetTokenType Tokens DelimStart Pos
       (PushToken SourceEnd Tokens ty DelimStart Pos Pos DelimStart Pos').
Proof.
  intros H Hty. unfold PushToken. rewrite Nat.eqb_refl.
  now apply HandlerPushes.
Qed.

Lemma double_char_case (Tokens : list Token) (dty ty : TokenType)
      (DelimStart Pos : nat) :
  Pos < SourceEnd ->
  dty <> StringConstant -> ty <> StringConstant ->
  In (mem Pos) doubling_chars ->
  HandlerCase mem SourceEnd GetTokenType Tokens DelimStart Pos
       (if AddDoubleCharToken_applies mem Tokens DelimStart Pos Pos
        then Ok (ExtendLastToken SourceEnd Tokens dty Pos)
        else PushToken SourceEnd Tokens ty DelimStart Pos Pos DelimStart
                       (S Pos)).
Proof.
  intros H Hd Ht Hin.
  destruct (AddDoubleCharToken_applies mem Tokens DelimStart Pos Pos) eqn:E.
  - unfold AddDoubleCharToken_applies in E.
    apply andb_true_iff in E as [E E3]. apply andb_true_iff in E as [E1 E2].
    apply Nat.eqb_eq in E2. apply text_eqb_eq in E3.
    rewrite range_single in E3.
    apply HandlerMerges; try assumption.
    + destruct Tokens; [discriminate | congruence].
    + right. now split.
  - apply PushToken_single; [assumption | congruence].
Qed.

Ltac char_is H :=
  repeat (apply orb_true_iff in H as [H|H]);
  apply is_char_eq in H; rewrite H; cbn; tauto.

(** Every call of the handler with input left falls under one of the four
    cases. *)
Lemma TokenizeHandler_cases (Tokens : list Token) (DelimStart Pos : nat) :
  DelimStart <= Pos -> Pos < SourceEnd ->
  HandlerCase mem SourceEnd GetTokenType Tokens DelimStart Pos
                (TokenizeHandler mem SourceEnd GetTokenType Tokens
                                 DelimStart Pos).
Proof.
  intros Hd Hp. unfold TokenizeHandler. cbv zeta.
  replace (Pos =? SourceEnd) with false
    by (symmetry; apply Nat.eqb_neq; lia).
  assert (Hno : forall ty, ty <> StringConstant ->
                 ty = StringConstant ->
                 exists s, GetTokenType s = StringConstant)
    by (intros ty H1 H2; contradiction).
  destruct (is_char (mem Pos) "#") eqn:E0.
  { apply PushToken_upto; [|now apply Hno].
    pose proof (SkipLine_bounds mem SourceEnd Pos false) as HS.
    unfold SkipLine in *. cbv zeta in *. cbn [fst andb] in *.
    apply is_char_eq in E0.
    pose proof (advance_while_first mem SourceEnd
      (fun c => negb (is_char c NUL) && negb (IsNewLine c))
      (SourceEnd - Pos) Pos Hp) as HF.
    rewrite E0 in HF. specialize (HF eq_refl). lia. }
  destruct (is_char (mem Pos) "=") eqn:E1.
  { apply is_char_eq in E1.
    destruct (negb (empty Tokens) && (DelimStart =? Pos)) eqn:Ez;
      [|apply PushToken_single; [assumption | now apply Hno]].
    apply andb_true_iff in Ez as [Ez1 Ez2]. apply Nat.eqb_eq in Ez2.
    assert (Tokens <> []) by (destruct Tokens; [discriminate | congruence]).
    destruct (existsb _ assignment_prefixes) eqn:Ea.
    { apply existsb_exists in Ea as [op [Hin Hop]].
      apply text_eqb_eq in Hop.
      apply HandlerMerges; try assumption; [congruence|].
      left. split; [assumption|]. rewrite Hop. apply in_or_app. now left. }
    destruct (existsb _ comparison_prefixes) eqn:Ec.
    { apply existsb_exists in Ec as [op [Hin Hop]].
      apply text_eqb_eq in Hop.
      apply HandlerMerges; try assumption; [congruence|].
      left. split; [assumption|]. rewrite Hop. apply in_or_app. now right. }
    apply PushToken_single; [assumption | now apply Hno]. }
  destruct (is_char (mem Pos) "|" || is_char (mem Pos) "&") eqn:E2.
  { apply double_char_case; try assumption; try congruence. char_is E2. }
  destruct (is_char (mem Pos) "<" || is_char (mem Pos) ">") eqn:E3.
  { apply double_char_case; try assumption; try congruence. char_is E3. }
  destruct (is_char (mem Pos) "+" || is_char (mem Pos) "-") eqn:E4.
  { apply double_char_case; try assumption; try congruence. char_is E4. }
  destruct (is_char (mem Pos) ":") eqn:E5.
  { apply double_char_case; try assumption; try congruence. char_is E5. }
  repeat match goal with
         | |- HandlerCase _ _ _ _ _ _
                          (if is_char (mem Pos) quote then _ else _) => fail 1
         | |- HandlerCase _ _ _ _ _ _ (if ?b then _ else _) =>
             destruct b;
             [apply PushToken_single; [assumption | apply Hno; congruence]|]
         end.
  destruct (is_char (mem Pos) quote) eqn:E6.
  { apply is_char_eq in E6.
    set (P := fun c => negb (is_char c NUL) && negb (is_char c quote)).
    pose proof (advance_while_ge mem SourceEnd P (SourceEnd - S Pos) (S Pos))
      as Hge.
    pose proof (advance_while_le mem SourceEnd P (SourceEnd - S Pos) (S Pos))
      as Hle.
    set (q := advance_while mem SourceEnd P (SourceEnd - S Pos) (S Pos)) in *.
    replace (S Pos - 1) with Pos by lia.
    destruct (q =? SourceEnd) eqn:Eq; cbn [orb]; [apply HandlerThrows|].
    apply Nat.eqb_neq in Eq.
    destruct (is_char (mem q) quote) eqn:Eq2; cbn [negb];
      [|apply HandlerThrows].
    apply is_char_eq in Eq2. unfold PushToken.
    replace (q =? DelimStart) with false
      by (symmetry; apply Nat.eqb_neq; lia).
    apply HandlerPushesString; [lia | assumption | assumption]. }
  pose proof (SkipIdentifier_bounds mem SourceEnd Pos) as HI.
  destruct (SkipIdentifier mem SourceEnd Pos) as [p1 e1]. cbn [fst] in *.
  destruct (Pos =? p1) eqn:Ep; cbn [negb].
  - apply Nat.eqb_eq in Ep. subst p1.
    pose proof (SkipFloatNumber_bounds mem SourceEnd Pos) as HF.
    set (p2 := value (SkipFloatNumber mem SourceEnd Pos)) in *.
    destruct (Pos =? p2) eqn:Ep2; cbn [negb].
    + apply Nat.eqb_eq in Ep2. rewrite <- Ep2.
      apply PushToken_single; [assumption | now apply Hno].
    + apply Nat.eqb_neq in Ep2.
      change (is_type NumericConstant Undefined) with false. cbv iota.
      apply PushToken_upto; [lia | apply Hno; congruence].
  - apply Nat.eqb_neq in Ep.
    set (ty := GetTokenType (range mem Pos p1)).
    destruct (is_type ty Undefined) eqn:Et.
    + change (is_type Identifier Undefined) with false. cbv iota.
      apply PushToken_upto; [lia | apply Hno; congruence].
    + rewrite Et. apply PushToken_upto; [lia|].
      intros Hs. exists (range mem Pos p1). exact Hs.
Qed.

End HandlerCases.

(** ** The splitter's loop *)

Section SplitStringFacts.

Variable mem : nat -> ascii.
Variable End : nat.
Context {St : Type}.
Variable Handler : St -> nat -> nat -> result (St * nat * bool).

(** With such a handler the loop ends within [End - Pos + 1] iterations, with
    the same outcome whatever fuel is left over, and never on the [VERIFY]. *)
Lemma SplitString_loop_terminates :
  makes_progress End Handler -> stops_at_end End Handler ->
  forall k Pos st,
    Pos <= End -> End - Pos <= k ->
    exists r,
      (forall fuel, End - Pos < fuel ->
                    SplitString_loop mem End Handler fuel st Pos = Some r)
      /\ (forall m, r <> VerifyFailed m).
Proof.
  intros Hprog Hstop.
  induction k as [|k IH]; intros Pos st HP Hk.
  - exists (Finished st). split; [|discriminate].
    intros [|fuel] Hf; [lia|]. cbn [SplitString_loop].
    replace (Pos =? End) with true by (symmetry; apply Nat.eqb_eq; lia).
    reflexivity.
  - destruct (Nat.eq_dec Pos End) as [->|Hne].
    { exists (Finished st). split; [|discriminate].
      intros [|fuel] Hf; [lia|]. cbn [SplitString_loop].
      now rewrite Nat.eqb_refl. }
    destruct (SkipDelimitersAndComments mem End Pos) as [[P1 e1]|p m] eqn:ES.
    2:{ exists (Raised p m). split; [|discriminate].
        intros [|fuel] Hf; [lia|]. cbn [SplitString_loop].
        replace (Pos =? End) with false by (symmetry; apply Nat.eqb_neq; lia).
        now rewrite ES. }
    apply SkipDelimitersAndComments_bounds in ES as HP1; [|assumption].
    destruct (Handler st Pos P1) as [[[st' P2] c]|p m] eqn:EH.
    2:{ exists (Raised p m). split; [|discriminate].
        intros [|fuel] Hf; [lia|]. cbn [SplitString_loop].
        replace (Pos =? End) with false by (symmetry; apply Nat.eqb_neq; lia).
        now rewrite ES, EH. }
    destruct (Nat.eq_dec P1 End) as [->|Hne1].
    { destruct (Hstop st Pos) as [st'' Hs]. rewrite Hs in EH.
      injection EH as <- <- <-.
      exists (Finished st''). split; [|discriminate].
      intros [|fuel] Hf; [lia|]. cbn [SplitString_loop].
      replace (Pos =? End) with false by (symmetry; apply Nat.eqb_neq; lia).
      now rewrite ES, Hs. }
    destruct (Hprog _ _ _ _ _ _ (proj1 HP1) ltac:(lia) EH) as [HP2 Hc].
    destruct (Nat.eq_dec P2 End) as [->|Hne2].
    { rewrite Nat.eqb_refl in Hc. cbn in Hc. subst c.
      exists (Finished st'). split; [|discriminate].
      intros [|fuel] Hf; [lia|]. cbn [SplitString_loop].
      replace (Pos =? End) with false by (symmetry; apply Nat.eqb_neq; lia).
      now rewrite ES, EH. }
    replace (P2 =? End) with false in Hc
      by (symmetry; apply Nat.eqb_neq; lia).
    cbn in Hc. subst c.
    destruct (IH P2 st' ltac:(lia) ltac:(lia)) as [r [Hr Hv]].
    exists r. split; [|assumption].
    intros [|fuel] Hf; [lia|]. cbn [SplitString_loop].
    replace (Pos =? End) with false by (symmetry; apply Nat.eqb_neq; lia).
    rewrite ES, EH. cbn [negb].
    replace (P2 =? End) with false by (symmetry; apply Nat.eqb_neq; lia).
    replace (P1 =? P2) with false by (symmetry; apply Nat.eqb_neq; lia).
    cbn [orb negb]. apply Hr. lia.
Qed.

(** An invariant of the handler's state, indexed by the position reached
    and bounding it, holds at [End] when the loop returns. *)
Lemma SplitString_loop_invariant (Inv : St -> nat -> Prop) :
  (forall st Pos, Inv st Pos -> Pos <= End) ->
  (forall st DelimStart Pos st' Pos' continue,
      Inv st DelimStart -> DelimStart < End -> DelimStart <= Pos <= End ->
      Handler st DelimStart Pos = Ok (st', Pos', continue) ->
      Inv st' Pos' /\ (continue = false -> Pos' = End)) ->
  forall fuel st Pos st',
    Inv st Pos ->
    SplitString_loop mem End Handler fuel st Pos = Some (Finished st') ->
    Inv st' End.
Proof.
  intros Hbound Hstep. induction fuel as [|fuel IH]; intros st Pos st' HI;
    cbn [SplitString_loop]; [discriminate|].
  pose proof (Hbound _ _ HI) as HP.
  destruct (Pos =? End) eqn:E.
  { apply Nat.eqb_eq in E. subst Pos. now intros [= <-]. }
  apply Nat.eqb_neq in E.
  destruct (SkipDelimitersAndComments mem End Pos) as [[P1 e1]|p m] eqn:ES;
    [|discriminate].
  apply SkipDelimitersAndComments_bounds in ES; [|assumption].
  destruct (Handler st Pos P1) as [[[st1 P2] c]|p m] eqn:EH; [|discriminate].
  destruct (Hstep _ _ _ _ _ _ HI ltac:(lia) ES EH) as [HI2 Hc].
  destruct c; cbn [negb].
  - destruct ((P2 =? End) || negb (P1 =? P2)); [|discriminate].
    now apply (IH st1 P2).
  - intros [= <-]. now rewrite <- (Hc eq_refl).
Qed.

(** The same for an invariant that is kept by the calls on which [C]
    holds, in a run all of whose calls are such. *)
Lemma SplitString_loop_invariant_calls (Inv : St -> nat -> Prop)
      (C : St * nat * nat -> bool) :
  (forall st Pos, Inv st Pos -> Pos <= End) ->
  (forall st DelimStart Pos st' Pos' continue,
      Inv st DelimStart -> DelimStart < End -> DelimStart <= Pos <= End ->
      C (st, DelimStart, Pos) = true ->
      Handler st DelimStart Pos = Ok (st', Pos', continue) ->
      Inv st' Pos' /\ (continue = false -> Pos' = End)) ->
  forall fuel st Pos st',
    Inv st Pos ->
    forallb C (SplitString_calls mem End Handler fuel st Pos) = true ->
    SplitString_loop mem End Handler fuel st Pos = Some (Finished st') ->
    Inv st' End.
Proof.
  intros Hbound Hstep. induction fuel as [|fuel IH]; intros st Pos st' HI;
    cbn [SplitString_loop SplitString_calls]; [discriminate|].
  pose proof (Hbound _ _ HI) as HP.
  destruct (Pos =? End) eqn:E.
  { apply Nat.eqb_eq in E. subst Pos. now intros _ [= <-]. }
  apply Nat.eqb_neq in E.
  destruct (SkipDelimitersAndComments mem End Pos) as [[P1 e1]|p m] eqn:ES;
    [|discriminate].
  apply SkipDelimitersAndComments_bounds in ES; [|assumption].
  cbn [forallb]. intros HC. apply andb_true_iff in HC as [HC1 HC2].
  destruct (Handler st Pos P1) as [[[st1 P2] c]|p m] eqn:EH; [|discriminate].
  destruct (Hstep _ _ _ _ _ _ HI ltac:(lia) ES HC1 EH) as [HI2 Hc].
  destruct c; cbn [negb] in *.
  - destruct ((P2 =? End) || negb (P1 =? P2)); [|discriminate].
    now apply (IH st1 P2).
  - intros [= <-]. now rewrite <- (Hc eq_refl).
Qed.

End SplitStringFacts.

(** ** Progress of the tokenizer *)

Section TokenizeProgress.

Variable mem : nat -> ascii.
Variable SourceEnd : nat.
Variable GetTokenType : list ascii -> TokenType.

Lemma TokenizeHandler_makes_progress :
  makes_progress SourceEnd (TokenizeHandler mem SourceEnd GetTokenType).
Proof.
  intros Tokens DelimStart Pos Tokens' Pos' continue Hd Hp EH.
  pose proof (TokenizeHandler_cases mem SourceEnd GetTokenType
                                    Tokens DelimStart Pos Hd Hp) as HC.
  rewrite EH in HC. inversion HC; subst.
  all: split; [lia | reflexivity].
Qed.

Lemma TokenizeHandler_stops_at_end :
  stops_at_end SourceEnd (TokenizeHandler mem SourceEnd GetTokenType).
Proof.
  intros Tokens DelimStart. unfold TokenizeHandler.
  rewrite Nat.eqb_refl. eexists. reflexivity.
Qed.

End TokenizeProgress.

(** ** Token literals *)

Lemma back_snoc (l : list Token) (t : Token) : back (l ++ [t]) = t.
Proof. unfold back. apply last_last. Qed.

Lemma set_back_snoc (l : list Token) (t t' : Token) :
  set_back (l ++ [t]) t' = l ++ [t'].
Proof. unfold set_back. now rewrite removelast_last. Qed.

Lemma negb_eqb_false (a b : nat) : negb (a =? b) = false -> a = b.
Proof. intros H. apply negb_false_iff in H. now apply Nat.eqb_eq. Qed.

Lemma Forall_LiteralEnd_mono (l : list Token) (a b : nat) :
  a <= b ->
  Forall (fun t => LiteralEnd t <= a) l ->
  Forall (fun t => LiteralEnd t <= b) l.
Proof.
  intros Hab H. eapply Forall_impl; [|exact H]. cbn. intros t Ht. lia.
Qed.

(** Whatever merges with the character at [Pos] has a literal that is not
    empty. *)
Lemma merge_literal_nonempty (mem : nat -> ascii) (t : Token) (Pos : nat) :
  (mem Pos = "=" /\
   In (Literal mem t) (assignment_prefixes ++ comparison_prefixes))
  \/ (In (mem Pos) doubling_chars /\ Literal mem t = [mem Pos]) ->
  LiteralStart t < LiteralEnd t.
Proof.
  intros H. apply (range_nonempty mem). fold (Literal mem t).
  destruct H as [[_ H]|[_ H]].
  - intros E. rewrite E in H. cbn in H.
    repeat (destruct H as [H|H]; [discriminate|]). contradiction.
  - rewrite H. discriminate.
Qed.

Section LiteralsInvariant.

Variable mem : nat -> ascii.
Variable SourceEnd : nat.
Variable GetTokenType : list ascii -> TokenType.

Lemma literals_inv_init : literals_inv mem SourceEnd [EmptyToken] 0.
Proof.
  split; [lia|]. exists []. split; [reflexivity|]. split; [constructor|].
  left. constructor.
Qed.

Lemma literals_inv_step
      (Tokens : list Token) (DelimStart Pos : nat)
      (Tokens' : list Token) (Pos' : nat) (continue : bool) :
  literals_inv mem SourceEnd Tokens DelimStart ->
  DelimStart < SourceEnd -> DelimStart <= Pos <= SourceEnd ->
  TokenizeHandler mem SourceEnd GetTokenType Tokens DelimStart Pos
  = Ok (Tokens', Pos', continue) ->
  literals_inv mem SourceEnd Tokens' Pos'
  /\ (continue = false -> Pos' = SourceEnd).
Proof.
  intros [_ [rest [-> [Hle [Hall|[HE _]]]]]] Hds HP EH; [|lia].
  destruct (Nat.eq_dec Pos SourceEnd) as [->|Hne].
  { unfold TokenizeHandler in EH. rewrite Nat.eqb_refl in EH.
    injection EH as <- <- <-. split; [|reflexivity].
    split; [lia|]. eexists. split; [reflexivity|]. split.
    - apply Forall_app. split.
      + apply (Forall_LiteralEnd_mono rest DelimStart); [lia | assumption].
      + constructor; [cbn; lia | constructor].
    - right. split; [reflexivity|].
      exists rest,
        (CreateToken Undefined DelimStart SourceEnd SourceEnd SourceEnd).
      split; [reflexivity|]. split; [assumption|].
      unfold trailing. cbn. repeat split; lia. }
  pose proof (TokenizeHandler_cases mem SourceEnd GetTokenType
                (EmptyToken :: rest) DelimStart Pos (proj1 HP) ltac:(lia))
    as HC.
  rewrite EH in HC.
  inversion HC as [ | ty Hty Hnil Hd Hm | ty P' HP' Hty | q Hq Hq1 Hq2 ];
    subst.
  - (* merge *)
    split; [|apply negb_eqb_false].
    pose proof (merge_literal_nonempty _ _ _ Hm) as Hlit.
    destruct (exists_last (l := rest)) as [rest' [t ->]].
    { intros ->. cbn in Hlit. lia. }
    rewrite app_comm_cons in *. rewrite back_snoc in *.
    rewrite set_back_snoc.
    apply Forall_app in Hle as [Hle Ht]. apply Forall_app in Hall as [Hall _].
    inversion Ht; subst.
    split; [lia|]. eexists. split; [reflexivity|].
    split.
    + apply Forall_app. split.
      * apply (Forall_LiteralEnd_mono rest' Pos); [lia | assumption].
      * constructor; [cbn; lia | constructor].
    + left. apply Forall_app. split; [assumption|].
      constructor; [|constructor]. left. cbn. lia.
  - (* push *)
    split; [|apply negb_eqb_false].
    split; [lia|]. eexists. split; [reflexivity|].
    split.
    + apply Forall_app. split.
      * apply (Forall_LiteralEnd_mono rest DelimStart); [lia | assumption].
      * constructor; [cbn; lia | constructor].
    + left. apply Forall_app. split; [assumption|].
      constructor; [|constructor]. left. cbn. lia.
  - (* string constant *)
    split; [|exact (negb_eqb_false (S q) SourceEnd)].
    split; [lia|]. eexists. split; [reflexivity|].
    split.
    + apply Forall_app. split.
      * apply (Forall_LiteralEnd_mono rest DelimStart); [lia | assumption].
      * constructor; [cbn; lia | constructor].
    + left. apply Forall_app. split; [assumption|].
      constructor; [|constructor].
      destruct (Nat.eq_dec (S Pos) q) as [<-|Hlt].
      * right. cbn. replace (Pos - 0) with Pos by lia.
        repeat split; try assumption; lia.
      * left. cbn. lia.
Qed.

End LiteralsInvariant.

(** C2, as stated, fails on the input made of one space: the second token of
    the result is not the leading one and its literal is empty. *)
Lemma Tokenize_literals_counterexample :
  exists t,
    TokenizeString no_keywords " " = Some (Tokens_ [EmptyToken; t])
    /\ LiteralStart t = LiteralEnd t
    /\ Literal (buffer " ") t = [].
Proof.
  exists (CreateToken Undefined 0 1 1 1). repeat split; vm_compute; reflexivity.
Qed.

(** C2, amended.  When [Tokenize] returns, the result is the empty leading
    token followed by tokens each of which has a literal that is not empty,
    or is the empty string constant (two adjacent quotes), or is the last
    token and holds the delimiters and comments the input ends with. *)
Theorem Tokenize_literals (mem : nat -> ascii) (SourceEnd : nat)
        (GetTokenType : list ascii -> TokenType)
        (fuel : nat) (Tokens : list Token) :
  Tokenize mem SourceEnd GetTokenType fuel = Some (Tokens_ Tokens) ->
  exists rest,
    Tokens = EmptyToken :: rest
    /\ forall i t,
        nth_error rest i = Some t ->
        has_text mem t
        \/ (trailing SourceEnd t /\ S i = List.length rest).
Proof.
  unfold Tokenize, SplitString.
  destruct (SplitString_loop _ _ _ _ _ _) as [[l|p m|m]|] eqn:ES;
    try discriminate.
  intros [= ->].
  apply (SplitString_loop_invariant mem SourceEnd
           (TokenizeHandler mem SourceEnd GetTokenType)
           (literals_inv mem SourceEnd)) in ES.
  - destruct ES as [_ [rest [-> [_ H]]]]. exists rest.
    split; [reflexivity|]. intros i t Hi.
    destruct H as [Hall|[_ [rest' [t' [-> [Hall Ht]]]]]].
    + left. rewrite Forall_forall in Hall. apply Hall.
      eapply nth_error_In; eassumption.
    + destruct (Nat.lt_ge_cases i (List.length rest')) as [Hlt|Hge].
      * left. rewrite nth_error_app1 in Hi by assumption.
        rewrite Forall_forall in Hall. apply Hall.
        eapply nth_error_In; eassumption.
      * right. rewrite nth_error_app2 in Hi by assumption.
        destruct (i - List.length rest') as [|k] eqn:Ek.
        -- cbn in Hi. injection Hi as <-. split; [assumption|].
           rewrite length_app. cbn. lia.
        -- cbn in Hi. now destruct k.
  - now intros st Pos [H _].
  - apply literals_inv_step.
  - apply literals_inv_init.
Qed.

(** The theorem at the input made of [x], a space, two quotes and a
    space. *)
Lemma Tokenize_literals_witness :
  exists rest,
    [EmptyToken; CreateToken Identifier 0 0 0 1;
     CreateToken StringConstant 1 2 3 3; CreateToken Undefined 4 5 5 5]
    = EmptyToken :: rest
    /\ forall i t,
        nth_error rest i = Some t ->
        has_text (buffer ("x " ++ quoted "" ++ " ")) t
        \/ (trailing 5 t /\ S i = List.length rest).
Proof.
  apply (Tokenize_literals (buffer ("x " ++ quoted "" ++ " ")) 5
                           no_keywords 6).
  vm_compute. reflexivity.
Defined.

(** ** Rebuilding the source *)

Lemma BuildSource_app (mem : nat -> ascii) (a b : list Token) :
  BuildSource mem (a ++ b) = BuildSource mem a ++ BuildSource mem b.
Proof. unfold BuildSource. apply flat_map_app. Qed.

Lemma BuildSource_single (mem : nat -> ascii) (t : Token) :
  BuildSource mem [t] = OutputToken mem t.
Proof. unfold BuildSource. cbn. apply app_nil_r. Qed.

(** A token that tiles the buffer up to [Pos] is written back as exactly
    that part of the buffer. *)
Lemma tiles_output (mem : nat -> ascii) (t : Token) (Pos : nat) :
  tiles mem t Pos ->
  DelimStart t <= Pos
  /\ OutputToken mem t = range mem (DelimStart t) Pos.
Proof.
  intros [Hd [Hl H]]. unfold OutputToken, Delimiter, Literal.
  destruct (is_type (GetType t) StringConstant).
  - destruct H as [Hs [Hq1 [Hq2 ->]]]. split; [lia|].
    rewrite <- Hq1 at 1. rewrite <- Hq2. rewrite Hs.
    rewrite app_assoc. rewrite <- range_snoc by lia.
    rewrite app_assoc. rewrite range_app by lia.
    rewrite <- range_snoc by lia. reflexivity.
  - destruct H as [Hs ->]. split; [lia|]. cbn [app]. rewrite app_nil_r.
    rewrite Hs. apply range_app; lia.
Qed.

(** A merge keeps the number of tokens. *)
Lemma set_back_length (Tokens : list Token) (t : Token) :
  Tokens <> [] -> List.length (set_back Tokens t) = List.length Tokens.
Proof.
  intros H. destruct (exists_last H) as [l [x ->]].
  rewrite set_back_snoc, !length_app. reflexivity.
Qed.

(** What [merges_string] says of a call: the last token is a string
    constant and the handler returns what [ExtendLastToken] makes of it. *)
Lemma merges_string_spec (mem : nat -> ascii) (SourceEnd : nat)
      (GetTokenType : list ascii -> TokenType)
      (Tokens : list Token) (DelimStart_ Pos : nat) :
  DelimStart_ <= Pos <= SourceEnd ->
  (merges_string mem SourceEnd GetTokenType (Tokens, DelimStart_, Pos) = true
   <-> GetType (back Tokens) = StringConstant
       /\ Tokens <> []
       /\ exists ty,
           TokenizeHandler mem SourceEnd GetTokenType Tokens DelimStart_ Pos
           = Ok (ExtendLastToken SourceEnd Tokens ty Pos)).
Proof.
  intros HP. unfold merges_string. rewrite andb_true_iff, is_type_eq. split.
  - intros [Hty Hlen]. split; [assumption|].
    destruct (Nat.eq_dec Pos SourceEnd) as [->|Hne].
    { unfold TokenizeHandler in Hlen. rewrite Nat.eqb_refl in Hlen.
      apply Nat.eqb_eq in Hlen. rewrite length_app in Hlen. cbn in Hlen.
      lia. }
    pose proof (TokenizeHandler_cases mem SourceEnd GetTokenType
                  Tokens DelimStart_ Pos (proj1 HP) ltac:(lia)) as HC.
    destruct HC as [ | ty _ Hnil _ _ | ty P' _ _ | q _ _ _ ].
    + discriminate.
    + split; [assumption|]. now exists ty.
    + apply Nat.eqb_eq in Hlen. rewrite length_app in Hlen. cbn in Hlen.
      lia.
    + apply Nat.eqb_eq in Hlen. rewrite length_app in Hlen. cbn in Hlen.
      lia.
  - intros [Hty [Hnil [ty E]]]. split; [assumption|]. rewrite E.
    unfold ExtendLastToken. cbv beta iota zeta.
    rewrite set_back_length by assumption. apply Nat.eqb_refl.
Qed.

(** On the four characters quote, plus, quote, equals the last call of the
    run merges into the string constant. *)
Lemma no_string_merge_example :
  no_string_merge (buffer (quoted "+" ++ "=")) 4 no_keywords 5 = false
  /\ no_string_merge (buffer (quoted "a" ++ "+" ++ quoted "=")) 7
                     no_keywords 8 = true.
Proof. split; vm_compute; reflexivity. Qed.

Section RebuildInvariant.

Variable mem : nat -> ascii.
Variable SourceEnd : nat.
Variable GetTokenType : list ascii -> TokenType.

Hypothesis classifier : forall s, GetTokenType s <> StringConstant.

Lemma rebuild_inv_init : rebuild_inv mem SourceEnd [EmptyToken] 0.
Proof.
  split; [lia|]. exists [], EmptyToken. split; [reflexivity|].
  split; [reflexivity|]. unfold tiles. cbn.
  change (is_type Undefined StringConstant) with false. cbv iota. lia.
Qed.

(** Pushing a token whose delimiters start at the position reached so far
    keeps the invariant. *)
Lemma rebuild_inv_push (Tokens : list Token) (Pos Pos' : nat) (t : Token) :
  rebuild_inv mem SourceEnd Tokens Pos ->
  DelimStart t = Pos ->
  tiles mem t Pos' -> Pos' <= SourceEnd ->
  rebuild_inv mem SourceEnd (Tokens ++ [t]) Pos'.
Proof.
  intros [_ [init [t0 [-> [Hinit Ht0]]]]] Hds Ht HP'.
  split; [assumption|]. exists (init ++ [t0]), t.
  split; [reflexivity|]. split; [|assumption].
  rewrite BuildSource_app, BuildSource_single, Hinit, Hds.
  apply tiles_output in Ht0 as [Hle ->]. apply range_app; lia.
Qed.

Lemma rebuild_inv_step
      (Tokens : list Token) (DelimStart_ Pos : nat)
      (Tokens' : list Token) (Pos' : nat) (continue : bool) :
  rebuild_inv mem SourceEnd Tokens DelimStart_ ->
  DelimStart_ < SourceEnd -> DelimStart_ <= Pos <= SourceEnd ->
  negb (merges_string mem SourceEnd GetTokenType (Tokens, DelimStart_, Pos))
  = true ->
  TokenizeHandler mem SourceEnd GetTokenType Tokens DelimStart_ Pos
  = Ok (Tokens', Pos', continue) ->
  rebuild_inv mem SourceEnd Tokens' Pos'
  /\ (continue = false -> Pos' = SourceEnd).
Proof.
  intros HI Hds HP Hnm EH.
  destruct (Nat.eq_dec Pos SourceEnd) as [->|Hne].
  { unfold TokenizeHandler in EH. rewrite Nat.eqb_refl in EH.
    injection EH as <- <- <-. split; [|reflexivity].
    apply (rebuild_inv_push Tokens DelimStart_); try assumption;
      [reflexivity | | lia].
    unfold tiles. cbn.
    change (is_type Undefined StringConstant) with false. cbv iota. lia. }
  pose proof (TokenizeHandler_cases mem SourceEnd GetTokenType
                Tokens DelimStart_ Pos (proj1 HP) ltac:(lia)) as HC.
  rewrite EH in HC.
  inversion HC as [ | ty Hty Hnil Hd Hm | ty P' HP' Hty | q Hq Hq1 Hq2 ];
    subst.
  - (* merge *)
    split; [|apply negb_eqb_false].
    destruct HI as [_ [init [t [-> [Hinit Ht]]]]].
    rewrite back_snoc in *. rewrite set_back_snoc.
    assert (Hns : is_type (GetType t) StringConstant = false).
    { apply negb_true_iff in Hnm. unfold merges_string in Hnm.
      rewrite EH in Hnm. unfold ExtendLastToken in Hnm.
      cbv beta iota zeta in Hnm. rewrite ?back_snoc in Hnm.
      rewrite set_back_length in Hnm by assumption.
      rewrite Nat.eqb_refl, andb_true_r in Hnm. exact Hnm. }
    split; [lia|]. eexists init, _. split; [reflexivity|].
    split; [exact Hinit|].
    destruct Ht as [Hd [Hl H]]. rewrite Hns in H.
    unfold tiles. cbn.
    apply is_type_neq in Hty. rewrite Hty. lia.
  - (* push *)
    split; [|apply negb_eqb_false].
    apply (rebuild_inv_push Tokens DelimStart_); try assumption;
      [reflexivity | | lia].
    unfold tiles. cbn.
    replace (is_type ty StringConstant) with false; [lia|].
    symmetry. apply is_type_neq. intros E.
    destruct (Hty E) as [s Hs]. now apply (classifier s).
  - (* string constant *)
    split; [|exact (negb_eqb_false (S q) SourceEnd)].
    apply (rebuild_inv_push Tokens DelimStart_); try assumption;
      [reflexivity | | lia].
    unfold tiles. cbn.
    change (is_type StringConstant StringConstant) with true. cbv iota.
    repeat split; try assumption; lia.
Qed.

End RebuildInvariant.

(** C1, as stated, fails on the four characters quote, plus, quote, equals:
    the [=] merges with the string constant before it, the token becomes an
    assignment whose literal starts after the opening quote, and the rebuilt
    text has lost that quote.  It also fails when the classifier answers
    [StringConstant] for an identifier: the rebuilt text has quotes around
    it. *)
Lemma BuildSource_Tokenize_counterexample :
  (exists Tokens,
      TokenizeString no_keywords (quoted "+" ++ "=")
      = Some (Tokens_ Tokens)
      /\ BuildSource (buffer (quoted "+" ++ "=")) Tokens
         <> text (quoted "+" ++ "="))
  /\ (exists Tokens,
         TokenizeString all_strings "a" = Some (Tokens_ Tokens)
         /\ BuildSource (buffer "a") Tokens <> text "a").
Proof.
  split; eexists; (split; [vm_compute; reflexivity|]); vm_compute;
    discriminate.
Qed.

(** C1, amended.  Round trip: when the classifier never answers
    [StringConstant] and no call of the handler, in the run, merges a
    character into a token that is a string constant, [BuildSource] applied
    to the tokens [Tokenize] returns is the original text. *)
Theorem BuildSource_Tokenize (mem : nat -> ascii) (SourceEnd : nat)
        (GetTokenType : list ascii -> TokenType)
        (fuel : nat) (Tokens : list Token) :
  (forall s, GetTokenType s <> StringConstant) ->
  no_string_merge mem SourceEnd GetTokenType fuel = true ->
  Tokenize mem SourceEnd GetTokenType fuel = Some (Tokens_ Tokens) ->
  BuildSource mem Tokens = range mem 0 SourceEnd.
Proof.
  intros Hcls Hq. unfold Tokenize, SplitString.
  destruct (SplitString_loop _ _ _ _ _ _) as [[l|p m|m]|] eqn:ES;
    try discriminate.
  intros [= ->].
  apply (SplitString_loop_invariant_calls mem SourceEnd
           (TokenizeHandler mem SourceEnd GetTokenType)
           (rebuild_inv mem SourceEnd)
           (fun call =>
              negb (merges_string mem SourceEnd GetTokenType call))) in ES.
  - destruct ES as [_ [init [t [-> [Hinit Ht]]]]].
    rewrite BuildSource_app, BuildSource_single, Hinit.
    apply tiles_output in Ht as [Hle ->]. apply range_app; lia.
  - now intros st Pos [H _].
  - intros. eapply rebuild_inv_step; eassumption.
  - apply rebuild_inv_init.
  - exact Hq.
Qed.

(** The theorem at a text where quoted operators stand next to what would
    merge with them, and no string constant is merged: inside a comment,
    and between the closing quote of one string constant and the opening
    quote of the next. *)
Lemma BuildSource_Tokenize_witness :
  exists Tokens,
    TokenizeString no_keywords
      ("/*" ++ quoted "+" ++ "=*/ k += " ++ quoted "a" ++ "+" ++ quoted "="
            ++ "+v; ")
    = Some (Tokens_ Tokens)
    /\ BuildSource
         (buffer ("/*" ++ quoted "+" ++ "=*/ k += " ++ quoted "a" ++ "+"
                       ++ quoted "=" ++ "+v; "))
         Tokens
       = text ("/*" ++ quoted "+" ++ "=*/ k += " ++ quoted "a" ++ "+"
                    ++ quoted "=" ++ "+v; ").
Proof.
  eexists. split; [vm_compute; reflexivity|].
  apply (BuildSource_Tokenize
           (buffer ("/*" ++ quoted "+" ++ "=*/ k += " ++ quoted "a" ++ "+"
                         ++ quoted "=" ++ "+v; "))
           25 no_keywords 26).
  - discriminate.
  - vm_compute. reflexivity.
  - vm_compute. reflexivity.
Defined.

(** ** The float recognizer on the leading decimal point *)

(** C3, as stated, fails: on both inputs the position moves. *)
Lemma SkipFloatNumber_leading_point_counterexample :
  value (SkipFloatNumber (buffer ".5") 2 0) <> 0
  /\ value (SkipFloatNumber (buffer "+.5") 3 0) <> 0.
Proof. split; vm_compute; discriminate. Qed.

(** C3, amended.  On the inputs [.5] and [+.5] the recognizer consumes the
    whole input: a decimal point followed by digits is a number without an
    integer part.  It is the decimal point with no digit on either side
    ([.], [+.], [-.]) that consumes nothing, while [0.], [+0.] and [-0.] are
    consumed whole. *)
Theorem SkipFloatNumber_leading_point :
  (value (SkipFloatNumber (buffer ".5") 2 0) = 2
   /\ consumed ".5" = text ".5")
  /\ (value (SkipFloatNumber (buffer "+.5") 3 0) = 3
      /\ consumed "+.5" = text "+.5")
  /\ (consumed "." = [] /\ consumed "+." = [] /\ consumed "-." = [])
  /\ (consumed "0." = text "0." /\ consumed "+0." = text "+0."
      /\ consumed "-0." = text "-0.").
Proof. repeat split. Qed.

(** ** The reads of the float recognizer *)

(** C9 fails on the code.  The buffer holds [0] at offset 0 and [End] is 1;
    what lies at offset 1 is past the end (here a [7], not a terminator).
    The scan dereferences offset 1: the leading-zero test reads [c[1]]
    without comparing [c + 1] with [End]. *)
Theorem SkipFloatNumber_reads_at_End :
  In 1 (reads (SkipFloatNumber (buffer "07") 1 0))
  /\ ~ Forall (fun p => p < 1) (reads (SkipFloatNumber (buffer "07") 1 0))
  /\ value (SkipFloatNumber (buffer "07") 1 0) = 1.
Proof.
  split; [|split].
  - vm_compute. tauto.
  - intros H. rewrite Forall_forall in H.
    assert (Hin : In 1 (reads (SkipFloatNumber (buffer "07") 1 0)))
      by (vm_compute; tauto).
    apply H in Hin. lia.
  - reflexivity.
Qed.

(** ** Unterminated comments *)

Section UnterminatedComment.

Variable mem : nat -> ascii.
Variable End : nat.

Lemma FindCommentEnd_unterminated (n p : nat) :
  p <= End -> no_closer_from mem End p ->
  FindCommentEnd mem End n p = None.
Proof.
  revert p. induction n as [|n IH]; intros p Hp Hno; cbn [FindCommentEnd];
    [reflexivity|].
  unfold at_end.
  destruct (p =? End) eqn:E1; cbn [orb]; [reflexivity|].
  apply Nat.eqb_neq in E1.
  destruct (is_char (mem p) NUL); [reflexivity|].
  destruct (is_char (mem p) "*") eqn:Estar.
  - destruct (S p =? End) eqn:E2; cbn [orb]; [reflexivity|].
    apply Nat.eqb_neq in E2.
    destruct (is_char (mem (S p)) NUL); [reflexivity|].
    destruct (is_char (mem (S p)) "/") eqn:Eslash.
    + exfalso. apply (Hno p); [lia | lia |].
      split; now apply is_char_eq.
    + apply IH; [lia|]. intros i Hi. apply Hno. lia.
  - apply IH; [lia|]. intros i Hi. apply Hno. lia.
Qed.

End UnterminatedComment.

(** C5.  When [Pos] is at the opening slash-star of a multi-line comment and
    no closing star-slash follows before the end of the input,
    [SkipComment] throws the pair made of [Pos] itself, the position of the
    opening slash, and the message about the end of the multi-line
    comment. *)
Theorem SkipComment_unterminated (mem : nat -> ascii) (End Pos : nat) :
  S Pos < End ->
  mem Pos = "/" ->
  mem (S Pos) = "*" ->
  no_closer_from mem End (S (S Pos)) ->
  SkipComment mem End Pos
  = Throw Pos "Unable to find the end of the multiline comment."%string.
Proof.
  intros HP Hslash Hstar Hno. unfold SkipComment, at_end.
  replace (Pos =? End) with false by (symmetry; apply Nat.eqb_neq; lia).
  replace (Pos + 1) with (S Pos) by lia.
  replace (S Pos =? End) with false by (symmetry; apply Nat.eqb_neq; lia).
  rewrite Hslash, Hstar. cbn [orb].
  change (is_char "/" NUL) with false. change (is_char "/" "/") with true.
  change (is_char "*" NUL) with false. change (is_char "*" "/") with false.
  change (is_char "*" "*") with true. cbn [negb].
  rewrite FindCommentEnd_unterminated; [reflexivity | lia | assumption].
Qed.

(** The theorem at the input slash, star, space, [a]. *)
Lemma SkipComment_unterminated_witness :
  SkipComment (buffer "/* a") 4 0
  = Throw 0 "Unable to find the end of the multiline comment."%string.
Proof.
  apply SkipComment_unterminated.
  - lia.
  - reflexivity.
  - reflexivity.
  - intros i Hi Hlt [H1 H2].
    assert (i = 2) as -> by lia. vm_compute in H1. discriminate.
Defined.

(** ** The exponent of a float literal *)

Lemma IsNum_not_exp (c : ascii) : IsNum c = true -> is_exp c = false.
Proof.
  destruct c as [[] [] [] [] [] [] [] []]; vm_compute; congruence.
Qed.

Lemma is_sign_not_exp (c : ascii) : is_sign c = true -> is_exp c = false.
Proof.
  destruct c as [[] [] [] [] [] [] [] []]; vm_compute; congruence.
Qed.

Lemma suffix_not_exp (c : ascii) :
  is_char c "f" || is_char c "F" = true -> is_exp c = false.
Proof.
  destruct c as [[] [] [] [] [] [] [] []]; vm_compute; congruence.
Qed.

Lemma point_not_exp (c : ascii) : is_char c "." = true -> is_exp c = false.
Proof.
  destruct c as [[] [] [] [] [] [] [] []]; vm_compute; congruence.
Qed.

Section FloatExponentFacts.

Variable mem : nat -> ascii.
Variable End : nat.

(** The digit loop, with a countdown that is long enough: what it skips are
    digits, and it skips the digit it starts on. *)
Lemma SkipDigits_spec (n c Pos : nat) :
  c <= End -> End - c <= n ->
  forall c' Pos', value (SkipDigits mem End n c Pos) = (c', Pos') ->
  c <= c' <= End
  /\ ((c' = c /\ Pos' = Pos) \/ (c < c' /\ Pos' = c'))
  /\ (forall k, c <= k < c' -> IsNum (mem k) = true)
  /\ (c < End -> IsNum (mem c) = true -> c < c').
Proof.
  revert c Pos. induction n as [|n IH]; intros c Pos Hc Hn c' Pos';
    cbn [SkipDigits].
  - intros [= <- <-]. repeat split; lia.
  - destruct (c =? End) eqn:E.
    + intros [= <- <-]. apply Nat.eqb_eq in E. repeat split; lia.
    + apply Nat.eqb_neq in E. traced.
      destruct (IsNum (mem c)) eqn:Ed.
      * intros Hr. apply IH in Hr; [|lia|lia].
        destruct Hr as [H1 [H2 [H3 H4]]].
        repeat split; try lia.
        intros k Hk. destruct (Nat.eq_dec k c) as [->|Hne]; [assumption|].
        apply H3. lia.
      * intros [= <- <-]. repeat split; try lia; congruence.
Qed.

Lemma FloatSuffix_exp (P : nat -> Prop) (hd he : bool) (Start c Pos : nat) :
  Pos <= c ->
  (forall k, Start <= k < c -> is_exp (mem k) = true -> P k) ->
  forall k,
    Start <= k < value (FloatSuffix mem End hd he Start c Pos) ->
    is_exp (mem k) = true -> P k.
Proof.
  intros HP Hbefore k. unfold FloatSuffix.
  destruct ((hd || he) && negb (c =? End) && (Start <? Pos));
    [|cbn; intros Hk; apply Hbefore; lia].
  traced. destruct (is_char (mem c) "f" || is_char (mem c) "F") eqn:Ef;
    cbn; intros Hk He; [|apply Hbefore; [lia | assumption]].
  destruct (Nat.eq_dec k c) as [->|Hne].
  - apply suffix_not_exp in Ef. congruence.
  - apply Hbefore; [lia | assumption].
Qed.

Lemma FloatExponent_exp (hi hd : bool) (Start c Pos : nat) :
  Pos <= c -> c < End ->
  (hi = true -> has_integer_part mem Start) ->
  (forall k, Start <= k < c -> is_exp (mem k) = false) ->
  forall k,
    Start <= k < value (FloatExponent mem End hi hd Start c Pos) ->
    is_exp (mem k) = true ->
    exponent_ok mem Start
                (value (FloatExponent mem End hi hd Start c Pos)) k.
Proof.
  intros HP Hc Hint Hno k.
  assert (Hvac : forall r, r <= c -> Start <= k < r ->
                           is_exp (mem k) = true ->
                           exponent_ok mem Start r k).
  { intros r Hr Hk He. rewrite Hno in He by lia. discriminate. }
  unfold FloatExponent. traced. fold (is_exp (mem c)).
  destruct (is_exp (mem c)) eqn:Ee.
  2:{ intros Hk He. exfalso. clear Hvac. revert k Hk He.
      apply (FloatSuffix_exp (fun _ => False) hd false Start c Pos HP).
      intros k Hk He. rewrite Hno in He by lia. discriminate. }
  destruct hi; cbn [negb]; [|cbn; now apply Hvac].
  destruct (S c =? End) eqn:E1; [cbn; now apply Hvac|].
  apply Nat.eqb_neq in E1. traced.
  destruct (is_char (mem (S c)) "+") eqn:Eplus;
    destruct (is_char (mem (S c)) "-") eqn:Eminus; cbn [negb andb];
    try (cbn; now apply Hvac).
  all: destruct (S (S c) =? End) eqn:E2; [cbn; now apply Hvac|].
  all: apply Nat.eqb_neq in E2; traced.
  all: destruct (IsNum (mem (S (S c)))) eqn:Ed; cbn [negb];
    [|cbn; now apply Hvac].
  all: traced.
  all: destruct (value (SkipDigits mem End (End - S (S c)) (S (S c)) Pos))
    as [c' Pos'] eqn:ED.
  all: apply SkipDigits_spec in ED as [H1 [H2 [H3 H4]]]; [|lia|lia].
  all: cbn [fst snd].
  all: specialize (H4 ltac:(lia) Ed).
  all: assert (Pos' = c') as -> by lia.
  all: pose proof (FloatSuffix_bounds mem End hd true Start c' c'
                                      ltac:(lia)) as Hb.
  all: intros Hk He.
  all: assert (Hsign : is_sign (mem (S c)) = true)
    by (unfold is_sign; rewrite Eplus, Eminus; reflexivity).
  all: assert (HP' : has_integer_part mem Start /\
                     is_sign (mem (S k)) = true /\
                     IsNum (mem (S (S k))) = true /\ S (S k) < c').
  all: try (clear Hvac; revert k Hk He;
            apply (FloatSuffix_exp _ hd true Start c' c'); [lia|];
            intros k Hk He;
            destruct (Nat.lt_ge_cases k c) as [Hlt|Hge];
            [rewrite Hno in He by lia; discriminate|];
            destruct (Nat.eq_dec k c) as [->|Hne];
            [repeat split; auto; lia|];
            destruct (Nat.eq_dec k (S c)) as [->|Hne1];
            [apply is_sign_not_exp in Hsign; congruence|];
            rewrite (IsNum_not_exp (mem k)) in He;
            [discriminate | apply H3; lia]).
  all: destruct HP' as [Ha [Hb' [Hc' Hd']]]; repeat split; auto; lia.
Qed.

Lemma FloatDecimal_exp (hi : bool) (Start c Pos : nat) :
  Pos <= c -> c < End ->
  (hi = true -> has_integer_part mem Start) ->
  (forall k, Start <= k < c -> is_exp (mem k) = false) ->
  forall k,
    Start <= k < value (FloatDecimal mem End hi Start c Pos) ->
    is_exp (mem k) = true ->
    exponent_ok mem Start (value (FloatDecimal mem End hi Start c Pos)) k.
Proof.
  intros HP Hc Hint Hno k. unfold FloatDecimal. traced.
  destruct (is_char (mem c) ".") eqn:Ep;
    [|now apply FloatExponent_exp].
  traced.
  destruct (value (SkipDigits mem End (End - S c) (S c)
                              (if hi then S c else Pos)))
    as [c' Pos'] eqn:ED.
  apply SkipDigits_spec in ED as [H1 [H2 [H3 H4]]]; [|lia|lia].
  cbn [fst snd]. rewrite value_CHECK_END.
  assert (Hno' : forall k, Start <= k < c' -> is_exp (mem k) = false).
  { intros j Hj. destruct (Nat.lt_ge_cases j c) as [Hlt|Hge];
      [apply Hno; lia|].
    destruct (Nat.eq_dec j c) as [->|Hne]; [now apply point_not_exp|].
    apply IsNum_not_exp. apply H3. lia. }
  assert (HP' : Pos' <= c') by (destruct hi; lia).
  unfold at_end. destruct (c' =? End) eqn:E; cbn [orb].
  { intros Hk He. rewrite Hno' in He by lia. discriminate. }
  apply Nat.eqb_neq in E.
  destruct (is_char (mem c') NUL).
  { intros Hk He. rewrite Hno' in He by lia. discriminate. }
  apply FloatExponent_exp; try assumption. lia.
Qed.

Lemma FloatInteger_exp (Start c Pos : nat) :
  Pos <= c -> c < End ->
  (IsNum (mem c) = true -> has_integer_part mem Start) ->
  (forall k, Start <= k < c -> is_exp (mem k) = false) ->
  forall k,
    Start <= k < value (FloatInteger mem End Start c Pos) ->
    is_exp (mem k) = true ->
    exponent_ok mem Start (value (FloatInteger mem End Start c Pos)) k.
Proof.
  intros HP Hc Hint Hno k. unfold FloatInteger. traced.
  destruct (IsNum (mem c)) eqn:Ed;
    [|apply FloatDecimal_exp; try assumption; try discriminate].
  traced.
  destruct (value (SkipDigits mem End (End - c) c Pos)) as [c' Pos'] eqn:ED.
  apply SkipDigits_spec in ED as [H1 [H2 [H3 H4]]]; [|lia|lia].
  cbn [fst snd]. rewrite value_CHECK_END.
  assert (Hno' : forall k, Start <= k < c' -> is_exp (mem k) = false).
  { intros j Hj. destruct (Nat.lt_ge_cases j c) as [Hlt|Hge];
      [apply Hno; lia|].
    apply IsNum_not_exp. apply H3. lia. }
  unfold at_end. destruct (c' =? End) eqn:E; cbn [orb].
  { intros Hk He. rewrite Hno' in He by lia. discriminate. }
  apply Nat.eqb_neq in E.
  destruct (is_char (mem c') NUL).
  { intros Hk He. rewrite Hno' in He by lia. discriminate. }
  apply FloatDecimal_exp; try assumption; lia.
Qed.

(** Every exponent character inside the span the recognizer consumes comes
    after an integer part and is followed by a sign and a digit that are
    consumed too. *)
Lemma SkipFloatNumber_exp (Pos k : nat) :
  Pos <= End ->
  Pos <= k < value (SkipFloatNumber mem End Pos) ->
  is_exp (mem k) = true ->
  exponent_ok mem Pos (value (SkipFloatNumber mem End Pos)) k.
Proof.
  intros HP. unfold SkipFloatNumber. cbv zeta. rewrite value_CHECK_END.
  unfold at_end. destruct (Pos =? End) eqn:E; cbn [orb]; [lia|].
  apply Nat.eqb_neq in E.
  destruct (is_char (mem Pos) NUL); [lia|]. traced.
  fold (is_sign (mem Pos)).
  assert (Hint : IsNum (mem (if is_sign (mem Pos) then S Pos else Pos)) = true
                 -> has_integer_part mem Pos) by (intros H; exact H).
  assert (Hno : forall j, Pos <= j <
                          (if is_sign (mem Pos) then S Pos else Pos) ->
                          is_exp (mem j) = false).
  { intros j Hj. destruct (is_sign (mem Pos)) eqn:Es; [|lia].
    assert (j = Pos) as -> by lia. now apply is_sign_not_exp. }
  set (c := if is_sign (mem Pos) then S Pos else Pos) in *.
  assert (Hc : Pos <= c <= End) by (subst c; destruct (is_sign _); lia).
  rewrite value_CHECK_END.
  unfold at_end. destruct (c =? End) eqn:E2; cbn [orb]; [lia|].
  apply Nat.eqb_neq in E2.
  destruct (is_char (mem c) NUL); [lia|]. traced.
  destruct (is_char (mem c) "0") eqn:Ez.
  - traced. destruct (IsNum (mem (c + 1))).
    + cbn. intros Hk He. exfalso.
      destruct (Nat.eq_dec k c) as [->|Hne].
      * apply is_char_eq in Ez. rewrite Ez in He. vm_compute in He.
        discriminate.
      * rewrite Hno in He by lia. discriminate.
    + apply FloatInteger_exp; try assumption; lia.
  - cbn [value tret fst]. apply FloatInteger_exp; try assumption; lia.
Qed.

End FloatExponentFacts.

(** C7.  An exponent is consumed only when it follows an integer part and
    is followed by an explicit sign and at least one digit: every [e] or [E]
    inside the consumed span is such.  On the input [1e+3] the whole literal
    is consumed; on [1e3] only the leading [1] is, and the position is left
    at offset 1, before the [e]. *)
Theorem SkipFloatNumber_exponent :
  (forall mem End Pos k,
      Pos <= End ->
      Pos <= k < value (SkipFloatNumber mem End Pos) ->
      mem k = "e" \/ mem k = "E" ->
      exponent_ok mem Pos (value (SkipFloatNumber mem End Pos)) k)
  /\ (consumed "1e+3" = text "1e+3"
      /\ value (SkipFloatNumber (buffer "1e+3") 4 0) = 4)
  /\ (consumed "1e3" = text "1"
      /\ value (SkipFloatNumber (buffer "1e3") 3 0) = 1
      /\ buffer "1e3" 1 = "e").
Proof.
  split; [|repeat split].
  intros mem End Pos k HP Hk He. apply SkipFloatNumber_exp; try assumption.
  unfold is_exp. destruct He as [-> | ->]; reflexivity.
Qed.

(** The general part at the input [1e+3], for the [e] at offset 1. *)
Lemma SkipFloatNumber_exponent_witness :
  exponent_ok (buffer "1e+3") 0
              (value (SkipFloatNumber (buffer "1e+3") 4 0)) 1.
Proof.
  apply (proj1 SkipFloatNumber_exponent (buffer "1e+3") 4 0 1).
  - lia.
  - vm_compute. lia.
  - left. reflexivity.
Defined.

(** ** Compound assignment *)

(** C4.  When [=] is scanned with no delimiter before it and the literal of
    the last token is a compound-assignment prefix, the handler widens that
    token by one character and makes it an [Assignment]; no token is
    pushed.  With a classifier that takes [a] for a plain identifier, the
    input [a += 1] gives, after the leading empty token, the identifier [a],
    the assignment [+=] and the numeric constant [1]. *)
Theorem Tokenize_compound_assignment :
  (forall mem SourceEnd GetTokenType Tokens Pos,
      Pos < SourceEnd ->
      mem Pos = "=" ->
      Tokens <> [] ->
      In (Literal mem (back Tokens)) assignment_prefixes ->
      TokenizeHandler mem SourceEnd GetTokenType Tokens Pos Pos
      = Ok (set_back Tokens
                     (CreateToken Assignment
                                  (DelimStart (back Tokens))
                                  (DelimEnd (back Tokens))
                                  (LiteralStart (back Tokens))
                                  (Pos + 1)),
            Pos + 1, negb (Pos + 1 =? SourceEnd)))
  /\ (forall GetTokenType,
         GetTokenType (text "a") = Undefined
         \/ GetTokenType (text "a") = Identifier ->
         exists Tokens,
           Tokenize (buffer "a += 1") 6 GetTokenType 7 = Some (Tokens_ Tokens)
           /\ Tokens = [EmptyToken;
                        CreateToken Identifier 0 0 0 1;
                        CreateToken Assignment 1 2 2 4;
                        CreateToken NumericConstant 4 5 5 6]
           /\ view (buffer "a += 1") Tokens
              = [(Undefined, ""); (Identifier, "a"); (Assignment, "+=");
                 (NumericConstant, "1")]%string).
Proof.
  split.
  - intros mem SourceEnd GetTokenType Tokens Pos HP Heq Hne Hin.
    unfold TokenizeHandler. cbv zeta.
    replace (Pos =? SourceEnd) with false
      by (symmetry; apply Nat.eqb_neq; lia).
    rewrite Heq. change (is_char "=" "#") with false.
    change (is_char "=" "=") with true. cbv iota.
    rewrite Nat.eqb_refl.
    replace (empty Tokens) with false
      by (destruct Tokens; [congruence | reflexivity]).
    cbn [negb andb].
    replace (existsb (CompareLiteral mem (back Tokens)) assignment_prefixes)
      with true; [reflexivity|].
    symmetry. apply existsb_exists. eexists. split; [exact Hin|].
    now apply text_eqb_eq.
  - intros GetTokenType H. eexists. split; [|split; [reflexivity|]].
    + assert (Hfirst :
                TokenizeHandler (buffer "a += 1") 6 GetTokenType
                                [EmptyToken] 0 0
                = Ok ([EmptyToken; CreateToken Identifier 0 0 0 1], 1, true)).
      { unfold TokenizeHandler. lazy -[is_type]. vm_compute in H.
        destruct H as [H|H]; rewrite H; reflexivity. }
      unfold Tokenize, SplitString.
      change 7 with (S 6). cbn [SplitString_loop].
      change (0 =? 6) with false. cbv iota.
      replace (SkipDelimitersAndComments (buffer "a += 1") 6 0)
        with (@Ok (nat * bool) (0, false)) by (vm_compute; reflexivity).
      rewrite Hfirst. vm_compute. reflexivity.
    + vm_compute. reflexivity.
Qed.

(** The theorem with the classifier that knows no keyword. *)
Lemma Tokenize_compound_assignment_witness :
  exists Tokens,
    Tokenize (buffer "a += 1") 6 no_keywords 7 = Some (Tokens_ Tokens)
    /\ Tokens = [EmptyToken;
                 CreateToken Identifier 0 0 0 1;
                 CreateToken Assignment 1 2 2 4;
                 CreateToken NumericConstant 4 5 5 6]
    /\ view (buffer "a += 1") Tokens
       = [(Undefined, ""); (Identifier, "a"); (Assignment, "+=");
          (NumericConstant, "1")]%string.
Proof.
  apply (proj2 Tokenize_compound_assignment no_keywords).
  left. reflexivity.
Defined.

(** ** FindFunction *)

(** C10.  With the null pointer or the empty string for a name,
    [FindFunction] returns the end iterator, having logged that the name
    must not be null; the answer is the same whatever the tokens and the
    buffer are, none of them is looked at. *)
Theorem FindFunction_null_name :
  forall mem Tokens Start End,
    FindFunction mem Tokens Start End None = (End, [name_is_null])
    /\ FindFunction mem Tokens Start End (Some []) = (End, [name_is_null])
    /\ forall mem' Tokens',
        FindFunction mem' Tokens' Start End None
        = FindFunction mem Tokens Start End None
        /\ FindFunction mem' Tokens' Start End (Some [])
           = FindFunction mem Tokens Start End (Some []).
Proof. intros. repeat split. Qed.

(** ** Unbalanced brackets *)

Section FindFunctionFacts.

Variable mem : nat -> ascii.
Variable Tokens : list Token.
Variable Start End : nat.
Variable Name : list ascii.

Lemma depth_next (Tok : nat) :
  Start <= Tok ->
  depth Tokens Start (S Tok - Start)
  = (depth Tokens Start (Tok - Start)
     + bracket_delta (GetType (at_ Tokens Tok)))%Z.
Proof.
  intros H. replace (S Tok - Start) with (S (Tok - Start)) by lia.
  cbn [depth]. now replace (Start + (Tok - Start)) with Tok by lia.
Qed.

(** The scan from a token at or before [k], at the running depth, when the
    depth is negative after token [k] and nothing is found up to [k]. *)
Lemma FindFunction_loop_unbalanced (k : nat) :
  k < End ->
  (depth Tokens Start (S k - Start) < 0)%Z ->
  (forall j, Start <= j <= k ->
             found_at mem Tokens Start End Name j = false) ->
  forall n Tok,
    Start <= Tok <= k -> End - Tok <= n ->
    (0 <= depth Tokens Start (Tok - Start))%Z ->
    FindFunction_loop mem Tokens Start End Name n Tok
                      (depth Tokens Start (Tok - Start))
    = (End, [brackets_not_balanced]).
Proof.
  intros Hk Hneg Hnot. induction n as [|n IH]; intros Tok HT Hn Hd; [lia|].
  cbn [FindFunction_loop].
  replace (Tok =? End) with false by (symmetry; apply Nat.eqb_neq; lia).
  pose proof (depth_next Tok (proj1 HT)) as Hnext.
  pose proof (Hnot Tok ltac:(lia)) as Hfound. unfold found_at in Hfound.
  assert (Hgo : forall d,
             depth Tokens Start (S Tok - Start) = d -> (0 <= d)%Z ->
             FindFunction_loop mem Tokens Start End Name n (S Tok) d
             = (End, [brackets_not_balanced])).
  { intros d <- Hd'. destruct (Nat.eq_dec Tok k) as [->|Hne]; [lia|].
    apply IH; [lia | lia | assumption]. }
  destruct (GetType (at_ Tokens Tok)) eqn:Ety; cbn [bracket_delta] in Hnext;
    try (apply Hgo; [rewrite Hnext; lia | lia]).
  - (* Identifier *)
    change (is_type Identifier Identifier) with true in Hfound.
    cbn [andb] in Hfound. rewrite Hfound.
    apply Hgo; [rewrite Hnext; lia | lia].
  - (* ClosingParen *)
    destruct (depth Tokens Start (Tok - Start) - 1 <? 0)%Z eqn:E;
      [reflexivity|]. apply Z.ltb_ge in E.
    apply Hgo; [rewrite Hnext; lia | lia].
  - (* ClosingBrace *)
    destruct (depth Tokens Start (Tok - Start) - 1 <? 0)%Z eqn:E;
      [reflexivity|]. apply Z.ltb_ge in E.
    apply Hgo; [rewrite Hnext; lia | lia].
  - (* ClosingSquareBracket *)
    destruct (depth Tokens Start (Tok - Start) - 1 <? 0)%Z eqn:E;
      [reflexivity|]. apply Z.ltb_ge in E.
    apply Hgo; [rewrite Hnext; lia | lia].
  - (* ClosingAngleBracket *)
    destruct (depth Tokens Start (Tok - Start) - 1 <? 0)%Z eqn:E;
      [reflexivity|]. apply Z.ltb_ge in E.
    apply Hgo; [rewrite Hnext; lia | lia].
Qed.

End FindFunctionFacts.

(** C6, as stated, fails on the tokens of the text [int foo( { ]: no bracket
    is ever closed there, the depth never gets negative and nothing is
    reported; the name [foo] is found (token 2), another name is not found
    and nothing is logged either. *)
Lemma FindFunction_unbalanced_counterexample :
  exists Tokens,
    TokenizeString no_keywords "int foo( { " = Some (Tokens_ Tokens)
    /\ FindFunction (buffer "int foo( { ") Tokens 0 (List.length Tokens)
                    (Some (text "foo")) = (2, [])
    /\ 2 <> List.length Tokens
    /\ FindFunction (buffer "int foo( { ") Tokens 0 (List.length Tokens)
                    (Some (text "bar")) = (List.length Tokens, []).
Proof.
  eexists. split; [vm_compute; reflexivity|].
  split; [vm_compute; reflexivity|].
  split; [vm_compute; discriminate | vm_compute; reflexivity].
Qed.

(** C6, amended.  [FindFunction] is a total function, it returns and never
    throws.  When the running bracket depth is negative after some token
    and nothing is found up to that token, it logs that the brackets are not
    balanced and returns the end iterator.  Opening brackets that are never
    closed are not detected: on the tokens of [int foo( { ] nothing is
    logged, the name [foo] is found at token 2 and any other name gives the
    end iterator. *)
Theorem FindFunction_unbalanced :
  (forall mem Tokens Start End Name k,
      Name <> [] ->
      Start <= k < End ->
      (depth Tokens Start (S k - Start) < 0)%Z ->
      (forall j, Start <= j <= k ->
                 found_at mem Tokens Start End Name j = false) ->
      FindFunction mem Tokens Start End (Some Name)
      = (End, [brackets_not_balanced]))
  /\ exists Tokens,
      TokenizeString no_keywords "int foo( { " = Some (Tokens_ Tokens)
      /\ forall Name,
          Name <> [] ->
          FindFunction (buffer "int foo( { ") Tokens 0 (List.length Tokens)
                       (Some Name)
          = (if text_eqb (text "foo") Name then 2 else List.length Tokens,
             []).
Proof.
  split.
  - intros mem Tokens Start End Name k HN Hk Hneg Hnot.
    unfold FindFunction. destruct Name as [|a l]; [contradiction|].
    pose proof (FindFunction_loop_unbalanced mem Tokens Start End (a :: l) k
                  (proj2 Hk) Hneg Hnot (End - Start) Start) as H.
    rewrite Nat.sub_diag in H. cbn [depth] in H. apply H; lia.
  - eexists. split; [vm_compute; reflexivity|].
    intros Name HN. destruct Name as [|a l]; [contradiction|].
    unfold FindFunction. lazy -[text_eqb].
    destruct (text_eqb _ (a :: l)); destruct (text_eqb _ (a :: l));
      reflexivity.
Qed.

(** The general part on the tokens of [int foo() } x], looking for [bar]:
    the closing brace, token 5, takes the depth below zero. *)
Lemma FindFunction_unbalanced_witness :
  FindFunction (buffer "int foo() } x")
               [EmptyToken;
                CreateToken Identifier 0 0 0 3;
                CreateToken Identifier 3 4 4 7;
                CreateToken OpenParen 7 7 7 8;
                CreateToken ClosingParen 8 8 8 9;
                CreateToken ClosingBrace 9 10 10 11;
                CreateToken Identifier 11 12 12 13]
               0 7 (Some (text "bar"))
  = (7, [brackets_not_balanced]).
Proof.
  apply (proj1 FindFunction_unbalanced) with (k := 5).
  - discriminate.
  - lia.
  - vm_compute. reflexivity.
  - intros j Hj.
    assert (j = 0 \/ j = 1 \/ j = 2 \/ j = 3 \/ j = 4 \/ j = 5) as H by lia.
    repeat (destruct H as [->|H]; [vm_compute; reflexivity|]).
    subst j. vm_compute. reflexivity.
Defined.

(** * Further properties of the scanners *)

Section ScannerContracts.

Variable mem : nat -> ascii.
Variable End : nat.

Lemma advance_while_all (P : ascii -> bool) (n Pos : nat) :
  forall i, Pos <= i < advance_while mem End P n Pos -> P (mem i) = true.
Proof.
  revert Pos. induction n as [|n IH]; intros Pos i Hi; cbn [advance_while] in *;
    [lia|].
  destruct (Pos =? End) eqn:E; cbn [negb andb] in Hi; [lia|].
  destruct (P (mem Pos)) eqn:EP; [|lia].
  destruct (Nat.eq_dec i Pos) as [->|Hne]; [assumption|].
  apply (IH (S Pos)). lia.
Qed.

Lemma advance_while_stay (P : ascii -> bool) (n Pos : nat) :
  Pos = End \/ P (mem Pos) = false -> advance_while mem End P n Pos = Pos.
Proof.
  intros H. destruct n as [|n]; [reflexivity|]. cbn [advance_while].
  destruct H as [->|H]; [now rewrite Nat.eqb_refl|].
  rewrite H. now rewrite andb_false_r.
Qed.

Lemma not_line_char (c : ascii) :
  negb (is_char c NUL) && negb (IsNewLine c) = false ->
  c = NUL \/ IsNewLine c = true.
Proof.
  intros H. apply andb_false_iff in H as [H|H]; apply negb_false_iff in H.
  - left. now apply is_char_eq.
  - now right.
Qed.

Lemma IsNewLine_cases (c : ascii) : IsNewLine c = true -> c = CR \/ c = LF.
Proof.
  unfold IsNewLine. intros H. apply orb_true_iff in H as [H|H];
    apply is_char_eq in H; [now left | now right].
Qed.

End ScannerContracts.

(** X1.  [SkipLine] without [GoToNextLine] stops at the first offset from
    [Pos] on that is [End], holds the terminator or holds a new-line
    character: nothing it skips is a terminator or a new line, and it
    returns [true] exactly when it stopped at [End]. *)
Theorem SkipLine_stops_at_line_end (mem : nat -> ascii) (End Pos : nat) :
  Pos <= End ->
  let r := fst (SkipLine mem End Pos false) in
  Pos <= r <= End
  /\ (forall i, Pos <= i < r -> mem i <> NUL /\ IsNewLine (mem i) = false)
  /\ (r = End \/ mem r = NUL \/ IsNewLine (mem r) = true)
  /\ snd (SkipLine mem End Pos false) = (r =? End).
Proof.
  intros HP. unfold SkipLine. cbv zeta. cbn [andb fst snd].
  set (P := fun c => negb (is_char c NUL) && negb (IsNewLine c)).
  set (r := advance_while mem End P (End - Pos) Pos).
  split; [split; [apply advance_while_ge | now apply advance_while_le]|].
  split; [|split; [|reflexivity]].
  - intros i Hi. pose proof (advance_while_all mem End P _ _ i Hi) as H.
    unfold P in H. apply andb_true_iff in H as [H1 H2].
    apply negb_true_iff in H1, H2. split; [now apply is_char_neq | assumption].
  - destruct (advance_while_stop mem End P (End - Pos) Pos HP (le_n _))
      as [H|H]; [now left|]. right. now apply not_line_char.
Qed.

(** The theorem on two lines separated by a line feed, from offset 1: the
    scan stops on the line feed, at offset 2. *)
Lemma SkipLine_stops_at_line_end_witness :
  1 <= fst (SkipLine (buffer ("ab" ++ lf ++ "c")) 4 1 false) <= 4
  /\ IsNewLine (buffer ("ab" ++ lf ++ "c") 2) = true.
Proof.
  split; [|reflexivity].
  apply (SkipLine_stops_at_line_end (buffer ("ab" ++ lf ++ "c")) 4 1).
  lia.
Defined.

(** X2.  With [GoToNextLine], [SkipLine] goes on from where the plain call
    stops by exactly one line ending: nothing at [End] or at a terminator,
    one character for a lone line feed or carriage return, two for a
    carriage return followed by a line feed, which it never splits. *)
Theorem SkipLine_next_line (mem : nat -> ascii) (End Pos : nat) :
  Pos <= End ->
  let p := fst (SkipLine mem End Pos false) in
  let r := fst (SkipLine mem End Pos true) in
  r <= End
  /\ ((r = p /\ (p = End \/ mem p = NUL))
      \/ (r = S p /\ mem p = LF)
      \/ (r = S p /\ mem p = CR /\ (r = End \/ mem r <> LF))
      \/ (r = S (S p) /\ mem p = CR /\ mem (S p) = LF)).
Proof.
  intros HP.
  pose proof (SkipLine_stops_at_line_end mem End Pos HP) as HS.
  pose proof (SkipLine_bounds mem End Pos true HP) as HB.
  cbv zeta in *. destruct HS as [Hp [_ [Hstop _]]].
  split; [lia|]. revert Hp Hstop HB. unfold SkipLine. cbv zeta.
  cbn [andb fst snd].
  set (p := advance_while mem End _ (End - Pos) Pos).
  intros Hp Hstop HB.
  destruct (p =? End) eqn:E1; cbn [negb andb].
  { left. split; [reflexivity|]. left. now apply Nat.eqb_eq. }
  apply Nat.eqb_neq in E1.
  destruct (IsNewLine (mem p)) eqn:EN.
  2:{ left. split; [reflexivity|]. right.
      destruct Hstop as [H|[H|H]]; [contradiction | assumption | congruence]. }
  replace (S p - 1) with p by lia.
  apply IsNewLine_cases in EN as [Hc|Hc].
  - rewrite Hc. change (is_char CR "013") with true. cbn [andb].
    destruct (S p =? End) eqn:E2; cbn [negb andb].
    + right. right. left. apply Nat.eqb_eq in E2. repeat split; auto.
    + destruct (is_char (mem (S p)) "010") eqn:E3.
      * right. right. right. apply is_char_eq in E3. repeat split; auto.
      * right. right. left. apply is_char_neq in E3. repeat split; auto.
  - rewrite Hc. change (is_char LF "013") with false. cbn [andb].
    right. left. split; [reflexivity | auto].
Qed.

(** The theorem on a line that ends with a carriage return and a line
    feed. *)
Lemma SkipLine_next_line_witness :
  fst (SkipLine (buffer ("a" ++ crlf ++ "c")) 4 0 true) <= 4.
Proof.
  apply (SkipLine_next_line (buffer ("a" ++ crlf ++ "c")) 4 0).
  lia.
Defined.

(** ** Comments *)

Section CommentContracts.

Variable mem : nat -> ascii.
Variable End : nat.

Lemma comment_start_at_end (Pos : nat) :
  at_end mem End Pos = true \/ at_end mem End (Pos + 1) = true ->
  Pos <= End ->
  ~ comment_start mem End Pos.
Proof.
  unfold at_end. intros H HP [Hs [Hlt Hn]].
  destruct H as [H|H]; apply orb_true_iff in H as [H|H].
  - apply Nat.eqb_eq in H. lia.
  - apply is_char_eq in H. rewrite H in Hs. discriminate.
  - apply Nat.eqb_eq in H. lia.
  - apply is_char_eq in H. replace (Pos + 1) with (S Pos) in H by lia.
    rewrite H in Hn. destruct Hn; discriminate.
Qed.

(** The closing star-slash the loop finds is the first one, and no
    terminator comes before it. *)
Lemma FindCommentEnd_first (n p r : nat) :
  p <= End ->
  FindCommentEnd mem End n p = Some r ->
  p + 2 <= r <= End
  /\ mem (r - 2) = "*" /\ mem (r - 1) = "/"
  /\ (forall i, p <= i < r -> mem i <> NUL)
  /\ (forall i, p <= i -> i + 2 < r -> ~ (mem i = "*" /\ mem (S i) = "/")).
Proof.
  revert p. induction n as [|n IH]; intros p Hp; cbn [FindCommentEnd];
    [discriminate|].
  unfold at_end.
  destruct (p =? End) eqn:E1; cbn [orb]; [discriminate|].
  apply Nat.eqb_neq in E1.
  destruct (is_char (mem p) NUL) eqn:Ez; [discriminate|].
  apply is_char_neq in Ez.
  destruct (is_char (mem p) "*") eqn:Es.
  - apply is_char_eq in Es.
    destruct (S p =? End) eqn:E2; cbn [orb]; [discriminate|].
    apply Nat.eqb_neq in E2.
    destruct (is_char (mem (S p)) NUL) eqn:Ez2; [discriminate|].
    apply is_char_neq in Ez2.
    destruct (is_char (mem (S p)) "/") eqn:Esl.
    + apply is_char_eq in Esl. intros [= <-].
      replace (S (S p) - 2) with p by lia.
      replace (S (S p) - 1) with (S p) by lia.
      repeat split; try assumption; try lia.
      intros i Hi. assert (i = p \/ i = S p) as [->| ->] by lia; assumption.
    + apply is_char_neq in Esl. intros Hr.
      apply IH in Hr as [H1 [H2 [H3 [H4 H5]]]]; [|lia].
      repeat split; try assumption; try lia.
      * intros i Hi. destruct (Nat.eq_dec i p) as [->|Hne]; [assumption|].
        apply H4. lia.
      * intros i Hi Hlt [Ha Hb].
        destruct (Nat.eq_dec i p) as [->|Hne]; [contradiction|].
        apply (H5 i); [lia | lia | now split].
  - apply is_char_neq in Es. intros Hr.
    apply IH in Hr as [H1 [H2 [H3 [H4 H5]]]]; [|lia].
    repeat split; try assumption; try lia.
    + intros i Hi. destruct (Nat.eq_dec i p) as [->|Hne]; [assumption|].
      apply H4. lia.
    + intros i Hi Hlt [Ha Hb].
      destruct (Nat.eq_dec i p) as [->|Hne]; [contradiction|].
      apply (H5 i); [lia | lia | now split].
Qed.

(** When the loop is left without a closing star-slash, there is none
    before [End] or before the first terminator. *)
Lemma FindCommentEnd_none (n p : nat) :
  p <= End -> End - p < n ->
  FindCommentEnd mem End n p = None ->
  comment_unclosed mem End p.
Proof.
  revert p. induction n as [|n IH]; intros p Hp Hn; [lia|].
  cbn [FindCommentEnd]. unfold at_end.
  destruct (p =? End) eqn:E1; cbn [orb].
  { apply Nat.eqb_eq in E1. intros _. exists p.
    split; [lia|]. split; [now left|]. split; intros; lia. }
  apply Nat.eqb_neq in E1.
  destruct (is_char (mem p) NUL) eqn:Ez.
  { apply is_char_eq in Ez. intros _. exists p.
    split; [lia|]. split; [now right|]. split; intros; lia. }
  apply is_char_neq in Ez.
  assert (Hext : forall Stop,
             S p <= Stop ->
             (forall i, S p <= i < Stop -> mem i <> NUL) ->
             forall i, p <= i < Stop -> mem i <> NUL).
  { intros Stop HS H i Hi.
    destruct (Nat.eq_dec i p) as [->|Hne]; [assumption|]. apply H. lia. }
  destruct (is_char (mem p) "*") eqn:Es.
  - apply is_char_eq in Es.
    destruct (S p =? End) eqn:E2; cbn [orb].
    { apply Nat.eqb_eq in E2. intros _. exists (S p).
      split; [lia|]. split; [now left|]. split.
      - intros i Hi. assert (i = p) as -> by lia. assumption.
      - intros i Hi Hlt. lia. }
    apply Nat.eqb_neq in E2.
    destruct (is_char (mem (S p)) NUL) eqn:Ez2.
    { apply is_char_eq in Ez2. intros _. exists (S p).
      split; [lia|]. split; [now right|]. split.
      - intros i Hi. assert (i = p) as -> by lia. assumption.
      - intros i Hi Hlt. lia. }
    destruct (is_char (mem (S p)) "/") eqn:Esl; [discriminate|].
    apply is_char_neq in Esl. intros Hr.
    apply IH in Hr as [Stop [H1 [H2 [H3 H4]]]]; [|lia|lia].
    exists Stop. split; [lia|]. split; [assumption|]. split.
    + apply Hext; [lia | assumption].
    + intros i Hi Hlt [Ha Hb].
      destruct (Nat.eq_dec i p) as [->|Hne]; [contradiction|].
      apply (H4 i); [lia | lia | now split].
  - apply is_char_neq in Es. intros Hr.
    apply IH in Hr as [Stop [H1 [H2 [H3 H4]]]]; [|lia|lia].
    exists Stop. split; [lia|]. split; [assumption|]. split.
    + apply Hext; [lia | assumption].
    + intros i Hi Hlt [Ha Hb].
      destruct (Nat.eq_dec i p) as [->|Hne]; [contradiction|].
      apply (H4 i); [lia | lia | now split].
Qed.

End CommentContracts.

(** X3.  When [SkipComment] returns, its result tells whether the end of the
    string was reached ([End] or a terminator at the new position), and the
    position is left unchanged exactly when no comment opens at [Pos];
    otherwise it has moved by two characters at least. *)
Theorem SkipComment_returns (mem : nat -> ascii) (End Pos r : nat) (b : bool) :
  Pos <= End ->
  SkipComment mem End Pos = Ok (r, b) ->
  b = at_end mem End r
  /\ ((r = Pos /\ ~ comment_start mem End Pos)
      \/ (Pos + 2 <= r <= End /\ comment_start mem End Pos)).
Proof.
  intros HP. unfold SkipComment.
  destruct (at_end mem End Pos) eqn:A1.
  { intros [= <- <-]. split; [now rewrite A1|]. left.
    split; [reflexivity|]. apply comment_start_at_end; auto. }
  assert (Hlt : Pos < End).
  { unfold at_end in A1. apply orb_false_iff in A1 as [A1 _].
    apply Nat.eqb_neq in A1. lia. }
  destruct (is_char (mem Pos) "/") eqn:Es; cbn [negb].
  2:{ intros [= <- <-]. split; [now rewrite A1|]. left.
      split; [reflexivity|]. intros [H _]. apply is_char_neq in Es.
      contradiction. }
  apply is_char_eq in Es.
  destruct (at_end mem End (Pos + 1)) eqn:A2.
  { intros [= <- <-]. split; [now rewrite A1|]. left.
    split; [reflexivity|]. apply comment_start_at_end; auto. }
  assert (Hlt2 : S Pos < End).
  { unfold at_end in A2. apply orb_false_iff in A2 as [A2 _].
    apply Nat.eqb_neq in A2. lia. }
  replace (Pos + 1) with (S Pos) by lia.
  destruct (is_char (mem (S Pos)) "/") eqn:E2.
  { apply is_char_eq in E2.
    pose proof (SkipLine_bounds mem End (S Pos + 1) true ltac:(lia)) as HB.
    destruct (SkipLine mem End (S Pos + 1) true) as [q e]. cbn [fst] in *.
    intros [= <- <-]. split; [reflexivity|]. right.
    split; [lia|]. repeat split; auto. }
  destruct (is_char (mem (S Pos)) "*") eqn:E3.
  { apply is_char_eq in E3.
    destruct (FindCommentEnd mem End _ _) as [q|] eqn:EF; [|discriminate].
    apply FindCommentEnd_bounds in EF; [|lia].
    intros [= <- <-]. split; [reflexivity|]. right.
    split; [lia|]. repeat split; auto. }
  intros [= <- <-]. split; [now rewrite A1|]. left. split; [reflexivity|].
  intros [_ [_ [H|H]]]; rewrite H in *; discriminate.
Qed.

(** The theorem on a single-line comment followed by a line. *)
Lemma SkipComment_returns_witness :
  false = at_end (buffer ("//a" ++ lf ++ "b")) 5 4
  /\ ((4 = 0 /\ ~ comment_start (buffer ("//a" ++ lf ++ "b")) 5 0)
      \/ (0 + 2 <= 4 <= 5 /\ comment_start (buffer ("//a" ++ lf ++ "b")) 5 0)).
Proof.
  apply (SkipComment_returns (buffer ("//a" ++ lf ++ "b")) 5 0 4 false).
  - lia.
  - vm_compute. reflexivity.
Defined.

(** X4.  When [SkipComment] returns from a multi-line comment, the new
    position is just after the first star-slash that closes it (the star of
    the opening does not count), and there is no terminator inside the
    comment. *)
Theorem SkipComment_multiline_closed (mem : nat -> ascii) (End Pos r : nat)
        (b : bool) :
  S Pos < End ->
  mem Pos = "/" ->
  mem (S Pos) = "*" ->
  SkipComment mem End Pos = Ok (r, b) ->
  Pos + 4 <= r <= End
  /\ mem (r - 2) = "*" /\ mem (r - 1) = "/"
  /\ (forall i, Pos <= i < r -> mem i <> NUL)
  /\ (forall i, Pos + 2 <= i -> i + 2 < r ->
                ~ (mem i = "*" /\ mem (S i) = "/")).
Proof.
  intros HP Hs Hst. unfold SkipComment, at_end.
  replace (Pos =? End) with false by (symmetry; apply Nat.eqb_neq; lia).
  replace (Pos + 1) with (S Pos) by lia.
  replace (S Pos =? End) with false by (symmetry; apply Nat.eqb_neq; lia).
  rewrite Hs, Hst. cbn [orb].
  change (is_char "/" NUL) with false. change (is_char "/" "/") with true.
  change (is_char "*" NUL) with false. change (is_char "*" "/") with false.
  change (is_char "*" "*") with true. cbn [negb]. cbv iota.
  destruct (FindCommentEnd mem End _ _) as [q|] eqn:EF; [|discriminate].
  apply FindCommentEnd_first in EF as [H1 [H2 [H3 [H4 H5]]]]; [|lia].
  intros [= <- <-]. repeat split; try assumption; try lia.
  - intros i Hi.
    assert (i = Pos \/ i = S Pos \/ S (S Pos) <= i) as [->|[->|Hge]] by lia.
    + rewrite Hs. discriminate.
    + rewrite Hst. discriminate.
    + apply H4. lia.
  - intros i Hi Hlt. apply H5; lia.
Qed.

(** The theorem on a comment that holds a star and ends with two. *)
Lemma SkipComment_multiline_closed_witness :
  0 + 4 <= 7 <= 8
  /\ buffer "/*a***/b" (7 - 2) = "*" /\ buffer "/*a***/b" (7 - 1) = "/"
  /\ (forall i, 0 <= i < 7 -> buffer "/*a***/b" i <> NUL)
  /\ (forall i, 0 + 2 <= i -> i + 2 < 7 ->
                ~ (buffer "/*a***/b" i = "*" /\ buffer "/*a***/b" (S i) = "/")).
Proof.
  apply (SkipComment_multiline_closed (buffer "/*a***/b") 8 0 7 false).
  - lia.
  - reflexivity.
  - reflexivity.
  - vm_compute. reflexivity.
Defined.

(** ** Delimiters, gaps and identifiers *)

Lemma IsDelimiter_chars (c : ascii) :
  IsDelimiter c = true <-> In c [" "; "009"; CR; LF; NUL].
Proof.
  unfold IsDelimiter, strchr_found. cbn [existsb In].
  rewrite !orb_true_iff, !is_char_eq. unfold CR, LF.
  split; intros H; repeat (destruct H as [H|H]); auto 10; try discriminate;
    try contradiction.
Qed.

(** X5.  [SkipDelimiters] stops at the first offset from [Pos] on that is
    [End] or holds something else than a space, a tab, a carriage return, a
    line feed or the terminator (which [strchr] finds in the delimiter
    string too); it returns [true] exactly when it stopped at [End]. *)
Theorem SkipDelimiters_stops (mem : nat -> ascii) (End Pos : nat) :
  Pos <= End ->
  let r := fst (SkipDelimiters mem End Pos) in
  Pos <= r <= End
  /\ (forall i, Pos <= i < r -> In (mem i) [" "; "009"; CR; LF; NUL])
  /\ (r = End \/ ~ In (mem r) [" "; "009"; CR; LF; NUL])
  /\ snd (SkipDelimiters mem End Pos) = (r =? End).
Proof.
  intros HP. unfold SkipDelimiters. cbv zeta. cbn [fst snd].
  set (r := advance_while mem End IsDelimiter (End - Pos) Pos).
  split; [split; [apply advance_while_ge | now apply advance_while_le]|].
  split; [|split; [|reflexivity]].
  - intros i Hi. apply IsDelimiter_chars.
    now apply (advance_while_all mem End IsDelimiter (End - Pos) Pos).
  - destruct (advance_while_stop mem End IsDelimiter (End - Pos) Pos HP
                                 (le_n _)) as [H|H]; [now left|].
    right. intros Hin. apply IsDelimiter_chars in Hin. fold r in H.
    congruence.
Qed.

(** The theorem on a space, a terminator and a tab before a letter. *)
Lemma SkipDelimiters_stops_witness :
  0 <= fst (SkipDelimiters (fun i => nth i [" "; NUL; "009"; "x"] NUL) 4 0)
  <= 4.
Proof.
  apply (SkipDelimiters_stops (fun i => nth i [" "; NUL; "009"; "x"] NUL) 4 0).
  lia.
Defined.

Section GapContracts.

Variable mem : nat -> ascii.
Variable End : nat.

(** Where the loop of [SkipDelimitersAndComments] returns: at [End], or at a
    character that is no delimiter and from which [SkipComment] does not
    move. *)
Lemma SkipDelimitersAndComments_loop_lands (n Pos r : nat) :
  Pos <= End -> End - Pos < n ->
  SkipDelimitersAndComments_loop mem End n Pos = Ok r ->
  r = End
  \/ (IsDelimiter (mem r) = false
      /\ exists b, SkipComment mem End r = Ok (r, b)).
Proof.
  revert Pos. induction n as [|n IH]; intros Pos HP Hn; [lia|].
  cbn [SkipDelimitersAndComments_loop]. cbv zeta.
  pose proof (advance_while_stop mem End IsDelimiter (End - Pos) Pos HP
                                 (le_n _)) as Hstop. cbv zeta in Hstop.
  set (p := advance_while mem End IsDelimiter (End - Pos) Pos) in *.
  assert (Hp : Pos <= p <= End)
    by (split; [apply advance_while_ge | now apply advance_while_le]).
  destruct (SkipComment mem End p) as [[q b]|w s] eqn:EC; [|discriminate].
  apply SkipComment_bounds in EC as Hq; [|lia].
  destruct (q =? End) eqn:E1; cbn [negb andb].
  { intros [= <-]. left. now apply Nat.eqb_eq. }
  apply Nat.eqb_neq in E1.
  destruct (p =? Pos) eqn:E2; destruct (p =? q) eqn:E3; cbn [negb orb].
  - apply Nat.eqb_eq in E2, E3. intros [= <-]. subst q.
    destruct Hstop as [H|H]; [lia|]. right. split; [assumption|].
    now exists b.
  - apply Nat.eqb_neq in E3. intros Hr. apply (IH q); [lia | lia | exact Hr].
  - apply Nat.eqb_neq in E2. intros Hr. apply (IH q); [lia | lia | exact Hr].
  - apply Nat.eqb_neq in E2. intros Hr. apply (IH q); [lia | lia | exact Hr].
Qed.

Lemma SkipComment_throws (Pos p : nat) (m : string) :
  Pos <= End ->
  SkipComment mem End Pos = Throw p m ->
  p = Pos /\ m = unterminated_comment
  /\ comment_left_open mem End Pos.
Proof.
  intros HP. unfold SkipComment, at_end.
  destruct (Pos =? End) eqn:E1; cbn [orb]; [discriminate|].
  apply Nat.eqb_neq in E1.
  destruct (is_char (mem Pos) NUL); [discriminate|].
  destruct (is_char (mem Pos) "/") eqn:Es; cbn [negb]; [|discriminate].
  apply is_char_eq in Es. replace (Pos + 1) with (S Pos) by lia.
  destruct (S Pos =? End) eqn:E2; cbn [orb]; [discriminate|].
  apply Nat.eqb_neq in E2.
  destruct (is_char (mem (S Pos)) NUL); [discriminate|].
  destruct (is_char (mem (S Pos)) "/"); [discriminate|].
  destruct (is_char (mem (S Pos)) "*") eqn:Est; [|discriminate].
  apply is_char_eq in Est.
  destruct (FindCommentEnd mem End _ _) eqn:EF; [discriminate|].
  intros [= <- <-]. split; [reflexivity|]. split; [reflexivity|].
  apply FindCommentEnd_none in EF; [|lia|lia].
  unfold comment_left_open. replace (Pos + 2) with (S (S Pos)) by lia.
  repeat split; try assumption. lia.
Qed.

Lemma SkipDelimitersAndComments_loop_throws (n Pos p : nat) (m : string) :
  Pos <= End ->
  SkipDelimitersAndComments_loop mem End n Pos = Throw p m ->
  Pos <= p /\ m = unterminated_comment
  /\ comment_left_open mem End p.
Proof.
  revert Pos. induction n as [|n IH]; intros Pos HP; [discriminate|].
  cbn [SkipDelimitersAndComments_loop]. cbv zeta.
  set (q := advance_while mem End IsDelimiter (End - Pos) Pos).
  assert (Hq : Pos <= q <= End)
    by (split; [apply advance_while_ge | now apply advance_while_le]).
  destruct (SkipComment mem End q) as [[q' b]|w s] eqn:EC.
  - apply SkipComment_bounds in EC; [|lia].
    destruct (negb (q' =? End) && _); [|discriminate].
    intros Hr. apply IH in Hr; [|lia]. intuition lia.
  - apply SkipComment_throws in EC as [-> [-> H]]; [|lia].
    intros [= <- <-]. intuition lia.
Qed.

End GapContracts.

(** X6.  When [SkipDelimitersAndComments] returns, the position is at [End]
    or at the first character that is neither a delimiter nor the opening
    of a comment, and the result says whether it is [End]. *)
Theorem SkipDelimitersAndComments_lands (mem : nat -> ascii) (End Pos r : nat)
        (b : bool) :
  Pos <= End ->
  SkipDelimitersAndComments mem End Pos = Ok (r, b) ->
  Pos <= r <= End
  /\ b = (r =? End)
  /\ (r = End
      \/ (IsDelimiter (mem r) = false /\ ~ comment_start mem End r)).
Proof.
  intros HP H. pose proof (SkipDelimitersAndComments_bounds _ _ _ _ _ HP H).
  split; [assumption|]. unfold SkipDelimitersAndComments in H.
  destruct (SkipDelimitersAndComments_loop mem End _ Pos) as [q|] eqn:EL;
    [|discriminate].
  injection H as <- <-. split; [reflexivity|].
  apply SkipDelimitersAndComments_loop_lands in EL as [HE|[Hd [b' Hc]]];
    [now left | | lia | lia].
  right. split; [assumption|].
  apply SkipComment_returns in Hc as [_ [[_ Hn]|[Hr _]]]; [assumption|lia|lia].
Qed.

(** The theorem on a gap made of a comment, spaces and a second comment. *)
Lemma SkipDelimitersAndComments_lands_witness :
  0 <= 13 <= 14
  /\ false = (13 =? 14)
  /\ (13 = 14
      \/ (IsDelimiter (buffer ("/*c*/  //d" ++ lf ++ "  x") 13) = false
          /\ ~ comment_start (buffer ("/*c*/  //d" ++ lf ++ "  x")) 14 13)).
Proof.
  apply (SkipDelimitersAndComments_lands
           (buffer ("/*c*/  //d" ++ lf ++ "  x")) 14 0 13 false).
  - lia.
  - vm_compute. reflexivity.
Defined.

(** X7.  Idempotence: from the position where it returned,
    [SkipDelimitersAndComments] returns again, without moving and with the
    same result. *)
Theorem SkipDelimitersAndComments_idempotent (mem : nat -> ascii)
        (End Pos r : nat) (b : bool) :
  Pos <= End ->
  SkipDelimitersAndComments mem End Pos = Ok (r, b) ->
  SkipDelimitersAndComments mem End r = Ok (r, b).
Proof.
  intros HP H.
  pose proof (SkipDelimitersAndComments_bounds _ _ _ _ _ HP H) as Hr.
  unfold SkipDelimitersAndComments in *.
  destruct (SkipDelimitersAndComments_loop mem End (S (End - Pos)) Pos)
    as [q|] eqn:EL; [|discriminate].
  injection H as <- <-.
  apply SkipDelimitersAndComments_loop_lands in EL as [HE|[Hd [b' Hc]]];
    [| | lia | lia].
  - subst q. rewrite Nat.sub_diag. cbn [SkipDelimitersAndComments_loop].
    cbv zeta. rewrite Nat.sub_diag. cbn [advance_while].
    unfold SkipComment, at_end. rewrite Nat.eqb_refl. cbn [orb].
    rewrite Nat.eqb_refl. cbn [negb andb orb]. cbv beta iota.
    rewrite ?Nat.eqb_refl. reflexivity.
  - cbn [SkipDelimitersAndComments_loop]. cbv zeta.
    rewrite (advance_while_stay mem End IsDelimiter _ q) by now right.
    rewrite Hc. rewrite Nat.eqb_refl. cbn [negb orb].
    rewrite andb_false_r. reflexivity.
Qed.

(** The theorem on the same gap. *)
Lemma SkipDelimitersAndComments_idempotent_witness :
  SkipDelimitersAndComments (buffer ("/*c*/  //d" ++ lf ++ "  x")) 14 13
  = Ok (13, false).
Proof.
  apply (SkipDelimitersAndComments_idempotent
           (buffer ("/*c*/  //d" ++ lf ++ "  x")) 14 0).
  - lia.
  - vm_compute. reflexivity.
Defined.

(** X8.  The only error of [SkipDelimitersAndComments] is the unterminated
    multi-line comment: it is reported at the slash that opens the comment,
    at or after the starting position, and the comment is indeed never
    closed, there is no star-slash after its opening before [End] or
    before the first terminator. *)
Theorem SkipDelimitersAndComments_throws (mem : nat -> ascii)
        (End Pos p : nat) (m : string) :
  Pos <= End ->
  SkipDelimitersAndComments mem End Pos = Throw p m ->
  m = unterminated_comment
  /\ Pos <= p
  /\ comment_left_open mem End p.
Proof.
  intros HP. unfold SkipDelimitersAndComments.
  destruct (SkipDelimitersAndComments_loop mem End _ Pos) as [q|w s] eqn:EL;
    [discriminate|].
  intros [= <- <-].
  apply SkipDelimitersAndComments_loop_throws in EL; [|assumption].
  intuition.
Qed.

(** The theorem on a closed comment followed by one that is not: the
    closed one is skipped, the error is at the second one. *)
Lemma SkipDelimitersAndComments_throws_witness :
  unterminated_comment = unterminated_comment
  /\ 0 <= 6
  /\ comment_left_open (buffer "/*a*/ /* b") 10 6.
Proof.
  apply (SkipDelimitersAndComments_throws (buffer "/*a*/ /* b") 10 0 6).
  - lia.
  - vm_compute. reflexivity.
Defined.

(** X9.  [SkipIdentifier] moves only over an identifier: it stays at [Pos]
    when [Pos] is [End] or does not hold a letter or an underscore;
    otherwise it skips that character and the letters, digits and
    underscores that follow, all of them.  It returns [true] exactly when
    it stopped at [End]. *)
Theorem SkipIdentifier_skips (mem : nat -> ascii) (End Pos : nat) :
  Pos <= End ->
  let r := fst (SkipIdentifier mem End Pos) in
  Pos <= r <= End
  /\ snd (SkipIdentifier mem End Pos) = (r =? End)
  /\ (r = Pos <->
      Pos = End \/ isalpha (mem Pos) || is_char (mem Pos) "_" = false)
  /\ (forall i, Pos < i < r -> is_identifier_char (mem i) = true)
  /\ (Pos < r -> r = End \/ is_identifier_char (mem r) = false).
Proof.
  intros HP. unfold SkipIdentifier.
  destruct (Pos =? End) eqn:E1; cbn [fst snd].
  { apply Nat.eqb_eq in E1. subst Pos. rewrite Nat.eqb_refl.
    repeat split; lia. }
  apply Nat.eqb_neq in E1.
  destruct (isalpha (mem Pos) || is_char (mem Pos) "_") eqn:Ea; cbn [fst snd].
  2:{ repeat split; try lia; try (intros _; now right).
      symmetry. now apply Nat.eqb_neq. }
  destruct (S Pos =? End) eqn:E2; cbn [fst snd].
  { apply Nat.eqb_eq in E2. rewrite E2, Nat.eqb_refl.
    repeat split; try lia; try (intros [H|H]; [lia | discriminate]). }
  apply Nat.eqb_neq in E2.
  fold is_identifier_char.
  pose proof (advance_while_ge mem End is_identifier_char
                               (End - S Pos) (S Pos)) as Hge.
  pose proof (advance_while_le mem End is_identifier_char
                               (End - S Pos) (S Pos) ltac:(lia)) as Hle.
  pose proof (advance_while_all mem End is_identifier_char
                                (End - S Pos) (S Pos)) as Hall.
  pose proof (advance_while_stop mem End is_identifier_char
                                 (End - S Pos) (S Pos) ltac:(lia) (le_n _))
    as Hstop.
  cbv zeta in Hstop.
  change (fun c : ascii => isalnum c || is_char c "_")
    with is_identifier_char.
  set (r := advance_while mem End is_identifier_char (End - S Pos) (S Pos))
    in *.
  repeat split; try lia; try (intros [H|H]; [lia | discriminate]).
  - intros i Hi. apply Hall. lia.
  - intros _. exact Hstop.
Qed.

(** The theorem on an identifier followed by a parenthesis. *)
Lemma SkipIdentifier_skips_witness :
  0 <= fst (SkipIdentifier (buffer "_a1(") 4 0) <= 4.
Proof.
  apply (SkipIdentifier_skips (buffer "_a1(") 4 0). lia.
Defined.

(** ** More on the float recognizer *)

Section FloatSameBuffer.

Variable mem mem' : nat -> ascii.
Variable End : nat.
Hypothesis same : same_before End mem mem'.

Lemma SkipDigits_same (n c Pos : nat) :
  c <= End ->
  value (SkipDigits mem End n c Pos) = value (SkipDigits mem' End n c Pos).
Proof.
  revert c Pos. induction n as [|n IH]; intros c Pos Hc; cbn [SkipDigits];
    [reflexivity|].
  destruct (c =? End) eqn:E; [reflexivity|]. apply Nat.eqb_neq in E.
  traced. rewrite <- (same c) by lia.
  destruct (IsNum (mem c)); [apply IH; lia | reflexivity].
Qed.

Lemma FloatSuffix_same (hd he : bool) (Start c Pos : nat) :
  c <= End ->
  value (FloatSuffix mem End hd he Start c Pos)
  = value (FloatSuffix mem' End hd he Start c Pos).
Proof.
  intros Hc. unfold FloatSuffix. destruct (c =? End) eqn:E.
  - now rewrite !andb_false_r.
  - apply Nat.eqb_neq in E.
    destruct ((hd || he) && negb false && (Start <? Pos)); [|reflexivity].
    traced. now rewrite <- (same c) by lia.
Qed.

Lemma FloatExponent_same (hi hd : bool) (Start c Pos : nat) :
  c < End ->
  value (FloatExponent mem End hi hd Start c Pos)
  = value (FloatExponent mem' End hi hd Start c Pos).
Proof.
  intros Hc. unfold FloatExponent. traced. rewrite <- (same c) by lia.
  destruct (is_char (mem c) "e" || is_char (mem c) "E");
    [|apply FloatSuffix_same; lia].
  destruct (negb hi); [reflexivity|].
  destruct (S c =? End) eqn:E1; [reflexivity|]. apply Nat.eqb_neq in E1.
  traced. rewrite <- (same (S c)) by lia.
  destruct (negb (is_char (mem (S c)) "+") && negb (is_char (mem (S c)) "-"));
    [reflexivity|].
  destruct (S (S c) =? End) eqn:E2; [reflexivity|]. apply Nat.eqb_neq in E2.
  traced. rewrite <- (same (S (S c))) by lia.
  destruct (negb (IsNum (mem (S (S c))))); [reflexivity|].
  traced. rewrite <- (SkipDigits_same _ (S (S c)) Pos) by lia.
  pose proof (SkipDigits_value mem End (End - S (S c)) (S (S c)) Pos
                               ltac:(lia)) as HD.
  cbv zeta in HD. apply FloatSuffix_same. lia.
Qed.

Lemma CHECK_END_same (c Pos : nat) (k k' : Traced nat) :
  c <= End ->
  (c < End -> value k = value k') ->
  value (CHECK_END mem End c Pos k) = value (CHECK_END mem' End c Pos k').
Proof.
  intros Hc Hk. rewrite !value_CHECK_END. unfold at_end.
  destruct (c =? End) eqn:E; cbn [orb]; [reflexivity|].
  apply Nat.eqb_neq in E. rewrite <- (same c) by lia.
  destruct (is_char (mem c) NUL); [reflexivity | apply Hk; lia].
Qed.

Lemma FloatDecimal_same (hi : bool) (Start c Pos : nat) :
  c < End ->
  value (FloatDecimal mem End hi Start c Pos)
  = value (FloatDecimal mem' End hi Start c Pos).
Proof.
  intros Hc. unfold FloatDecimal. traced. rewrite <- (same c) by lia.
  destruct (is_char (mem c) "."); [|now apply FloatExponent_same].
  traced. rewrite <- (SkipDigits_same _ (S c) _) by lia.
  pose proof (SkipDigits_value mem End (End - S c) (S c)
                               (if hi then S c else Pos) ltac:(lia)) as HD.
  cbv zeta in HD.
  apply CHECK_END_same; [lia|]. intros Hlt. now apply FloatExponent_same.
Qed.

Lemma FloatInteger_same (Start c Pos : nat) :
  c < End ->
  value (FloatInteger mem End Start c Pos)
  = value (FloatInteger mem' End Start c Pos).
Proof.
  intros Hc. unfold FloatInteger. traced. rewrite <- (same c) by lia.
  destruct (IsNum (mem c)); [|now apply FloatDecimal_same].
  traced. rewrite <- (SkipDigits_same _ c Pos) by lia.
  pose proof (SkipDigits_value mem End (End - c) c Pos ltac:(lia)) as HD.
  cbv zeta in HD.
  apply CHECK_END_same; [lia|]. intros Hlt. now apply FloatDecimal_same.
Qed.

End FloatSameBuffer.

(** After a zero that is the last character, the scan of the integer part
    ends at [End]. *)
Lemma FloatInteger_last_zero (mem : nat -> ascii) (End Start c Pos : nat) :
  S c = End -> mem c = "0" ->
  value (FloatInteger mem End Start c Pos) = End.
Proof.
  intros HE Hz. unfold FloatInteger. traced. rewrite Hz.
  change (IsNum "0") with true. cbv iota. traced.
  replace (End - c) with 1 by lia. cbn [SkipDigits].
  replace (c =? End) with false by (symmetry; apply Nat.eqb_neq; lia).
  traced. rewrite Hz. change (IsNum "0") with true. cbv iota.
  cbn [value tret fst snd]. rewrite value_CHECK_END. unfold at_end.
  rewrite HE, Nat.eqb_refl. reflexivity.
Qed.

(** X10.  What [SkipFloatNumber] returns depends only on the characters
    before [End]: the character that the leading-zero test may read at
    [End] never changes the result. *)
Theorem SkipFloatNumber_same_before (mem mem' : nat -> ascii)
        (End Pos : nat) :
  Pos <= End ->
  same_before End mem mem' ->
  value (SkipFloatNumber mem End Pos) = value (SkipFloatNumber mem' End Pos).
Proof.
  intros HP same. unfold SkipFloatNumber. cbv zeta.
  apply CHECK_END_same; [assumption | lia |]. intros Hlt.
  traced. rewrite <- (same Pos) by lia.
  set (c := if is_char (mem Pos) "+" || is_char (mem Pos) "-"
            then S Pos else Pos).
  assert (Hc : Pos <= c <= End) by (subst c; destruct (_ || _); lia).
  apply CHECK_END_same; [assumption | lia |]. intros Hlt2.
  traced. rewrite <- (same c) by lia.
  destruct (is_char (mem c) "0") eqn:Ez.
  - apply is_char_eq in Ez. traced.
    destruct (Nat.eq_dec (c + 1) End) as [HE|Hne].
    + assert (Hz' : mem' c = "0") by (rewrite <- (same c) by lia; exact Ez).
      destruct (IsNum (mem (c + 1))); destruct (IsNum (mem' (c + 1)));
        rewrite ?(FloatInteger_last_zero _ End Pos c Pos) by (auto; lia);
        cbn [value tret fst]; lia.
    + rewrite <- (same (c + 1)) by lia.
      destruct (IsNum (mem (c + 1))); [reflexivity|].
      apply FloatInteger_same; [assumption | lia].
  - cbn [value tret fst]. apply FloatInteger_same; [assumption | lia].
Qed.

(** The theorem on a zero before [End], with a digit or a letter after
    it. *)
Lemma SkipFloatNumber_same_before_witness :
  value (SkipFloatNumber (buffer "07") 1 0)
  = value (SkipFloatNumber (buffer "0x") 1 0).
Proof.
  apply SkipFloatNumber_same_before.
  - lia.
  - intros i Hi. assert (i = 0) as -> by lia. reflexivity.
Defined.

Section FloatHasDigit.

Variable mem : nat -> ascii.
Variable End : nat.

Lemma has_digit_mono (a b b' : nat) :
  b <= b' -> has_digit mem a b -> has_digit mem a b'.
Proof. intros H [k [Hk Hd]]. exists k. split; [lia | assumption]. Qed.

Lemma FloatSuffix_digit (hd he : bool) (Start c Pos : nat) :
  Pos <= c ->
  (Start < Pos -> has_digit mem Start Pos) ->
  Start < value (FloatSuffix mem End hd he Start c Pos) ->
  has_digit mem Start (value (FloatSuffix mem End hd he Start c Pos)).
Proof.
  intros HP Hinv. unfold FloatSuffix.
  destruct ((hd || he) && negb (c =? End) && (Start <? Pos)) eqn:E;
    [|cbn; exact Hinv].
  apply andb_true_iff in E as [_ E]. apply Nat.ltb_lt in E.
  traced. destruct (_ || _); cbn; intros _.
  - apply (has_digit_mono Start Pos); [lia | auto].
  - auto.
Qed.

Lemma SkipDigits_digit (Start c Pos c' Pos' : nat) :
  Start <= c -> c <= End ->
  (Start < Pos -> has_digit mem Start Pos) ->
  value (SkipDigits mem End (End - c) c Pos) = (c', Pos') ->
  c <= c' <= End /\ (Pos <= c -> Pos <= Pos' <= c')
  /\ (Start < Pos' -> has_digit mem Start Pos')
  /\ (c < c' -> has_digit mem Start c').
Proof.
  intros HS Hc Hinv HD.
  apply SkipDigits_spec in HD as [H1 [H2 [H3 H4]]]; [|lia|lia].
  assert (Hd : c < c' -> has_digit mem Start c').
  { intros Hlt. exists c. split; [lia|]. apply H3. lia. }
  destruct H2 as [[-> ->]|[Hlt ->]].
  - repeat split; auto; lia.
  - repeat split; auto; lia.
Qed.

Lemma FloatExponent_digit (hi hd : bool) (Start c Pos : nat) :
  Start <= Pos -> Pos <= c -> c < End ->
  (Start < Pos -> has_digit mem Start Pos) ->
  Start < value (FloatExponent mem End hi hd Start c Pos) ->
  has_digit mem Start (value (FloatExponent mem End hi hd Start c Pos)).
Proof.
  intros HS HP Hc Hinv. unfold FloatExponent. traced.
  destruct (is_char (mem c) "e" || is_char (mem c) "E");
    [|now apply FloatSuffix_digit].
  destruct (negb hi); [cbn; exact Hinv|].
  destruct (S c =? End) eqn:E1; [cbn; exact Hinv|]. apply Nat.eqb_neq in E1.
  traced. destruct (_ && _); [cbn; exact Hinv|].
  destruct (S (S c) =? End) eqn:E2; [cbn; exact Hinv|].
  apply Nat.eqb_neq in E2. traced.
  destruct (negb _); [cbn; exact Hinv|]. traced.
  destruct (value (SkipDigits mem End (End - S (S c)) (S (S c)) Pos))
    as [c' Pos'] eqn:ED.
  apply SkipDigits_digit with (Start := Start) in ED
    as [H1 [H2 [H3 H4]]]; [|lia|lia|assumption].
  cbn [fst snd]. apply FloatSuffix_digit; [apply H2; lia | exact H3].
Qed.

Lemma FloatDecimal_digit (hi : bool) (Start c Pos : nat) :
  Start <= Pos -> Pos <= c -> c < End ->
  (Start < Pos -> has_digit mem Start Pos) ->
  (hi = true -> has_digit mem Start c) ->
  Start < value (FloatDecimal mem End hi Start c Pos) ->
  has_digit mem Start (value (FloatDecimal mem End hi Start c Pos)).
Proof.
  intros HS HP Hc Hinv Hhi. unfold FloatDecimal. traced.
  destruct (is_char (mem c) "."); [|now apply FloatExponent_digit].
  traced.
  destruct (value (SkipDigits mem End (End - S c) (S c)
                              (if hi then S c else Pos)))
    as [c' Pos'] eqn:ED.
  apply SkipDigits_digit with (Start := Start) in ED
    as [H1 [H2 [H3 H4]]]; [|lia|lia|].
  2:{ destruct hi; [|assumption]. intros _.
      apply (has_digit_mono Start c); [lia | auto]. }
  cbn [fst snd]. rewrite value_CHECK_END. unfold at_end.
  assert (HP' : Pos <= Pos' <= c') by (destruct hi; lia).
  destruct (c' =? End) eqn:E; cbn [orb]; [exact H3|].
  apply Nat.eqb_neq in E.
  destruct (is_char (mem c') NUL); [exact H3|].
  apply FloatExponent_digit; try assumption; lia.
Qed.

End FloatHasDigit.

Section FloatHasDigitInteger.

Variable mem : nat -> ascii.
Variable End : nat.

Lemma FloatInteger_digit (Start c Pos : nat) :
  Start <= Pos -> Pos <= c -> c < End ->
  (Start < Pos -> has_digit mem Start Pos) ->
  Start < value (FloatInteger mem End Start c Pos) ->
  has_digit mem Start (value (FloatInteger mem End Start c Pos)).
Proof.
  intros HS HP Hc Hinv. unfold FloatInteger. traced.
  destruct (IsNum (mem c)) eqn:Ed.
  2:{ apply FloatDecimal_digit; try assumption. discriminate. }
  traced.
  destruct (value (SkipDigits mem End (End - c) c Pos)) as [c' Pos'] eqn:ED.
  pose proof ED as ED'.
  apply SkipDigits_digit with (Start := Start) in ED
    as [H1 [H2 [H3 H4]]]; [|lia|lia|assumption].
  apply SkipDigits_spec in ED' as [_ [_ [_ H5]]]; [|lia|lia].
  specialize (H5 Hc Ed).
  cbn [fst snd]. rewrite value_CHECK_END. unfold at_end.
  destruct (c' =? End) eqn:E; cbn [orb]; [exact H3|].
  apply Nat.eqb_neq in E.
  destruct (is_char (mem c') NUL); [exact H3|].
  apply FloatDecimal_digit; try assumption; try lia. intros _. now apply H4.
Qed.

End FloatHasDigitInteger.

(** X11.  Whatever [SkipFloatNumber] consumes holds a digit: a sign, a
    decimal point, an exponent letter or a suffix alone never make the
    position move. *)
Theorem SkipFloatNumber_consumes_digit (mem : nat -> ascii) (End Pos : nat) :
  Pos <= End ->
  Pos < value (SkipFloatNumber mem End Pos) ->
  has_digit mem Pos (value (SkipFloatNumber mem End Pos)).
Proof.
  intros HP. unfold SkipFloatNumber. cbv zeta. rewrite value_CHECK_END.
  unfold at_end. destruct (Pos =? End) eqn:E; cbn [orb]; [lia|].
  apply Nat.eqb_neq in E.
  destruct (is_char (mem Pos) NUL); [lia|]. traced.
  set (c := if is_char (mem Pos) "+" || is_char (mem Pos) "-"
            then S Pos else Pos).
  assert (Hc : Pos <= c <= End) by (subst c; destruct (_ || _); lia).
  rewrite value_CHECK_END.
  unfold at_end. destruct (c =? End) eqn:E2; cbn [orb]; [lia|].
  apply Nat.eqb_neq in E2.
  destruct (is_char (mem c) NUL); [lia|]. traced.
  destruct (is_char (mem c) "0") eqn:Ez.
  - traced. destruct (IsNum (mem (c + 1))).
    + cbn. intros _. exists c. split; [lia|].
      apply is_char_eq in Ez. now rewrite Ez.
    + apply FloatInteger_digit; lia.
  - cbn [value tret fst]. apply FloatInteger_digit; lia.
Qed.

(** The theorem on a signed number with a decimal point. *)
Lemma SkipFloatNumber_consumes_digit_witness :
  has_digit (buffer "-.5f") 0 (value (SkipFloatNumber (buffer "-.5f") 4 0)).
Proof.
  apply SkipFloatNumber_consumes_digit.
  - lia.
  - vm_compute. lia.
Defined.

(** * Further properties of the tokenizer *)

Section HandlerOutcomes.

Variable mem : nat -> ascii.
Variable SourceEnd : nat.
Variable GetTokenType : list ascii -> TokenType.

Lemma outcome_single (Tokens : list Token) (ty : TokenType)
      (DelimStart Pos : nat) :
  Pos < SourceEnd ->
  mem Pos <> quote ->
  In ty pushed_types ->
  HandlerOutcome mem SourceEnd GetTokenType Tokens DelimStart Pos
    (PushToken SourceEnd Tokens ty DelimStart Pos Pos DelimStart (S Pos)).
Proof.
  intros H Hq Hty. unfold PushToken. rewrite Nat.eqb_refl.
  apply OutcomePushes; [lia | assumption | now left].
Qed.

Lemma outcome_double (Tokens : list Token) (dty ty : TokenType)
      (DelimStart Pos : nat) :
  Pos < SourceEnd ->
  mem Pos <> quote ->
  In dty merged_types -> In ty pushed_types ->
  HandlerOutcome mem SourceEnd GetTokenType Tokens DelimStart Pos
    (if AddDoubleCharToken_applies mem Tokens DelimStart Pos Pos
     then Ok (ExtendLastToken SourceEnd Tokens dty Pos)
     else PushToken SourceEnd Tokens ty DelimStart Pos Pos DelimStart
                    (S Pos)).
Proof.
  intros H Hq Hd Ht.
  destruct (AddDoubleCharToken_applies mem Tokens DelimStart Pos Pos) eqn:E.
  - unfold AddDoubleCharToken_applies in E.
    apply andb_true_iff in E as [E _]. apply andb_true_iff in E as [E1 E2].
    apply Nat.eqb_eq in E2.
    apply OutcomeMerges; try assumption.
    destruct Tokens; [discriminate | congruence].
  - now apply outcome_single.
Qed.

Lemma not_quote (c a : ascii) :
  is_char c a = true -> is_char a quote = false -> c <> quote.
Proof.
  intros H1 H2 ->. apply is_char_eq in H1. subst a.
  now rewrite is_char_refl in H2.
Qed.

Lemma not_quote2 (c a b : ascii) :
  is_char c a || is_char c b = true ->
  is_char a quote = false -> is_char b quote = false -> c <> quote.
Proof.
  intros H Ha Hb. apply orb_true_iff in H as [H|H];
    eauto using not_quote.
Qed.

Lemma not_quote3 (c a b d : ascii) :
  is_char c a || is_char c b || is_char c d = true ->
  is_char a quote = false -> is_char b quote = false ->
  is_char d quote = false -> c <> quote.
Proof.
  intros H Ha Hb Hd. apply orb_true_iff in H as [H|H];
    eauto using not_quote, not_quote2.
Qed.

(** Every call of the handler with input left has one of the four
    outcomes. *)
Lemma TokenizeHandler_outcome (Tokens : list Token) (DelimStart Pos : nat) :
  DelimStart <= Pos -> Pos < SourceEnd ->
  HandlerOutcome mem SourceEnd GetTokenType Tokens DelimStart Pos
                 (TokenizeHandler mem SourceEnd GetTokenType Tokens
                                  DelimStart Pos).
Proof.
  intros Hd Hp. unfold TokenizeHandler. cbv zeta.
  replace (Pos =? SourceEnd) with false
    by (symmetry; apply Nat.eqb_neq; lia).
  destruct (is_char (mem Pos) "#") eqn:E0.
  { assert (Hq : mem Pos <> quote) by (eapply not_quote; eauto).
    pose proof (SkipLine_bounds mem SourceEnd Pos false) as HS.
    unfold SkipLine in *. cbv zeta in *. cbn [fst andb] in *.
    apply is_char_eq in E0.
    pose proof (advance_while_first mem SourceEnd
      (fun c => negb (is_char c NUL) && negb (IsNewLine c))
      (SourceEnd - Pos) Pos Hp) as HF.
    rewrite E0 in HF. specialize (HF eq_refl).
    unfold PushToken. rewrite Nat.eqb_refl.
    apply OutcomePushes; [lia | assumption | left; cbn; tauto]. }
  destruct (is_char (mem Pos) "=") eqn:E1.
  { assert (Hq : mem Pos <> quote) by (eapply not_quote; eauto).
    destruct (negb (empty Tokens) && (DelimStart =? Pos)) eqn:Ez;
      [|apply outcome_single; [assumption | assumption | cbn; tauto]].
    apply andb_true_iff in Ez as [Ez1 Ez2]. apply Nat.eqb_eq in Ez2.
    assert (Tokens <> []) by (destruct Tokens; [discriminate | congruence]).
    destruct (existsb _ assignment_prefixes).
    { apply OutcomeMerges; try assumption. cbn; tauto. }
    destruct (existsb _ comparison_prefixes).
    { apply OutcomeMerges; try assumption. cbn; tauto. }
    apply outcome_single; [assumption | assumption | cbn; tauto]. }
  destruct (is_char (mem Pos) "|" || is_char (mem Pos) "&") eqn:E2.
  { apply outcome_double; try assumption; try (cbn; tauto).
    eapply not_quote2; eauto. }
  destruct (is_char (mem Pos) "<" || is_char (mem Pos) ">") eqn:E3.
  { apply outcome_double; try assumption; try (cbn; tauto).
    eapply not_quote2; eauto. }
  destruct (is_char (mem Pos) "+" || is_char (mem Pos) "-") eqn:E4.
  { apply outcome_double; try assumption; try (cbn; tauto).
    eapply not_quote2; eauto. }
  destruct (is_char (mem Pos) ":") eqn:E5.
  { apply outcome_double; try assumption; try (cbn; tauto).
    eapply not_quote; eauto. }
  repeat match goal with
         | |- HandlerOutcome _ _ _ _ _ _
                (if is_char (mem Pos) quote then _ else _) => fail 1
         | |- HandlerOutcome _ _ _ _ _ _ (if ?b then _ else _) =>
             let E := fresh "E" in
             destruct b eqn:E;
             [apply outcome_single;
              [assumption
              | first [eapply not_quote; [exact E | reflexivity]
                      | eapply not_quote2; [exact E | reflexivity ..]
                      | eapply not_quote3; [exact E | reflexivity ..]]
              | cbn; tauto]|]
         end.
  destruct (is_char (mem Pos) quote) eqn:EQ.
  { apply is_char_eq in EQ.
    set (P := fun c => negb (is_char c NUL) && negb (is_char c quote)).
    pose proof (advance_while_ge mem SourceEnd P (SourceEnd - S Pos) (S Pos))
      as Hge.
    pose proof (advance_while_le mem SourceEnd P (SourceEnd - S Pos) (S Pos)
                                 ltac:(lia)) as Hle.
    pose proof (advance_while_all mem SourceEnd P (SourceEnd - S Pos) (S Pos))
      as Hall.
    pose proof (advance_while_stop mem SourceEnd P (SourceEnd - S Pos) (S Pos)
                                   ltac:(lia) (le_n _)) as Hstop.
    cbv zeta in Hstop.
    set (q := advance_while mem SourceEnd P (SourceEnd - S Pos) (S Pos)) in *.
    assert (Hin : inside_string mem Pos q).
    { intros i Hi. specialize (Hall i ltac:(lia)). unfold P in Hall.
      apply andb_true_iff in Hall as [H1 H2]. apply negb_true_iff in H1, H2.
      split; now apply is_char_neq. }
    replace (S Pos - 1) with Pos by lia.
    destruct (q =? SourceEnd) eqn:Eq; cbn [orb].
    { apply Nat.eqb_eq in Eq.
      apply (OutcomeThrows _ _ _ _ _ _ q); auto; lia. }
    apply Nat.eqb_neq in Eq.
    destruct (is_char (mem q) quote) eqn:Eq2; cbn [negb].
    2:{ apply (OutcomeThrows _ _ _ _ _ _ q); auto; try lia. right.
        destruct Hstop as [H|H]; [contradiction|]. unfold P in H.
        apply andb_false_iff in H as [H|H]; apply negb_false_iff in H;
          [now apply is_char_eq | congruence]. }
    apply is_char_eq in Eq2. unfold PushToken.
    replace (q =? DelimStart) with false
      by (symmetry; apply Nat.eqb_neq; lia).
    apply OutcomePushesString; auto; lia. }
  apply is_char_neq in EQ.
  pose proof (SkipIdentifier_bounds mem SourceEnd Pos) as HI.
  destruct (SkipIdentifier mem SourceEnd Pos) as [p1 e1]. cbn [fst] in *.
  destruct (Pos =? p1) eqn:Ep; cbn [negb].
  - apply Nat.eqb_eq in Ep. subst p1.
    pose proof (SkipFloatNumber_bounds mem SourceEnd Pos) as HF.
    set (p2 := value (SkipFloatNumber mem SourceEnd Pos)) in *.
    destruct (Pos =? p2) eqn:Ep2; cbn [negb].
    + apply Nat.eqb_eq in Ep2. rewrite <- Ep2.
      apply outcome_single; [assumption | assumption | cbn; tauto].
    + apply Nat.eqb_neq in Ep2.
      change (is_type NumericConstant Undefined) with false. cbv iota.
      unfold PushToken. rewrite Nat.eqb_refl.
      apply OutcomePushes; [lia | assumption | left; cbn; tauto].
  - apply Nat.eqb_neq in Ep.
    set (ty := GetTokenType (range mem Pos p1)).
    destruct (is_type ty Undefined) eqn:Et.
    + change (is_type Identifier Undefined) with false. cbv iota.
      unfold PushToken. rewrite Nat.eqb_refl.
      apply OutcomePushes; [lia | assumption | left; cbn; tauto].
    + rewrite Et. unfold PushToken. rewrite Nat.eqb_refl.
      apply OutcomePushes; [lia | assumption |]. right.
      split; [reflexivity | now apply is_type_neq].
Qed.

End HandlerOutcomes.

Section SplitStringMore.

Variable mem : nat -> ascii.
Variable End : nat.
Context {St : Type}.
Variable Handler : St -> nat -> nat -> result (St * nat * bool).

(** As [SplitString_loop_invariant], the step being given the gap that was
    skipped before the handler was called. *)
Lemma SplitString_loop_invariant_gap (Inv : St -> nat -> Prop) :
  (forall st Pos, Inv st Pos -> Pos <= End) ->
  (forall st DelimStart Pos e st' Pos' continue,
      Inv st DelimStart -> DelimStart < End -> DelimStart <= Pos <= End ->
      SkipDelimitersAndComments mem End DelimStart = Ok (Pos, e) ->
      Handler st DelimStart Pos = Ok (st', Pos', continue) ->
      Inv st' Pos' /\ (continue = false -> Pos' = End)) ->
  forall fuel st Pos st',
    Inv st Pos ->
    SplitString_loop mem End Handler fuel st Pos = Some (Finished st') ->
    Inv st' End.
Proof.
  intros Hbound Hstep. induction fuel as [|fuel IH]; intros st Pos st' HI;
    cbn [SplitString_loop]; [discriminate|].
  pose proof (Hbound _ _ HI) as HP.
  destruct (Pos =? End) eqn:E.
  { apply Nat.eqb_eq in E. subst Pos. now intros [= <-]. }
  apply Nat.eqb_neq in E.
  destruct (SkipDelimitersAndComments mem End Pos) as [[P1 e1]|p m] eqn:ES;
    [|discriminate].
  pose proof (SkipDelimitersAndComments_bounds _ _ _ _ _ HP ES) as HB.
  destruct (Handler st Pos P1) as [[[st1 P2] c]|p m] eqn:EH; [|discriminate].
  destruct (Hstep _ _ _ _ _ _ _ HI ltac:(lia) HB ES EH) as [HI2 Hc].
  destruct c; cbn [negb].
  - destruct ((P2 =? End) || negb (P1 =? P2)); [|discriminate].
    now apply (IH st1 P2).
  - intros [= <-]. now rewrite <- (Hc eq_refl).
Qed.

(** What is true of every pair thrown by the gap scanner or by the handler
    is true of the pair with which the loop ends. *)
Lemma SplitString_loop_raised (Q : nat -> string -> Prop) :
  (forall st DelimStart Pos st' Pos' continue,
      DelimStart <= Pos <= End ->
      Handler st DelimStart Pos = Ok (st', Pos', continue) -> Pos' <= End) ->
  (forall Pos p m,
      Pos <= End ->
      SkipDelimitersAndComments mem End Pos = Throw p m -> Q p m) ->
  (forall st DelimStart Pos p m,
      DelimStart <= Pos <= End ->
      Handler st DelimStart Pos = Throw p m -> Q p m) ->
  forall fuel st Pos p m,
    Pos <= End ->
    SplitString_loop mem End Handler fuel st Pos = Some (Raised p m) ->
    Q p m.
Proof.
  intros Hkeep Hgap Hh. induction fuel as [|fuel IH]; intros st Pos p m HP;
    cbn [SplitString_loop]; [discriminate|].
  destruct (Pos =? End); [discriminate|].
  destruct (SkipDelimitersAndComments mem End Pos) as [[P1 e1]|w s] eqn:ES.
  2:{ intros [= <- <-]. eapply Hgap; eauto. }
  apply SkipDelimitersAndComments_bounds in ES; [|assumption].
  destruct (Handler st Pos P1) as [[[st1 P2] c]|w s] eqn:EH.
  2:{ intros [= <- <-]. eapply Hh; eauto. }
  destruct c; cbn [negb]; [|discriminate].
  destruct ((P2 =? End) || negb (P1 =? P2)); [|discriminate].
  apply IH. eapply Hkeep; eauto.
Qed.

End SplitStringMore.

Section TokenizeMore.

Variable mem : nat -> ascii.
Variable SourceEnd : nat.
Variable GetTokenType : list ascii -> TokenType.

Lemma TokenizeHandler_keeps_bound (Tokens : list Token)
      (DelimStart Pos : nat) (Tokens' : list Token) (Pos' : nat)
      (continue : bool) :
  DelimStart <= Pos <= SourceEnd ->
  TokenizeHandler mem SourceEnd GetTokenType Tokens DelimStart Pos
  = Ok (Tokens', Pos', continue) ->
  Pos' <= SourceEnd.
Proof.
  intros HP EH. destruct (Nat.eq_dec Pos SourceEnd) as [->|Hne].
  - destruct (TokenizeHandler_stops_at_end mem SourceEnd GetTokenType
                                           Tokens DelimStart) as [st' Hs].
    rewrite Hs in EH. injection EH as _ <- _. lia.
  - pose proof (TokenizeHandler_makes_progress mem SourceEnd GetTokenType
                  Tokens DelimStart Pos Tokens' Pos' continue
                  (proj1 HP) ltac:(lia) EH). lia.
Qed.

(** A step of the tokenizer that is not a throw: the trailing token at the
    end of the input, or one of the three outcomes that return. *)
Lemma TokenizeHandler_returns (Tokens : list Token) (DelimStart Pos : nat)
      (Tokens' : list Token) (Pos' : nat) (continue : bool) :
  DelimStart < SourceEnd -> DelimStart <= Pos <= SourceEnd ->
  TokenizeHandler mem SourceEnd GetTokenType Tokens DelimStart Pos
  = Ok (Tokens', Pos', continue) ->
  (continue = false -> Pos' = SourceEnd)
  /\ ((Pos = SourceEnd /\ Pos' = SourceEnd
       /\ Tokens' = Tokens ++ [CreateToken Undefined DelimStart SourceEnd
                                           SourceEnd SourceEnd])
      \/ (Pos < SourceEnd
          /\ HandlerOutcome mem SourceEnd GetTokenType Tokens DelimStart Pos
                            (Ok (Tokens', Pos', continue))
          /\ HandlerCase mem SourceEnd GetTokenType Tokens DelimStart Pos
                         (Ok (Tokens', Pos', continue)))).
Proof.
  intros Hds HP EH. destruct (Nat.eq_dec Pos SourceEnd) as [->|Hne].
  - unfold TokenizeHandler in EH. rewrite Nat.eqb_refl in EH.
    injection EH as <- <- <-. split; [reflexivity|]. left. auto.
  - pose proof (TokenizeHandler_outcome mem SourceEnd GetTokenType Tokens
                  DelimStart Pos (proj1 HP) ltac:(lia)) as HO.
    pose proof (TokenizeHandler_cases mem SourceEnd GetTokenType Tokens
                  DelimStart Pos (proj1 HP) ltac:(lia)) as HC.
    pose proof (TokenizeHandler_makes_progress mem SourceEnd GetTokenType
                  Tokens DelimStart Pos Tokens' Pos' continue
                  (proj1 HP) ltac:(lia) EH) as [_ Hc].
    rewrite EH in HO, HC. split.
    + intros ->. symmetry in Hc. now apply negb_eqb_false in Hc.
    + right. split; [lia | now split].
Qed.

End TokenizeMore.

(** ** The tokens of [Tokenize] *)

Lemma token_chain_snoc (l : list Token) (t : Token) (from : nat) :
  token_chain from (l ++ [t])
  <-> token_chain from l
      /\ chain_end from l <= DelimStart t /\ well_ordered t.
Proof.
  revert from. induction l as [|u l IH]; intros from; cbn.
  - tauto.
  - rewrite IH. tauto.
Qed.

Lemma chain_end_snoc (l : list Token) (t : Token) (from : nat) :
  chain_end from (l ++ [t]) = LiteralEnd t.
Proof.
  revert from. induction l as [|u l IH]; intros from; cbn; auto.
Qed.

(** What a chain says of its tokens one by one and two by two. *)
Lemma token_chain_facts (l : list Token) (from : nat) :
  token_chain from l ->
  from <= chain_end from l
  /\ (forall t, In t l ->
        from <= DelimStart t /\ well_ordered t
        /\ LiteralEnd t <= chain_end from l)
  /\ (forall i j t u,
        i < j -> nth_error l i = Some t -> nth_error l j = Some u ->
        LiteralEnd t <= DelimStart u).
Proof.
  revert from. induction l as [|a l IH]; intros from; cbn [token_chain].
  - intros _. cbn. split; [lia|]. split; [contradiction|].
    intros i j t u _ Hi. now destruct i.
  - intros [Hf [Hw Hc]]. destruct (IH _ Hc) as [H1 [H2 H3]].
    cbn [chain_end]. unfold well_ordered in Hw.
    split; [lia|]. split.
    + intros t [<-|Ht].
      * split; [lia|]. split; [assumption | lia].
      * destruct (H2 t Ht) as [Ha [Hb Hd]].
        split; [lia|]. now split.
    + intros i j t u Hij Hi Hj. destruct j as [|j]; [lia|].
      cbn in Hj. destruct i as [|i].
      * cbn in Hi. injection Hi as <-.
        apply nth_error_In in Hj. now apply H2 in Hj.
      * cbn in Hi. apply (H3 i j); auto. lia.
Qed.

Lemma snoc_length_neq (l : list Token) (x y : Token) :
  l <> [] -> l ++ [x] <> set_back l y.
Proof.
  intros Hnil E. destruct (exists_last Hnil) as [l' [t ->]].
  rewrite set_back_snoc in E. apply (f_equal (@List.length Token)) in E.
  rewrite !length_app in E. cbn in E. lia.
Qed.

Section TokenizerInvariant.

Variable mem : nat -> ascii.
Variable SourceEnd : nat.
Variable GetTokenType : list ascii -> TokenType.

(** A merge extends a token whose literal is not empty. *)
Lemma merge_back_nonempty (Tokens : list Token) (DelimStart_ Pos : nat)
      (ty : TokenType) :
  Tokens <> [] ->
  HandlerCase mem SourceEnd GetTokenType Tokens DelimStart_ Pos
              (Ok (ExtendLastToken SourceEnd Tokens ty Pos)) ->
  LiteralStart (back Tokens) < LiteralEnd (back Tokens).
Proof.
  intros Hnil HC. remember (Ok (ExtendLastToken SourceEnd Tokens ty Pos)) as r
    eqn:Er.
  destruct HC as [ | ty' _ _ _ Hm | ty' P' _ _ | q _ _ _ ].
  - discriminate.
  - eapply merge_literal_nonempty; eassumption.
  - exfalso. unfold ExtendLastToken in Er. injection Er as E _ _.
    now apply snoc_length_neq in E.
  - exfalso. unfold ExtendLastToken in Er. injection Er as E _ _.
    now apply snoc_length_neq in E.
Qed.

Lemma merged_not_string (ty : TokenType) :
  In ty merged_types -> ty <> StringConstant.
Proof.
  intros H ->. cbn in H.
  repeat (destruct H as [H|H]; [discriminate|]). contradiction.
Qed.

Lemma pushed_not_string (ty : TokenType) :
  In ty pushed_types -> ty <> StringConstant.
Proof.
  intros H ->. cbn in H.
  repeat (destruct H as [H|H]; [discriminate|]). contradiction.
Qed.

Lemma tokenizer_inv_init :
  tokenizer_inv mem SourceEnd GetTokenType [EmptyToken] 0.
Proof.
  unfold tokenizer_inv. cbn. unfold well_ordered. cbn.
  repeat split; try lia.
  - constructor; [|constructor]. left. cbn. auto.
  - constructor; [|constructor]. discriminate.
  - exists []. split; [reflexivity | constructor].
Qed.

(** The parts of the invariant when a token is added at the back. *)
Lemma tokenizer_inv_push (Tokens : list Token) (DelimStart_ Pos Pos' : nat)
      (t : Token) (e : bool) :
  tokenizer_inv mem SourceEnd GetTokenType Tokens DelimStart_ ->
  DelimStart_ < SourceEnd -> Pos' <= SourceEnd ->
  (DelimStart_ < Pos' \/ (DelimStart_ < SourceEnd /\ Pos' = SourceEnd)) ->
  SkipDelimitersAndComments mem SourceEnd DelimStart_ = Ok (Pos, e) ->
  DelimStart t = DelimStart_ -> DelimEnd t = Pos ->
  well_ordered t -> LiteralEnd t <= Pos' ->
  type_accounted GetTokenType t ->
  (GetType t = StringConstant ->
   string_between_quotes mem SourceEnd t
   \/ exists s, GetTokenType s = StringConstant) ->
  tokenizer_inv mem SourceEnd GetTokenType (Tokens ++ [t]) Pos'.
Proof.
  intros [_ [Hch [Hce [Hlen [Hty [Hstr [rest [-> Hgap]]]]]]]]
         Hds HP' Hadv ES Hs He Hw Hle Hta Hts.
  unfold tokenizer_inv. split; [assumption|]. split.
  { apply token_chain_snoc. split; [assumption|]. split; [lia | assumption]. }
  split; [rewrite chain_end_snoc; assumption|].
  split; [rewrite length_app; cbn [List.length] in *; lia|].
  split; [apply Forall_app; split; [assumption | now constructor]|].
  split; [apply Forall_app; split; [assumption | now constructor]|].
  exists (rest ++ [t]). split; [reflexivity|].
  apply Forall_app. split; [assumption|]. constructor; [|constructor].
  exists e. now rewrite Hs, He.
Qed.

Lemma tokenizer_inv_step
      (Tokens : list Token) (DelimStart_ Pos : nat) (e : bool)
      (Tokens' : list Token) (Pos' : nat) (continue : bool) :
  tokenizer_inv mem SourceEnd GetTokenType Tokens DelimStart_ ->
  DelimStart_ < SourceEnd -> DelimStart_ <= Pos <= SourceEnd ->
  SkipDelimitersAndComments mem SourceEnd DelimStart_ = Ok (Pos, e) ->
  TokenizeHandler mem SourceEnd GetTokenType Tokens DelimStart_ Pos
  = Ok (Tokens', Pos', continue) ->
  tokenizer_inv mem SourceEnd GetTokenType Tokens' Pos'
  /\ (continue = false -> Pos' = SourceEnd).
Proof.
  intros HI Hds HP ES EH.
  destruct (TokenizeHandler_returns mem SourceEnd GetTokenType Tokens
              DelimStart_ Pos Tokens' Pos' continue Hds HP EH)
    as [Hc [[-> [-> ->]]|[Hlt [HO HC]]]]; (split; [|exact Hc]).
  - (* the trailing token *)
    eapply tokenizer_inv_push; try eassumption; try reflexivity;
      unfold well_ordered; cbn; try lia.
    + left. cbn. auto.
    + discriminate.
  - inversion HO as [ | ty Hty Hnil Hd | ty P' HP' Hq Hty | q Hq Hq1 Hq2 Hin ];
      subst.
    + (* merge *)
      pose proof (merge_back_nonempty _ _ _ _ Hnil HC) as Hlit.
      destruct HI as [_ [Hch [Hce [Hlen [Hta [Hstr [rest [-> Hgap]]]]]]]].
      destruct (exists_last (l := rest)) as [rest' [t ->]].
      { intros ->. cbn in Hlit. lia. }
      rewrite app_comm_cons in *. rewrite back_snoc in *.
      rewrite set_back_snoc.
      apply token_chain_snoc in Hch as [Hch [Hs Hw]].
      rewrite chain_end_snoc in Hce.
      apply Forall_app in Hta as [Hta _].
      apply Forall_app in Hstr as [Hstr _].
      rewrite <- app_comm_cons in *.
      apply Forall_app in Hgap as [Hgap Hg]. inversion Hg as [|? ? Hgt _].
      subst. unfold well_ordered in Hw.
      unfold tokenizer_inv. split; [lia|]. split.
      { rewrite app_comm_cons. apply token_chain_snoc.
        split; [assumption|]. split; [exact Hs|].
        unfold well_ordered. cbn. lia. }
      split.
      { rewrite app_comm_cons, chain_end_snoc. cbn. lia. }
      split.
      { cbn [List.length] in *. rewrite length_app in *. cbn in *. lia. }
      split.
      { rewrite app_comm_cons. apply Forall_app. split; [assumption|].
        constructor; [|constructor]. left.
        apply in_or_app. right. apply in_or_app. left. exact Hty. }
      split.
      { rewrite app_comm_cons. apply Forall_app. split; [assumption|].
        constructor; [|constructor]. cbn. intros E.
        now apply merged_not_string in Hty. }
      exists (rest' ++ [ExtendLiteral (SetType t ty) Pos (Pos + 1)]).
      split; [reflexivity|]. apply Forall_app. split; [assumption|].
      constructor; [|constructor]. exact Hgt.
    + (* push *)
      eapply tokenizer_inv_push; try eassumption; try reflexivity;
        unfold well_ordered; cbn; try lia.
      * destruct Hty as [Hty|[Hty _]].
        -- left. apply in_or_app. left. exact Hty.
        -- right. cbn [GetType Type_]. eauto.
      * cbn [GetType Type_]. intros ->. destruct Hty as [Hty|[Hty _]].
        -- now apply pushed_not_string in Hty.
        -- right. eauto.
    + (* string constant *)
      eapply tokenizer_inv_push; try eassumption; try reflexivity;
        unfold well_ordered; cbn; try lia.
      * left. cbn. auto 30.
      * intros _. left. unfold string_between_quotes. cbn.
        repeat split; try assumption; try lia; apply Hin; assumption.
Qed.

(** The invariant holds of what [Tokenize] returns. *)
Lemma Tokenize_inv (fuel : nat) (Tokens : list Token) :
  Tokenize mem SourceEnd GetTokenType fuel = Some (Tokens_ Tokens) ->
  tokenizer_inv mem SourceEnd GetTokenType Tokens SourceEnd.
Proof.
  unfold Tokenize, SplitString.
  destruct (SplitString_loop _ _ _ _ _ _) as [[l|p m|m]|] eqn:ES;
    try discriminate.
  intros [= ->].
  apply (SplitString_loop_invariant_gap mem SourceEnd
           (TokenizeHandler mem SourceEnd GetTokenType)
           (tokenizer_inv mem SourceEnd GetTokenType)) in ES.
  - exact ES.
  - now intros st Pos [H _].
  - intros. eapply tokenizer_inv_step; eassumption.
  - apply tokenizer_inv_init.
Qed.

End TokenizerInvariant.

(** ** Progress and errors of the tokenizer *)

Section TokenizeOutcomes.

Variable mem : nat -> ascii.
Variable SourceEnd : nat.
Variable GetTokenType : list ascii -> TokenType.

(** With input left the handler returns, having consumed a character at
    least, or it throws at a quote that opens a string constant which is
    never closed. *)
Lemma TokenizeHandler_returns_or_throws (Tokens : list Token)
      (DelimStart_ Pos : nat) :
  DelimStart_ <= Pos -> Pos < SourceEnd ->
  (exists Tokens' Pos' continue,
      TokenizeHandler mem SourceEnd GetTokenType Tokens DelimStart_ Pos
      = Ok (Tokens', Pos', continue)
      /\ Pos < Pos' <= SourceEnd
      /\ continue = negb (Pos' =? SourceEnd))
  \/ (TokenizeHandler mem SourceEnd GetTokenType Tokens DelimStart_ Pos
      = Throw Pos unmatched_quotes
      /\ string_left_open mem SourceEnd Pos).
Proof.
  intros Hd HP.
  pose proof (TokenizeHandler_outcome mem SourceEnd GetTokenType Tokens
                DelimStart_ Pos Hd HP) as HO.
  destruct (TokenizeHandler mem SourceEnd GetTokenType Tokens DelimStart_ Pos)
    as [[[T' P'] c]|q s] eqn:EH.
  - left. exists T', P', c. split; [reflexivity|].
    apply (TokenizeHandler_makes_progress mem SourceEnd GetTokenType
             Tokens DelimStart_ Pos T' P' c Hd HP EH).
  - right. inversion HO as [ Stop Hq HS Hin Hstop | | | ]; subst.
    split; [reflexivity|]. unfold string_left_open.
    split; [assumption|]. split; [assumption|]. exists Stop. auto.
Qed.

Lemma SkipDelimitersAndComments_raises (Pos p : nat) (m : string) :
  Pos <= SourceEnd ->
  SkipDelimitersAndComments mem SourceEnd Pos = Throw p m ->
  m = unterminated_comment /\ comment_left_open mem SourceEnd p.
Proof.
  intros HP. unfold SkipDelimitersAndComments.
  destruct (SkipDelimitersAndComments_loop mem SourceEnd _ Pos)
    as [r|q' s'] eqn:EL; [discriminate|].
  intros [= <- <-].
  apply SkipDelimitersAndComments_loop_throws in EL; [|assumption].
  intuition.
Qed.

Lemma SplitString_raised_reason (fuel : nat) (Tokens : list Token)
      (Pos p : nat) (m : string) :
  Pos <= SourceEnd ->
  SplitString_loop mem SourceEnd (TokenizeHandler mem SourceEnd GetTokenType)
                   fuel Tokens Pos = Some (Raised p m) ->
  genuine_error mem SourceEnd p m.
Proof.
  intros HP.
  apply (SplitString_loop_raised mem SourceEnd
           (TokenizeHandler mem SourceEnd GetTokenType)
           (genuine_error mem SourceEnd)).
  - intros st DS P st' Pos' c HB EH.
    eapply TokenizeHandler_keeps_bound; eassumption.
  - intros P q s HB ES. left.
    eapply SkipDelimitersAndComments_raises; eassumption.
  - intros st DS P q s HB EH.
    destruct (Nat.eq_dec P SourceEnd) as [->|Hne].
    + destruct (TokenizeHandler_stops_at_end mem SourceEnd GetTokenType
                                             st DS) as [st' Hs].
      rewrite Hs in EH. discriminate.
    + destruct (TokenizeHandler_returns_or_throws st DS P (proj1 HB)
                                                  ltac:(lia))
        as [[T' [P' [c [E _]]]]|[E Hopen]]; rewrite E in EH;
        [discriminate|].
      injection EH as <- <-. right. now split.
  - exact HP.
Qed.

(** The outcome of [Tokenize] with enough fuel. *)
Lemma Tokenize_ends :
  exists r,
    (forall fuel, SourceEnd < fuel ->
                  Tokenize mem SourceEnd GetTokenType fuel = Some r)
    /\ (forall m, r <> DebugAssertion m)
    /\ (forall p m w,
          r = RuntimeError p m w ->
          w = unable_to_tokenize /\ genuine_error mem SourceEnd p m).
Proof.
  destruct (SplitString_loop_terminates mem SourceEnd
              (TokenizeHandler mem SourceEnd GetTokenType)
              (TokenizeHandler_makes_progress mem SourceEnd GetTokenType)
              (TokenizeHandler_stops_at_end mem SourceEnd GetTokenType)
              SourceEnd 0 [EmptyToken] ltac:(lia) ltac:(lia))
    as [r [Hr Hv]].
  unfold Tokenize, SplitString.
  destruct r as [Tokens|p m|m].
  - exists (Tokens_ Tokens). split; [|split; discriminate].
    intros fuel Hf. rewrite Hr by lia. reflexivity.
  - exists (RuntimeError p m unable_to_tokenize).
    split; [|split; [discriminate|]].
    + intros fuel Hf. rewrite Hr by lia. reflexivity.
    + intros p' m' w' [= <- <- <-]. split; [reflexivity|].
      apply (SplitString_raised_reason (S SourceEnd) [EmptyToken] 0);
        [lia|]. apply Hr. lia.
  - now destruct (Hv m).
Qed.

End TokenizeOutcomes.

(** C8.  Progress.  An iteration of the splitter driven by the handler of
    [Tokenize] that starts with input left ends in one of three ways: the
    gap scanner throws at a multi-line comment that is never closed; the
    handler returns, the position is strictly further on, the handler
    itself has consumed a character at least when the gap did not reach the
    end, and it asks to go on exactly when the end is not reached; or the
    handler throws at a quote whose string constant is never closed.  Hence
    [Tokenize] ends on every input once the fuel exceeds the input's
    length, with the same outcome for any such fuel; that outcome is never
    the splitter's [VERIFY] firing, and it is an exception only for one of
    the two reasons above.  On an input of one character, with two units of
    fuel, it returns tokens, but for the lone quote, on which it throws. *)
Theorem Tokenize_progress (mem : nat -> ascii) (SourceEnd : nat)
        (GetTokenType : list ascii -> TokenType) :
  (forall Tokens Pos,
      Pos < SourceEnd ->
      (exists p,
          SkipDelimitersAndComments mem SourceEnd Pos
          = Throw p unterminated_comment
          /\ comment_left_open mem SourceEnd p)
      \/ (exists LiteralPos e,
             SkipDelimitersAndComments mem SourceEnd Pos
             = Ok (LiteralPos, e)
             /\ ((exists Tokens' Pos' continue,
                     TokenizeHandler mem SourceEnd GetTokenType
                                     Tokens Pos LiteralPos
                     = Ok (Tokens', Pos', continue)
                     /\ Pos < Pos' <= SourceEnd
                     /\ (LiteralPos < SourceEnd -> LiteralPos < Pos')
                     /\ continue = negb (Pos' =? SourceEnd))
                 \/ (TokenizeHandler mem SourceEnd GetTokenType
                                     Tokens Pos LiteralPos
                     = Throw LiteralPos unmatched_quotes
                     /\ string_left_open mem SourceEnd LiteralPos))))
  /\ (exists r,
         (forall fuel, SourceEnd < fuel ->
                       Tokenize mem SourceEnd GetTokenType fuel = Some r)
         /\ (forall m, r <> DebugAssertion m)
         /\ (forall p m w,
               r = RuntimeError p m w ->
               (m = unterminated_comment
                /\ comment_left_open mem SourceEnd p)
               \/ (m = unmatched_quotes
                   /\ string_left_open mem SourceEnd p)))
  /\ (forall c : ascii,
         (c <> quote ->
          exists Tokens,
            Tokenize (fun _ => c) 1 GetTokenType 2 = Some (Tokens_ Tokens))
         /\ (c = quote ->
             Tokenize (fun _ => c) 1 GetTokenType 2
             = Some (RuntimeError 0 unmatched_quotes unable_to_tokenize))).
Proof.
  split; [|split].
  - intros Tokens Pos HP.
    destruct (SkipDelimitersAndComments mem SourceEnd Pos)
      as [[P1 e]|p m] eqn:ES.
    + right. exists P1, e. split; [reflexivity|].
      apply SkipDelimitersAndComments_bounds in ES; [|lia].
      destruct (Nat.eq_dec P1 SourceEnd) as [->|Hne].
      * left.
        destruct (TokenizeHandler_stops_at_end mem SourceEnd GetTokenType
                                               Tokens Pos) as [st' Hs].
        exists st', SourceEnd, false. split; [exact Hs|].
        split; [lia|]. split; [lia|]. now rewrite Nat.eqb_refl.
      * destruct (TokenizeHandler_returns_or_throws mem SourceEnd
                    GetTokenType Tokens Pos P1 (proj1 ES) ltac:(lia))
          as [[T' [P' [c [E [Hb Hc]]]]]|[E Hopen]].
        -- left. exists T', P', c. split; [exact E|].
           split; [lia|]. split; [lia | exact Hc].
        -- right. now split.
    + left. exists p.
      apply SkipDelimitersAndComments_raises in ES as [-> Ho]; [|lia].
      now split.
  - destruct (Tokenize_ends mem SourceEnd GetTokenType) as [r [Hr [Hv He]]].
    exists r. split; [exact Hr|]. split; [exact Hv|].
    intros p m w E. now apply He in E.
  - intros c.
    destruct (Tokenize_ends (fun _ => c) 1 GetTokenType) as [r [Hr [Hv He]]].
    specialize (Hr 2 ltac:(lia)). split.
    + intros Hc. destruct r as [Tokens|p m w|m].
      * now exists Tokens.
      * exfalso. destruct (He p m w eq_refl) as [_ [[_ Ho]|[_ Ho]]].
        -- destruct Ho as [Ho _]. lia.
        -- destruct Ho as [_ [Ho _]]. contradiction.
      * now destruct (Hv m).
    + intros ->. vm_compute. reflexivity.
Qed.

(** The theorem on the text [a +=]: the iteration that starts after the
    identifier skips the space and its handler consumes the plus sign; the
    whole run returns tokens. *)
Lemma Tokenize_progress_witness :
  (exists Tokens' Pos' continue,
      TokenizeHandler (buffer "a +=") 4 no_keywords
                      [EmptyToken; CreateToken Identifier 0 0 0 1] 1 2
      = Ok (Tokens', Pos', continue)
      /\ 1 < Pos' <= 4 /\ continue = negb (Pos' =? 4))
  /\ exists Tokens,
      Tokenize (buffer "a +=") 4 no_keywords 5 = Some (Tokens_ Tokens).
Proof.
  destruct (Tokenize_progress (buffer "a +=") 4 no_keywords)
    as [HA [[r [Hr [Hv He]]] _]].
  split.
  - destruct (HA [EmptyToken; CreateToken Identifier 0 0 0 1] 1
                 ltac:(lia)) as [[p [E _]]|[P1 [e [E H]]]].
    + vm_compute in E. discriminate.
    + vm_compute in E. injection E as <- <-.
      destruct H as [[T' [P' [c [EH [Hb [_ Hc]]]]]]|[EH _]].
      * exists T', P', c. split; [exact EH|]. split; [exact Hb | exact Hc].
      * vm_compute in EH. discriminate.
  - pose proof (Hr 5 ltac:(lia)) as H5. destruct r as [Tokens|p m w|m].
    + now exists Tokens.
    + vm_compute in H5. discriminate.
    + now destruct (Hv m).
Defined.

(** X12.  [Tokenize] throws for two reasons only: a multi-line comment that
    is never closed (no star-slash follows its opening before the end of
    the input or the first terminator), reported at the slash that opens
    it, and a string constant that is not closed before the end of the
    input or the first terminator, reported at its opening quote.  The
    exception always carries the same message. *)
Theorem Tokenize_error (mem : nat -> ascii) (SourceEnd : nat)
        (GetTokenType : list ascii -> TokenType) (fuel p : nat)
        (m w : string) :
  Tokenize mem SourceEnd GetTokenType fuel = Some (RuntimeError p m w) ->
  w = unable_to_tokenize
  /\ ((m = unterminated_comment /\ comment_left_open mem SourceEnd p)
      \/ (m = unmatched_quotes /\ string_left_open mem SourceEnd p)).
Proof.
  unfold Tokenize, SplitString.
  destruct (SplitString_loop _ _ _ _ _ _) as [[l|q s|s]|] eqn:ES;
    try discriminate.
  intros [= -> -> <-]. split; [reflexivity|].
  apply (SplitString_raised_reason mem SourceEnd GetTokenType fuel
                                   [EmptyToken] 0); [lia | exact ES].
Qed.

(** The theorem on a closed comment followed by one that is not: the error
    is at the second one. *)
Lemma Tokenize_error_witness :
  unable_to_tokenize = unable_to_tokenize
  /\ ((unterminated_comment = unterminated_comment
       /\ comment_left_open (buffer "/*a*/ /* b") 10 6)
      \/ (unterminated_comment = unmatched_quotes
          /\ string_left_open (buffer "/*a*/ /* b") 10 6)).
Proof.
  apply (Tokenize_error (buffer "/*a*/ /* b") 10 no_keywords 11).
  vm_compute. reflexivity.
Defined.

(** X13.  The tokens that [Tokenize] returns are in the order of the
    input and do not overlap: in each token the delimiters come before the
    literal, nothing ends after the end of the input, and a token ends
    before the delimiters of every later token start. *)
Theorem Tokenize_tokens_ordered (mem : nat -> ascii) (SourceEnd : nat)
        (GetTokenType : list ascii -> TokenType) (fuel : nat)
        (Tokens : list Token) :
  Tokenize mem SourceEnd GetTokenType fuel = Some (Tokens_ Tokens) ->
  (forall t, In t Tokens -> well_ordered t /\ LiteralEnd t <= SourceEnd)
  /\ (forall i j t u,
        i < j -> nth_error Tokens i = Some t -> nth_error Tokens j = Some u ->
        LiteralEnd t <= DelimStart u).
Proof.
  intros H. apply Tokenize_inv in H as [_ [Hch [Hce _]]].
  destruct (token_chain_facts _ _ Hch) as [_ [H2 H3]]. split.
  - intros t Ht. destruct (H2 t Ht) as [_ [Hw Hl]]. split; [assumption|lia].
  - exact H3.
Qed.

(** The theorem on a comment, two identifiers and an operator. *)
Lemma Tokenize_tokens_ordered_witness :
  (forall t,
      In t [EmptyToken; CreateToken Identifier 0 6 6 7;
            CreateToken MathOp 7 7 7 8; CreateToken Identifier 8 9 9 10] ->
      well_ordered t /\ LiteralEnd t <= 10)
  /\ (forall i j t u,
        i < j ->
        nth_error [EmptyToken; CreateToken Identifier 0 6 6 7;
                   CreateToken MathOp 7 7 7 8;
                   CreateToken Identifier 8 9 9 10] i = Some t ->
        nth_error [EmptyToken; CreateToken Identifier 0 6 6 7;
                   CreateToken MathOp 7 7 7 8;
                   CreateToken Identifier 8 9 9 10] j = Some u ->
        LiteralEnd t <= DelimStart u).
Proof.
  apply (Tokenize_tokens_ordered (buffer "/*c*/ a+ b") 10 no_keywords 11).
  vm_compute. reflexivity.
Defined.

(** X14.  The type of every token that [Tokenize] returns is one of the
    types the tokenizer gives by itself or an answer of the classifier; the
    two angle-bracket types are never given by the tokenizer itself. *)
Theorem Tokenize_token_types (mem : nat -> ascii) (SourceEnd : nat)
        (GetTokenType : list ascii -> TokenType) (fuel : nat)
        (Tokens : list Token) (t : Token) :
  Tokenize mem SourceEnd GetTokenType fuel = Some (Tokens_ Tokens) ->
  In t Tokens ->
  type_accounted GetTokenType t
  /\ (GetType t = OpenAngleBracket \/ GetType t = ClosingAngleBracket ->
      exists s, GetTokenType s = GetType t).
Proof.
  intros H Ht. apply Tokenize_inv in H as [_ [_ [_ [_ [Hty _]]]]].
  rewrite Forall_forall in Hty. specialize (Hty t Ht).
  split; [assumption|]. intros Ha. destruct Hty as [Hin|Hs]; [|assumption].
  exfalso. cbn in Hin.
  destruct Ha as [Ha|Ha]; rewrite Ha in Hin;
    repeat (destruct Hin as [Hin|Hin]; [discriminate|]); contradiction.
Qed.

(** The theorem on a comparison: the angle bracket is a comparison
    operator. *)
Lemma Tokenize_token_types_witness :
  type_accounted no_keywords (CreateToken ComparisonOp 1 1 1 2)
  /\ (GetType (CreateToken ComparisonOp 1 1 1 2) = OpenAngleBracket
      \/ GetType (CreateToken ComparisonOp 1 1 1 2) = ClosingAngleBracket ->
      exists s, no_keywords s = GetType (CreateToken ComparisonOp 1 1 1 2)).
Proof.
  apply (Tokenize_token_types (buffer "a<b") 3 no_keywords 4
           [EmptyToken; CreateToken Identifier 0 0 0 1;
            CreateToken ComparisonOp 1 1 1 2; CreateToken Identifier 2 2 2 3]).
  - vm_compute. reflexivity.
  - cbn. auto.
Defined.

(** X15.  When delimiters or comments come before the character at which
    the handler of [Tokenize] is called, the handler never extends the last
    token: it adds one token, whose delimiters are that gap. *)
Theorem TokenizeHandler_after_gap (mem : nat -> ascii) (SourceEnd : nat)
        (GetTokenType : list ascii -> TokenType) (Tokens : list Token)
        (DelimStart_ Pos : nat) (Tokens' : list Token) (Pos' : nat)
        (continue : bool) :
  DelimStart_ < Pos -> Pos <= SourceEnd ->
  TokenizeHandler mem SourceEnd GetTokenType Tokens DelimStart_ Pos
  = Ok (Tokens', Pos', continue) ->
  exists t,
    Tokens' = Tokens ++ [t]
    /\ DelimStart t = DelimStart_ /\ DelimEnd t = Pos
    /\ Pos <= LiteralStart t.
Proof.
  intros Hgap HP EH.
  destruct (TokenizeHandler_returns mem SourceEnd GetTokenType Tokens
              DelimStart_ Pos Tokens' Pos' continue ltac:(lia) ltac:(lia) EH)
    as [_ [[-> [-> ->]]|[Hlt [HO _]]]].
  - eexists. split; [reflexivity|]. cbn. auto.
  - inversion HO as [ | ty Hty Hnil Hd | ty P' HP' Hq Hty | q Hq Hq1 Hq2 Hin ];
      subst.
    + lia.
    + eexists. split; [reflexivity|]. cbn. auto.
    + eexists. split; [reflexivity|]. cbn. auto.
Qed.

(** The theorem on the second plus sign of [+ +], after the space. *)
Lemma TokenizeHandler_after_gap_witness :
  exists t,
    [EmptyToken; CreateToken MathOp 0 0 0 1; CreateToken MathOp 1 2 2 3]
    = [EmptyToken; CreateToken MathOp 0 0 0 1] ++ [t]
    /\ DelimStart t = 1 /\ DelimEnd t = 2 /\ 2 <= LiteralStart t.
Proof.
  apply (TokenizeHandler_after_gap (buffer "+ +") 3 no_keywords
           [EmptyToken; CreateToken MathOp 0 0 0 1] 1 2
           [EmptyToken; CreateToken MathOp 0 0 0 1; CreateToken MathOp 1 2 2 3]
           3 false).
  - lia.
  - lia.
  - vm_compute. reflexivity.
Defined.

(** X16.  [Tokenize] returns at most one token for each character of the
    input, the empty leading token apart. *)
Theorem Tokenize_token_count (mem : nat -> ascii) (SourceEnd : nat)
        (GetTokenType : list ascii -> TokenType) (fuel : nat)
        (Tokens : list Token) :
  Tokenize mem SourceEnd GetTokenType fuel = Some (Tokens_ Tokens) ->
  List.length Tokens <= S SourceEnd.
Proof.
  intros H. now apply Tokenize_inv in H as [_ [_ [_ [Hlen _]]]].
Qed.

(** The theorem on three one-character tokens. *)
Lemma Tokenize_token_count_witness :
  List.length [EmptyToken; CreateToken Identifier 0 0 0 1;
               CreateToken MathOp 1 1 1 2; CreateToken Identifier 2 2 2 3]
  <= S 3.
Proof.
  apply (Tokenize_token_count (buffer "a+b") 3 no_keywords 4).
  vm_compute. reflexivity.
Defined.

(** X17.  When the classifier never answers [StringConstant], every string
    constant that [Tokenize] returns lies between two quotes of the input:
    the opening quote comes right after the token's delimiters, the literal
    starts after it and ends at the closing quote, and there is neither a
    quote nor a terminator between the two. *)
Theorem Tokenize_string_constants (mem : nat -> ascii) (SourceEnd : nat)
        (GetTokenType : list ascii -> TokenType) (fuel : nat)
        (Tokens : list Token) (t : Token) :
  (forall s, GetTokenType s <> StringConstant) ->
  Tokenize mem SourceEnd GetTokenType fuel = Some (Tokens_ Tokens) ->
  In t Tokens -> GetType t = StringConstant ->
  string_between_quotes mem SourceEnd t.
Proof.
  intros HG H Ht Hs.
  apply Tokenize_inv in H as [_ [_ [_ [_ [_ [Hstr _]]]]]].
  rewrite Forall_forall in Hstr.
  destruct (Hstr t Ht Hs) as [Hb|[s E]]; [assumption|].
  now apply HG in E.
Qed.

(** The theorem on a string constant after an assignment. *)
Lemma Tokenize_string_constants_witness :
  string_between_quotes (buffer ("s= " ++ quoted "a b" ++ ";")) 9
                        (CreateToken StringConstant 2 3 4 7).
Proof.
  apply (Tokenize_string_constants
           (buffer ("s= " ++ quoted "a b" ++ ";")) 9 no_keywords 10
           [EmptyToken; CreateToken Identifier 0 0 0 1;
            CreateToken Assignment 1 1 1 2;
            CreateToken StringConstant 2 3 4 7;
            CreateToken Semicolon 8 8 8 9]).
  - discriminate.
  - vm_compute. reflexivity.
  - cbn. auto.
  - reflexivity.
Defined.

(** X18.  In the result of [Tokenize], the delimiters of every token after
    the empty leading one are what [SkipDelimitersAndComments] skips from
    where they start: they end at [SourceEnd] or at the first character
    that is neither a delimiter nor part of a comment. *)
Theorem Tokenize_delimiters (mem : nat -> ascii) (SourceEnd : nat)
        (GetTokenType : list ascii -> TokenType) (fuel : nat)
        (Tokens : list Token) :
  Tokenize mem SourceEnd GetTokenType fuel = Some (Tokens_ Tokens) ->
  exists rest,
    Tokens = EmptyToken :: rest
    /\ forall t, In t rest -> delimiter_is_gap mem SourceEnd t.
Proof.
  intros H.
  apply Tokenize_inv in H as [_ [_ [_ [_ [_ [_ [rest [-> Hgap]]]]]]]].
  exists rest. split; [reflexivity|]. now apply Forall_forall.
Qed.

(** The theorem on two identifiers with a comment between them. *)
Lemma Tokenize_delimiters_witness :
  exists rest,
    [EmptyToken; CreateToken Identifier 0 0 0 1;
     CreateToken Identifier 1 8 8 9]
    = EmptyToken :: rest
    /\ forall t, In t rest -> delimiter_is_gap (buffer "a /*c*/ b") 9 t.
Proof.
  apply (Tokenize_delimiters (buffer "a /*c*/ b") 9 no_keywords 10).
  vm_compute. reflexivity.
Defined.

(** ** What [FindFunction] finds *)

Section FindFunctionScan.

Variable mem : nat -> ascii.
Variable Tokens : list Token.
Variable Start End : nat.
Variable Name : list ascii.

Lemma scan_passes_empty (a : nat) :
  scan_passes mem Tokens Start End Name a a.
Proof. intros j Hj. lia. Qed.

Lemma scan_passes_first (a b : nat) :
  found_at mem Tokens Start End Name a = false ->
  (0 <= depth Tokens Start (S a - Start))%Z ->
  scan_passes mem Tokens Start End Name (S a) b ->
  scan_passes mem Tokens Start End Name a b.
Proof.
  intros Hf Hd H j Hj. destruct (Nat.eq_dec j a) as [->|Hne].
  - now split.
  - apply H. lia.
Qed.

Lemma found_at_not_identifier (i : nat) :
  GetType (at_ Tokens i) <> Identifier ->
  found_at mem Tokens Start End Name i = false.
Proof.
  intros H. unfold found_at, is_type.
  destruct (TokenType_eq_dec _ Identifier); [contradiction | reflexivity].
Qed.

Lemma found_at_identifier (i : nat) :
  GetType (at_ Tokens i) = Identifier ->
  found_at mem Tokens Start End Name i
  = IsFunctionName mem Tokens Start End Name i
                   (depth Tokens Start (i - Start)).
Proof.
  intros H. unfold found_at. rewrite H.
  change (is_type Identifier Identifier) with true. reflexivity.
Qed.

(** The scan from token [Tok] at the running depth ends in one of the three
    ways. *)
Lemma FindFunction_loop_ends (n Tok : nat) :
  Start <= Tok <= End -> End - Tok <= n ->
  (0 <= depth Tokens Start (Tok - Start))%Z ->
  ScanEnd mem Tokens Start End Name Tok
          (FindFunction_loop mem Tokens Start End Name n Tok
                             (depth Tokens Start (Tok - Start))).
Proof.
  revert Tok. induction n as [|n IH]; intros Tok HT Hn Hd0.
  { assert (Tok = End) as -> by lia. cbn. apply ScanExhausts.
    apply scan_passes_empty. }
  cbn [FindFunction_loop]. destruct (Tok =? End) eqn:E.
  { apply Nat.eqb_eq in E. subst Tok. apply ScanExhausts.
    apply scan_passes_empty. }
  apply Nat.eqb_neq in E.
  pose proof (depth_next Tokens Start Tok (proj1 HT)) as Hnext.
  assert (Hgo : forall d,
             depth Tokens Start (S Tok - Start) = d -> (0 <= d)%Z ->
             found_at mem Tokens Start End Name Tok = false ->
             ScanEnd mem Tokens Start End Name Tok
                     (FindFunction_loop mem Tokens Start End Name n
                                        (S Tok) d)).
  { intros d <- Hd Hf.
    specialize (IH (S Tok) ltac:(lia) ltac:(lia) Hd).
    destruct IH as [ r Hr Hp Hfr | Hp | k Hk Hp Hfk Hneg ].
    - apply ScanFinds; [lia | | assumption].
      now apply scan_passes_first.
    - apply ScanExhausts. now apply scan_passes_first.
    - apply ScanUnbalanced with (k := k); [lia | | assumption | assumption].
      now apply scan_passes_first. }
  assert (Hclose :
            bracket_delta (GetType (at_ Tokens Tok)) = (-1)%Z ->
            found_at mem Tokens Start End Name Tok = false ->
            ScanEnd mem Tokens Start End Name Tok
              (if (depth Tokens Start (Tok - Start) - 1 <? 0)%Z
               then (End, [brackets_not_balanced])
               else FindFunction_loop mem Tokens Start End Name n (S Tok)
                      (depth Tokens Start (Tok - Start) - 1))).
  { intros Hb Hf. rewrite Hb in Hnext.
    destruct (depth Tokens Start (Tok - Start) - 1 <? 0)%Z eqn:El.
    - apply Z.ltb_lt in El.
      apply ScanUnbalanced with (k := Tok);
        [lia | apply scan_passes_empty | assumption | lia].
    - apply Z.ltb_ge in El. apply Hgo; [lia | lia | assumption]. }
  destruct (GetType (at_ Tokens Tok)) eqn:Ety; cbn [bracket_delta] in *;
    try (apply Hclose;
         [reflexivity
         | apply found_at_not_identifier; rewrite Ety; discriminate]);
    try (apply Hgo;
         [rewrite Hnext; lia | lia
         | apply found_at_not_identifier; rewrite Ety; discriminate]).
  (* Identifier *)
  pose proof (found_at_identifier Tok Ety) as Hf.
  destruct (IsFunctionName mem Tokens Start End Name Tok _) eqn:EI.
  - apply ScanFinds; [lia | apply scan_passes_empty | assumption].
  - apply Hgo; [rewrite Hnext; lia | lia | assumption].
Qed.

(** What [IsFunctionName] asks of the token and its neighbours. *)
Lemma found_at_spec (i : nat) :
  found_at mem Tokens Start End Name i = true ->
  GetType (at_ Tokens i) = Identifier
  /\ depth Tokens Start (i - Start) = 0%Z
  /\ CompareLiteral mem (at_ Tokens i) Name = true
  /\ S i <> End /\ GetType (at_ Tokens (S i)) = OpenParen
  /\ i <> Start /\ GetType (at_ Tokens (i - 1)) = Identifier.
Proof.
  unfold found_at, IsFunctionName. cbv zeta. intros H.
  rewrite !andb_true_iff, !negb_true_iff, !Nat.eqb_neq, Z.eqb_eq in H.
  destruct H as [Ht [[[Hd Hc] [Hn Ho]] [Hs Hp]]].
  unfold is_type in Ht, Ho, Hp.
  destruct (TokenType_eq_dec (GetType (at_ Tokens i)) Identifier);
    [|discriminate].
  destruct (TokenType_eq_dec (GetType (at_ Tokens (S i))) OpenParen);
    [|discriminate].
  destruct (TokenType_eq_dec (GetType (at_ Tokens (i - 1))) Identifier);
    [|discriminate].
  auto 10.
Qed.

End FindFunctionScan.

(** X19.  An iterator that [FindFunction] returns, when it is not the end
    iterator, is at an identifier whose literal is the name, at bracket
    depth zero, with an identifier before it and an opening parenthesis
    after it, both inside the range; it is the first such token, the depth
    is not negative before it, and nothing is logged. *)
Theorem FindFunction_found (mem : nat -> ascii) (Tokens : list Token)
        (Start End : nat) (Name : option (list ascii)) (r : nat)
        (log : list string) :
  Start <= End ->
  FindFunction mem Tokens Start End Name = (r, log) ->
  r <> End ->
  exists N,
    Name = Some N /\ N <> [] /\ log = []
    /\ Start < r /\ S r < End
    /\ GetType (at_ Tokens r) = Identifier
    /\ CompareLiteral mem (at_ Tokens r) N = true
    /\ depth Tokens Start (r - Start) = 0%Z
    /\ GetType (at_ Tokens (r - 1)) = Identifier
    /\ GetType (at_ Tokens (S r)) = OpenParen
    /\ scan_passes mem Tokens Start End N Start r.
Proof.
  intros HSE. unfold FindFunction.
  destruct Name as [[|a N]|]; try (intros [= <- _] Hr; now contradiction Hr).
  intros E Hr. exists (a :: N).
  pose proof (FindFunction_loop_ends mem Tokens Start End (a :: N)
                (End - Start) Start ltac:(lia) ltac:(lia)) as H.
  rewrite Nat.sub_diag in H. cbn [depth] in H. specialize (H ltac:(lia)).
  rewrite E in H.
  inversion H as [ r' Hr' Hp Hf | Hp | k Hk Hp Hfk Hneg ]; subst;
    try contradiction.
  apply found_at_spec in Hf
    as [Hty [Hd [Hc [Hn [Ho [Hs Hprev]]]]]].
  split; [reflexivity|]. split; [discriminate|]. split; [reflexivity|].
  split; [lia|]. split; [lia|]. auto 10.
Qed.

(** The theorem on the tokens of [int foo() x]. *)
Lemma FindFunction_found_witness :
  exists N,
    Some (text "foo") = Some N /\ N <> []
    /\ @nil string = []
    /\ 0 < 2 /\ S 2 < 6
    /\ GetType (at_ [EmptyToken;
                     CreateToken Identifier 0 0 0 3;
                     CreateToken Identifier 3 4 4 7;
                     CreateToken OpenParen 7 7 7 8;
                     CreateToken ClosingParen 8 8 8 9;
                     CreateToken Identifier 9 10 10 11] 2) = Identifier
    /\ CompareLiteral (buffer "int foo() x")
                      (at_ [EmptyToken;
                            CreateToken Identifier 0 0 0 3;
                            CreateToken Identifier 3 4 4 7;
                            CreateToken OpenParen 7 7 7 8;
                            CreateToken ClosingParen 8 8 8 9;
                            CreateToken Identifier 9 10 10 11] 2) N = true
    /\ depth [EmptyToken;
              CreateToken Identifier 0 0 0 3;
              CreateToken Identifier 3 4 4 7;
              CreateToken OpenParen 7 7 7 8;
              CreateToken ClosingParen 8 8 8 9;
              CreateToken Identifier 9 10 10 11] 0 (2 - 0) = 0%Z
    /\ GetType (at_ [EmptyToken;
                     CreateToken Identifier 0 0 0 3;
                     CreateToken Identifier 3 4 4 7;
                     CreateToken OpenParen 7 7 7 8;
                     CreateToken ClosingParen 8 8 8 9;
                     CreateToken Identifier 9 10 10 11] (2 - 1)) = Identifier
    /\ GetType (at_ [EmptyToken;
                     CreateToken Identifier 0 0 0 3;
                     CreateToken Identifier 3 4 4 7;
                     CreateToken OpenParen 7 7 7 8;
                     CreateToken ClosingParen 8 8 8 9;
                     CreateToken Identifier 9 10 10 11] (S 2)) = OpenParen
    /\ scan_passes (buffer "int foo() x")
                   [EmptyToken;
                    CreateToken Identifier 0 0 0 3;
                    CreateToken Identifier 3 4 4 7;
                    CreateToken OpenParen 7 7 7 8;
                    CreateToken ClosingParen 8 8 8 9;
                    CreateToken Identifier 9 10 10 11] 0 6 N 0 2.
Proof.
  apply (FindFunction_found (buffer "int foo() x")
           [EmptyToken;
            CreateToken Identifier 0 0 0 3;
            CreateToken Identifier 3 4 4 7;
            CreateToken OpenParen 7 7 7 8;
            CreateToken ClosingParen 8 8 8 9;
            CreateToken Identifier 9 10 10 11] 0 6 (Some (text "foo")) 2 []).
  - lia.
  - vm_compute. reflexivity.
  - lia.
Defined.

(** X20.  [FindFunction] returns the first token that is the name of a
    function: when token [i] is an identifier equal to the name, at depth
    zero, between an identifier and an opening parenthesis, and the scan
    passes all the tokens before it, the result is [i] and nothing is
    logged. *)
Theorem FindFunction_first_match (mem : nat -> ascii) (Tokens : list Token)
        (Start End : nat) (Name : list ascii) (i : nat) :
  Name <> [] ->
  Start <= i < End ->
  found_at mem Tokens Start End Name i = true ->
  scan_passes mem Tokens Start End Name Start i ->
  FindFunction mem Tokens Start End (Some Name) = (i, []).
Proof.
  intros HN Hi Hf Hp. unfold FindFunction.
  destruct Name as [|a N]; [contradiction|].
  pose proof (FindFunction_loop_ends mem Tokens Start End (a :: N)
                (End - Start) Start ltac:(lia) ltac:(lia)) as H.
  rewrite Nat.sub_diag in H. cbn [depth] in H. specialize (H ltac:(lia)).
  destruct (FindFunction_loop mem Tokens Start End (a :: N) _ _ _)
    as [r log].
  inversion H as [ r' Hr' Hp' Hf' | Hp' | k Hk Hp' Hfk Hneg ]; subst.
  - destruct (Nat.lt_trichotomy r i) as [Hlt|[->|Hgt]].
    + destruct (Hp r ltac:(lia)) as [Hc _]. congruence.
    + reflexivity.
    + destruct (Hp' i ltac:(lia)) as [Hc _]. congruence.
  - destruct (Hp' i ltac:(lia)) as [Hc _]. congruence.
  - destruct (Nat.lt_trichotomy k i) as [Hlt|[->|Hgt]].
    + destruct (Hp k ltac:(lia)) as [_ Hc]. lia.
    + congruence.
    + destruct (Hp' i ltac:(lia)) as [Hc _]. congruence.
Qed.

(** The theorem on the tokens of [( ) int foo()], looking for [foo]. *)
Lemma FindFunction_first_match_witness :
  FindFunction (buffer "( ) int foo()")
               [EmptyToken;
                CreateToken OpenParen 0 0 0 1;
                CreateToken ClosingParen 1 2 2 3;
                CreateToken Identifier 3 4 4 7;
                CreateToken Identifier 7 8 8 11;
                CreateToken OpenParen 11 11 11 12;
                CreateToken ClosingParen 12 12 12 13]
               0 7 (Some (text "foo"))
  = (4, []).
Proof.
  apply FindFunction_first_match.
  - discriminate.
  - lia.
  - vm_compute. reflexivity.
  - intros j Hj.
    assert (j = 0 \/ j = 1 \/ j = 2 \/ j = 3) as H by lia.
    repeat (destruct H as [->|H]; [split; vm_compute; congruence|]).
    subst j. split; vm_compute; congruence.
Defined.

(** X21.  For a name that is not empty, [FindFunction] returns the end
    iterator without logging anything exactly when the scan passes every
    token: no token is the name of a function where it stands and the
    bracket depth never gets negative. *)
Theorem FindFunction_not_found (mem : nat -> ascii) (Tokens : list Token)
        (Start End : nat) (Name : list ascii) :
  Name <> [] ->
  Start <= End ->
  (FindFunction mem Tokens Start End (Some Name) = (End, [])
   <-> scan_passes mem Tokens Start End Name Start End).
Proof.
  intros HN HSE. unfold FindFunction.
  destruct Name as [|a N]; [contradiction|].
  pose proof (FindFunction_loop_ends mem Tokens Start End (a :: N)
                (End - Start) Start ltac:(lia) ltac:(lia)) as H.
  rewrite Nat.sub_diag in H. cbn [depth] in H. specialize (H ltac:(lia)).
  destruct (FindFunction_loop mem Tokens Start End (a :: N) _ _ _)
    as [r log].
  inversion H as [ r' Hr' Hp' Hf' | Hp' | k Hk Hp' Hfk Hneg ]; subst.
  - split.
    + intros [= -> ]. lia.
    + intros Hp. destruct (Hp r ltac:(lia)) as [Hc _]. congruence.
  - tauto.
  - split.
    + discriminate.
    + intros Hp. destruct (Hp k ltac:(lia)) as [_ Hc]. lia.
Qed.

(** The theorem on the tokens of [int foo()], looking for [bar]. *)
Lemma FindFunction_not_found_witness :
  FindFunction (buffer "int foo()")
               [EmptyToken;
                CreateToken Identifier 0 0 0 3;
                CreateToken Identifier 3 4 4 7;
                CreateToken OpenParen 7 7 7 8;
                CreateToken ClosingParen 8 8 8 9]
               0 5 (Some (text "bar"))
  = (5, [])
  <-> scan_passes (buffer "int foo()")
                  [EmptyToken;
                   CreateToken Identifier 0 0 0 3;
                   CreateToken Identifier 3 4 4 7;
                   CreateToken OpenParen 7 7 7 8;
                   CreateToken ClosingParen 8 8 8 9]
                  0 5 (text "bar") 0 5.
Proof.
  apply FindFunction_not_found.
  - discriminate.
  - lia.
Defined.

(** ** The context of a position *)

Lemma GetContext_example :
  GetContextOf ("ab" ++ crlf ++ "cde" ++ lf ++ "fg" ++ lf ++ "h") 6 1
  = Finished ("ab" ++ crlf ++ "cde" ++ lf ++ "  ^" ++ lf ++ "fg")%string.
Proof. vm_compute. reflexivity. Qed.

Section ContextFacts.

Variable mem : nat -> ascii.
Variable Start End : nat.

Lemma LineStart_bounds (p : nat) :
  Start <= p -> Start <= LineStart mem Start p <= p.
Proof.
  induction p as [|p IH]; intros H; cbn [LineStart]; [lia|].
  destruct (Start <? S p) eqn:E; cbn [andb]; [|lia].
  apply Nat.ltb_lt in E. destruct (IsNewLine (mem p)); cbn [negb]; [lia|].
  specialize (IH ltac:(lia)). lia.
Qed.

Lemma LineStart_at_line_start (p : nat) :
  Start <= p -> at_line_start mem Start (LineStart mem Start p).
Proof.
  unfold at_line_start.
  induction p as [|p IH]; intros H; cbn [LineStart]; [left; lia|].
  destruct (Start <? S p) eqn:E; cbn [andb].
  - apply Nat.ltb_lt in E. destruct (IsNewLine (mem p)) eqn:EN; cbn [negb].
    + right. now replace (S p - 1) with p by lia.
    + apply IH. lia.
  - apply Nat.ltb_ge in E. left. lia.
Qed.

Lemma LineStart_no_newline (p : nat) :
  no_newline mem (LineStart mem Start p) p.
Proof.
  unfold no_newline.
  induction p as [|p IH]; cbn [LineStart]; [intros i Hi; lia|].
  destruct (Start <? S p); cbn [andb]; [|intros i Hi; lia].
  destruct (IsNewLine (mem p)) eqn:EN; cbn [negb]; [intros i Hi; lia|].
  intros i Hi. destruct (Nat.eq_dec i p) as [->|Hne]; [assumption|].
  apply IH. lia.
Qed.

(** The loop over the lines above keeps [CtxStart] at the start of a line,
    so that its [VERIFY_EXPR] does not fire. *)
Lemma LinesAbove_returns (n c : nat) :
  Start <= c -> at_line_start mem Start c ->
  exists a,
    LinesAbove mem Start n c = Some a
    /\ Start <= a <= c /\ at_line_start mem Start a
    /\ (n = 0 -> a = c).
Proof.
  revert c. induction n as [|n IH]; intros c Hc Hl; cbn [LinesAbove].
  { exists c. repeat split; auto; lia. }
  destruct (Start <? c) eqn:E.
  2:{ apply Nat.ltb_ge in E. exists c.
      repeat split; auto; try lia; try discriminate. }
  apply Nat.ltb_lt in E. destruct Hl as [->|Hl]; [lia|]. rewrite Hl.
  cbv zeta.
  set (c1 := if is_char (mem (c - 1)) LF && (Start + 1 <? c)
                && is_char (mem (c - 2)) CR then c - 1 else c).
  assert (H1 : Start < c1 <= c).
  { unfold c1. destruct (is_char (mem (c - 1)) LF); cbn [andb]; [|lia].
    destruct (Start + 1 <? c) eqn:E1; cbn [andb]; [|lia].
    apply Nat.ltb_lt in E1. destruct (is_char (mem (c - 2)) CR); lia. }
  replace (Start <? c1) with true by (symmetry; apply Nat.ltb_lt; lia).
  destruct (IH (LineStart mem Start (c1 - 1))) as [a [Ea [Hb [Ha _]]]].
  - apply LineStart_bounds. lia.
  - apply LineStart_at_line_start. lia.
  - exists a. split; [assumption|].
    pose proof (LineStart_bounds (c1 - 1) ltac:(lia)).
    split; [lia|]. split; [assumption | discriminate].
Qed.

(** What the plain [SkipLine] does, in the words of this section. *)
Lemma SkipLine_line_end (Pos : nat) :
  Pos <= End ->
  Pos <= fst (SkipLine mem End Pos false) <= End
  /\ no_newline mem Pos (fst (SkipLine mem End Pos false))
  /\ at_line_end mem End (fst (SkipLine mem End Pos false)).
Proof.
  intros HP. unfold SkipLine. cbv zeta. cbn [andb fst].
  set (P := fun c => negb (is_char c NUL) && negb (IsNewLine c)).
  split; [split; [apply advance_while_ge | now apply advance_while_le]|].
  split.
  - intros i Hi. pose proof (advance_while_all mem End P _ _ i Hi) as H.
    unfold P in H. apply andb_true_iff in H as [_ H].
    now apply negb_true_iff in H.
  - destruct (advance_while_stop mem End P (End - Pos) Pos HP (le_n _))
      as [H|H]; [now left|]. right. now apply not_line_char.
Qed.

Lemma LinesBelow_bounds (n p : nat) :
  p <= End -> at_line_end mem End p ->
  p <= LinesBelow mem End n p <= End
  /\ at_line_end mem End (LinesBelow mem End n p)
  /\ (n = 0 -> LinesBelow mem End n p = p).
Proof.
  revert p. induction n as [|n IH]; intros p Hp Hl; cbn [LinesBelow].
  { repeat split; auto; lia. }
  destruct (p =? End) eqn:E; cbn [negb andb].
  { repeat split; auto; try lia; try discriminate. }
  apply Nat.eqb_neq in E.
  destruct (is_char (mem p) NUL) eqn:EN; cbn [negb].
  { repeat split; auto; try lia; try discriminate. }
  cbv zeta.
  set (p1 := if is_char (mem p) CR && negb (p + 1 =? End)
                && is_char (mem (p + 1)) LF then S p else p).
  assert (H1 : p <= p1 <= End).
  { unfold p1. destruct (is_char (mem p) CR); cbn [andb]; [|lia].
    destruct (p + 1 =? End) eqn:E1; cbn [negb andb]; [lia|].
    apply Nat.eqb_neq in E1. destruct (is_char (mem (p + 1)) LF); lia. }
  set (p2 := if negb (p1 =? End) then S p1 else p1).
  assert (H2 : p1 <= p2 <= End).
  { unfold p2. destruct (p1 =? End) eqn:E2; cbn [negb]; [lia|].
    apply Nat.eqb_neq in E2. lia. }
  destruct (SkipLine_line_end p2 (proj2 H2)) as [H3 [_ H4]].
  destruct (IH _ (proj2 H3) H4) as [H5 [H6 _]].
  split; [lia|]. split; [assumption | discriminate].
Qed.

End ContextFacts.

(** X22.  For a position inside the buffer, [GetContext] returns and none
    of its [VERIFY_EXPR] fires.  The result is a piece of the buffer that
    starts at the start of a line and ends with the line of [Pos], then a
    line break, the marker line, and the piece of the buffer that follows,
    up to the end of a line.  The caret of the marker line is in the column
    of [Pos]: there are as many spaces before it as characters between the
    start of the line of [Pos] and [Pos].  With [NumLines] zero the first
    piece is the line of [Pos] alone and the last one is empty. *)
Theorem GetContext_shape (mem : nat -> ascii) (Start End Pos NumLines : nat) :
  Start <= Pos <= End ->
  exists a l p b,
    GetContext mem Start End Pos NumLines
    = Finished (range mem a p
                ++ [LF] ++ repeat " "%char (Pos - l) ++ ["^"%char]
                ++ range mem p b)
    /\ Start <= a <= l /\ l <= Pos <= p /\ p <= b <= End
    /\ at_line_start mem Start a
    /\ at_line_start mem Start l
    /\ no_newline mem l p
    /\ at_line_end mem End p
    /\ at_line_end mem End b
    /\ (NumLines = 0 -> a = l /\ b = p).
Proof.
  intros HP. unfold GetContext. cbv zeta.
  pose proof (LineStart_bounds mem Start Pos (proj1 HP)) as Hl.
  pose proof (LineStart_at_line_start mem Start Pos (proj1 HP)) as Hls.
  pose proof (LineStart_no_newline mem Start Pos) as Hnl.
  destruct (SkipLine_line_end mem End Pos (proj2 HP)) as [Hp [Hpn Hpe]].
  destruct (LinesAbove_returns mem Start NumLines _ (proj1 Hl) Hls)
    as [a [Ea [Hab [Ha Ha0]]]].
  destruct (LinesBelow_bounds mem End NumLines _ (proj2 Hp) Hpe)
    as [Hb [Hbe Hb0]].
  rewrite Ea.
  replace ((a =? Start) || IsNewLine (mem (a - 1))) with true.
  2:{ symmetry. destruct Ha as [->|Ha]; [now rewrite Nat.eqb_refl|].
      rewrite Ha. apply orb_true_r. }
  exists a, (LineStart mem Start Pos),
    (fst (SkipLine mem End Pos false)),
    (LinesBelow mem End NumLines (fst (SkipLine mem End Pos false))).
  split; [unfold marker; now rewrite <- !app_assoc|].
  split; [lia|]. split; [lia|]. split; [lia|].
  split; [assumption|]. split; [assumption|]. split.
  { intros i Hi. destruct (Nat.lt_ge_cases i Pos).
    - apply Hnl. lia.
    - apply Hpn. lia. }
  split; [assumption|]. split; [assumption|]. auto.
Qed.

(** The theorem at the letter [e] of the second of four lines, with one
    line above and below. *)
Lemma GetContext_shape_witness :
  exists a l p b,
    GetContext (buffer ("ab" ++ crlf ++ "cde" ++ lf ++ "fg" ++ lf ++ "h"))
               0 13 6 1
    = Finished (range (buffer ("ab" ++ crlf ++ "cde" ++ lf ++ "fg"
                                    ++ lf ++ "h")) a p
                ++ [LF] ++ repeat " "%char (6 - l) ++ ["^"%char]
                ++ range (buffer ("ab" ++ crlf ++ "cde" ++ lf ++ "fg"
                                       ++ lf ++ "h")) p b)
    /\ 0 <= a <= l /\ l <= 6 <= p /\ p <= b <= 13
    /\ at_line_start (buffer ("ab" ++ crlf ++ "cde" ++ lf ++ "fg"
                                   ++ lf ++ "h")) 0 a
    /\ at_line_start (buffer ("ab" ++ crlf ++ "cde" ++ lf ++ "fg"
                                   ++ lf ++ "h")) 0 l
    /\ no_newline (buffer ("ab" ++ crlf ++ "cde" ++ lf ++ "fg"
                                ++ lf ++ "h")) l p
    /\ at_line_end (buffer ("ab" ++ crlf ++ "cde" ++ lf ++ "fg"
                                 ++ lf ++ "h")) 13 p
    /\ at_line_end (buffer ("ab" ++ crlf ++ "cde" ++ lf ++ "fg"
                                 ++ lf ++ "h")) 13 b
    /\ (1 = 0 -> a = l /\ b = p).
Proof.
  apply (GetContext_shape
           (buffer ("ab" ++ crlf ++ "cde" ++ lf ++ "fg" ++ lf ++ "h"))
           0 13 6 1).
  lia.
Defined.

Section ContextLines.

Variable mem : nat -> ascii.
Variable Start End : nat.

Lemma plain_range (a b : nat) :
  no_newline mem a b -> plain (range mem a b).
Proof.
  intros H. unfold plain, range. apply Forall_forall. intros c Hc.
  apply in_map_iff in Hc as [i [<- Hi]]. apply in_seq in Hi.
  apply H. lia.
Qed.

Lemma join_snoc (ls : list (list ascii * list ascii)) (l br : list ascii) :
  join (ls ++ [(l, br)]) = join ls ++ l ++ br.
Proof.
  unfold join. rewrite map_app, concat_app. cbn. now rewrite app_nil_r.
Qed.

Lemma join_cons (ls : list (list ascii * list ascii)) (br l : list ascii) :
  join ((br, l) :: ls) = br ++ l ++ join ls.
Proof. unfold join. cbn. now rewrite app_assoc. Qed.

Lemma range_two (a : nat) : range mem a (S (S a)) = [mem a; mem (S a)].
Proof.
  rewrite range_cons by lia. rewrite range_cons by lia.
  now rewrite range_nil by lia.
Qed.

Lemma range_one (a : nat) : range mem a (S a) = [mem a].
Proof. rewrite range_cons by lia. now rewrite range_nil by lia. Qed.

(** The lines above: each turn of the loop adds one whole line in front. *)
Lemma LinesAbove_lines (n c : nat) :
  Start <= c -> at_line_start mem Start c ->
  exists a ls,
    LinesAbove mem Start n c = Some a
    /\ Start <= a <= c
    /\ range mem a c = join ls
    /\ List.length ls <= n
    /\ ended_lines ls
    /\ (List.length ls < n -> a = Start).
Proof.
  revert c. induction n as [|n IH]; intros c Hc Hl; cbn [LinesAbove].
  { exists c, []. rewrite range_nil by lia. cbn.
    repeat split; try lia; constructor. }
  destruct (Start <? c) eqn:E.
  2:{ apply Nat.ltb_ge in E. exists c, []. rewrite range_nil by lia. cbn.
      repeat split; try lia; constructor. }
  apply Nat.ltb_lt in E. destruct Hl as [->|Hl]; [lia|]. rewrite Hl.
  cbv zeta.
  set (c1 := if is_char (mem (c - 1)) LF && (Start + 1 <? c)
                && is_char (mem (c - 2)) CR then c - 1 else c).
  assert (H1 : Start < c1 <= c /\ line_break (range mem (c1 - 1) c)).
  { unfold c1. destruct (is_char (mem (c - 1)) LF) eqn:E1; cbn [andb].
    - apply is_char_eq in E1.
      destruct (Start + 1 <? c) eqn:E2; cbn [andb].
      + apply Nat.ltb_lt in E2.
        destruct (is_char (mem (c - 2)) CR) eqn:E3.
        * apply is_char_eq in E3. split; [lia|].
          replace (c - 1 - 1) with (c - 2) by lia.
          replace c with (S (S (c - 2))) at 2 by lia.
          rewrite range_two. replace (S (c - 2)) with (c - 1) by lia.
          rewrite E1, E3. right. now right.
        * split; [lia|]. replace c with (S (c - 1)) at 2 by lia.
          rewrite range_one, E1. now left.
      + split; [lia|]. replace c with (S (c - 1)) at 2 by lia.
        rewrite range_one, E1. now left.
    - split; [lia|]. replace c with (S (c - 1)) at 2 by lia.
      rewrite range_one. apply IsNewLine_cases in Hl as [->| ->];
        [right; now left | now left]. }
  destruct H1 as [H1 Hbr].
  replace (Start <? c1) with true by (symmetry; apply Nat.ltb_lt; lia).
  pose proof (LineStart_bounds mem Start (c1 - 1) ltac:(lia)) as Hb.
  destruct (IH (LineStart mem Start (c1 - 1))) as [a [ls H]].
  - lia.
  - apply LineStart_at_line_start. lia.
  - destruct H as [Ea [Ha [Hr [Hlen [Hok Hs]]]]].
    exists a, (ls ++ [(range mem (LineStart mem Start (c1 - 1)) (c1 - 1),
                       range mem (c1 - 1) c)]).
    split; [assumption|]. split; [lia|]. split.
    { rewrite join_snoc, <- Hr.
      rewrite (range_app mem _ (c1 - 1) c) by lia.
      now rewrite range_app by lia. }
    split; [rewrite length_app; cbn; lia|]. split.
    { apply Forall_app. split; [assumption|]. constructor; [|constructor].
      cbn [fst snd]. split; [|assumption].
      apply plain_range, LineStart_no_newline. }
    rewrite length_app. cbn. intros Hlt. apply Hs. lia.
Qed.

(** The lines below: each turn of the loop adds one line break and the
    line after it. *)
Lemma LinesBelow_lines (n p : nat) :
  p <= End -> at_line_end mem End p ->
  exists ls,
    range mem p (LinesBelow mem End n p) = join ls
    /\ List.length ls <= n
    /\ started_lines ls
    /\ (List.length ls < n ->
        LinesBelow mem End n p = End
        \/ mem (LinesBelow mem End n p) = NUL).
Proof.
  revert p. induction n as [|n IH]; intros p Hp Hl; cbn [LinesBelow].
  { exists []. rewrite range_nil by lia. cbn.
    repeat split; try lia; constructor. }
  destruct (p =? End) eqn:E; cbn [negb andb].
  { apply Nat.eqb_eq in E. exists []. rewrite range_nil by lia. cbn.
    split; [reflexivity|]. split; [lia|]. split; [constructor|].
    intros _. now left. }
  apply Nat.eqb_neq in E.
  destruct (is_char (mem p) NUL) eqn:EN; cbn [negb].
  { apply is_char_eq in EN. exists []. rewrite range_nil by lia. cbn.
    split; [reflexivity|]. split; [lia|]. split; [constructor|].
    intros _. now right. }
  apply is_char_neq in EN. destruct Hl as [Hl|[Hl|Hl]]; try contradiction.
  cbv zeta.
  set (p1 := if is_char (mem p) CR && negb (p + 1 =? End)
                && is_char (mem (p + 1)) LF then S p else p).
  assert (H1 : p <= p1 < End /\ line_break (range mem p (S p1))).
  { unfold p1. destruct (is_char (mem p) CR) eqn:E1; cbn [andb].
    - apply is_char_eq in E1.
      destruct (p + 1 =? End) eqn:E2; cbn [negb andb].
      + split; [lia|]. rewrite range_one, E1. right. now left.
      + apply Nat.eqb_neq in E2.
        destruct (is_char (mem (p + 1)) LF) eqn:E3.
        * apply is_char_eq in E3. split; [lia|]. rewrite range_two.
          replace (S p) with (p + 1) by lia. rewrite E1, E3.
          right. now right.
        * split; [lia|]. rewrite range_one, E1. right. now left.
    - split; [lia|]. rewrite range_one.
      apply IsNewLine_cases in Hl as [Hc|Hc]; rewrite Hc;
        [right; now left | now left]. }
  destruct H1 as [H1 Hbr].
  replace (p1 =? End) with false by (symmetry; apply Nat.eqb_neq; lia).
  cbn [negb].
  destruct (SkipLine_line_end mem End (S p1) ltac:(lia)) as [H3 [Hpl H4]].
  destruct (IH _ (proj2 H3) H4) as [ls [Hr [Hlen [Hok Hs]]]].
  pose proof (LinesBelow_bounds mem End n _ (proj2 H3) H4) as [Hb _].
  exists ((range mem p (S p1),
           range mem (S p1) (fst (SkipLine mem End (S p1) false))) :: ls).
  split.
  { rewrite join_cons, <- Hr.
    rewrite (range_app mem (S p1)) by lia. now rewrite range_app by lia. }
  split; [cbn; lia|]. split.
  { constructor; [|assumption]. cbn [fst snd]. split; [assumption|].
    now apply plain_range. }
  cbn [List.length]. intros Hlt. apply Hs. lia.
Qed.

End ContextLines.

(** X23.  [GetContext] shows whole lines: at most [NumLines] lines above
    the line of [Pos], each with its line break, then the line of [Pos],
    the marker line, and at most [NumLines] lines below, each after the
    line break that comes before it; a line break is a line feed, a
    carriage return or the two together.  There are fewer than [NumLines]
    lines above only when the context starts at [Start], and fewer below
    only when it ends at [End] or at a terminator.  The caret is at most
    one column after the last character of the line of [Pos]. *)
Theorem GetContext_lines (mem : nat -> ascii) (Start End Pos NumLines : nat) :
  Start <= Pos <= End ->
  exists a b above line below CharPos,
    GetContext mem Start End Pos NumLines
    = Finished (join above ++ line
                ++ [LF] ++ repeat " "%char CharPos ++ ["^"%char]
                ++ join below)
    /\ join above ++ line ++ join below = range mem a b
    /\ Start <= a <= Pos /\ Pos <= b <= End
    /\ ended_lines above /\ plain line /\ started_lines below
    /\ CharPos <= List.length line
    /\ List.length above <= NumLines
    /\ List.length below <= NumLines
    /\ (List.length above < NumLines -> a = Start)
    /\ (List.length below < NumLines -> b = End \/ mem b = NUL).
Proof.
  intros HP. unfold GetContext. cbv zeta.
  pose proof (LineStart_bounds mem Start Pos (proj1 HP)) as Hl.
  pose proof (LineStart_at_line_start mem Start Pos (proj1 HP)) as Hls.
  pose proof (LineStart_no_newline mem Start Pos) as Hnl.
  destruct (SkipLine_line_end mem End Pos (proj2 HP)) as [Hp [Hpn Hpe]].
  destruct (LinesAbove_lines mem Start NumLines _ (proj1 Hl) Hls)
    as [a [above [Ea [Hab [Hra [Hla [Hoa Hsa]]]]]]].
  destruct (LinesAbove_returns mem Start NumLines _ (proj1 Hl) Hls)
    as [a' [Ea' [_ [Ha _]]]].
  rewrite Ea in Ea'. injection Ea' as <-.
  destruct (LinesBelow_lines mem End NumLines _ (proj2 Hp) Hpe)
    as [below [Hrb [Hlb [Hob Hsb]]]].
  destruct (LinesBelow_bounds mem End NumLines _ (proj2 Hp) Hpe)
    as [Hb _].
  rewrite Ea.
  replace ((a =? Start) || IsNewLine (mem (a - 1))) with true.
  2:{ symmetry. destruct Ha as [->|Ha]; [now rewrite Nat.eqb_refl|].
      rewrite Ha. apply orb_true_r. }
  exists a, (LinesBelow mem End NumLines (fst (SkipLine mem End Pos false))),
    above,
    (range mem (LineStart mem Start Pos) (fst (SkipLine mem End Pos false))),
    below, (Pos - LineStart mem Start Pos).
  split.
  { unfold marker. rewrite <- Hrb, <- Hra.
    rewrite <- (range_app mem a (LineStart mem Start Pos)
                          (fst (SkipLine mem End Pos false))) by lia.
    now rewrite <- !app_assoc. }
  split.
  { rewrite <- Hrb, <- Hra, app_assoc, range_app by lia.
    now rewrite range_app by lia. }
  split; [lia|]. split; [lia|]. split; [assumption|]. split.
  { apply plain_range. intros i Hi. destruct (Nat.lt_ge_cases i Pos).
    - apply Hnl. lia.
    - apply Hpn. lia. }
  split; [assumption|]. split; [rewrite range_length; lia|].
  split; [assumption|]. split; [assumption|]. split; assumption.
Qed.

(** The theorem at the letter [e] of the second of four lines, with one
    line above and below. *)
Lemma GetContext_lines_witness :
  exists a b above line below CharPos,
    GetContext (buffer ("ab" ++ crlf ++ "cde" ++ lf ++ "fg" ++ lf ++ "h"))
               0 13 6 1
    = Finished (join above ++ line
                ++ [LF] ++ repeat " "%char CharPos ++ ["^"%char]
                ++ join below)
    /\ join above ++ line ++ join below
       = range (buffer ("ab" ++ crlf ++ "cde" ++ lf ++ "fg" ++ lf ++ "h"))
               a b
    /\ 0 <= a <= 6 /\ 6 <= b <= 13
    /\ ended_lines above /\ plain line /\ started_lines below
    /\ CharPos <= List.length line
    /\ List.length above <= 1
    /\ List.length below <= 1
    /\ (List.length above < 1 -> a = 0)
    /\ (List.length below < 1 ->
        b = 13
        \/ buffer ("ab" ++ crlf ++ "cde" ++ lf ++ "fg" ++ lf ++ "h") b
           = NUL).
Proof.
  apply (GetContext_lines
           (buffer ("ab" ++ crlf ++ "cde" ++ lf ++ "fg" ++ lf ++ "h"))
           0 13 6 1).
  lia.
Defined.

(** ** The characters of a number *)

Section FloatText.

Variable mem : nat -> ascii.
Variable End : nat.

Lemma scanning_number_text (Start c Pos : nat) :
  scanning mem Start c Pos -> number_text mem Start Pos.
Proof.
  intros [H1 [H2 H3]]. split; [|assumption]. intros i Hi. apply H2. lia.
Qed.

Lemma scanning_step (Start c Pos : nat) :
  scanning mem Start c Pos -> float_char (mem c) = true ->
  scanning mem Start (S c) Pos.
Proof.
  intros [H1 [H2 H3]] Hc. split; [lia|]. split; [|assumption].
  intros i Hi. destruct (Nat.eq_dec i c) as [->|Hne]; [assumption|].
  apply H2. lia.
Qed.

Lemma scanning_move (Start c Pos : nat) :
  scanning mem Start c Pos -> float_last_char (mem c) = true ->
  float_char (mem c) = true ->
  scanning mem Start (S c) (S c).
Proof.
  intros H Hl Hc. apply scanning_step in H as [_ [H2 _]]; [|assumption].
  split; [lia|]. split; [assumption|]. intros _.
  now replace (S c - 1) with c by lia.
Qed.

Lemma IsNum_float_char (c : ascii) :
  IsNum c = true -> float_char c = true /\ float_last_char c = true.
Proof. unfold float_char, float_last_char. intros ->. now split. Qed.

Lemma FloatSuffix_text (hd he : bool) (Start c Pos : nat) :
  scanning mem Start c Pos ->
  number_text mem Start (value (FloatSuffix mem End hd he Start c Pos)).
Proof.
  intros H. unfold FloatSuffix.
  destruct ((hd || he) && negb (c =? End) && (Start <? Pos));
    [|cbn; now apply scanning_number_text in H].
  traced. destruct (is_char (mem c) "f" || is_char (mem c) "F") eqn:E;
    cbn; [|now apply scanning_number_text in H].
  apply (scanning_number_text Start (S c)). apply (scanning_move _ _ Pos H).
  - unfold float_last_char. apply orb_true_iff in E as [-> | ->];
      now rewrite ?orb_true_r.
  - unfold float_char. apply orb_true_iff in E as [-> | ->];
      now rewrite ?orb_true_r.
Qed.

Lemma SkipDigits_text (Start c Pos c' Pos' : nat) :
  c <= End -> scanning mem Start c Pos ->
  value (SkipDigits mem End (End - c) c Pos) = (c', Pos') ->
  scanning mem Start c' Pos'.
Proof.
  intros Hc [H1 [H2 H3]] HD.
  apply SkipDigits_spec in HD as [Hb [Hm [Hd _]]]; [|lia|lia].
  assert (Hch : forall i, Start <= i < c' -> float_char (mem i) = true).
  { intros i Hi. destruct (Nat.lt_ge_cases i c) as [Hlt|Hge].
    - apply H2. lia.
    - apply IsNum_float_char, Hd. lia. }
  destruct Hm as [[-> ->]|[Hlt ->]].
  - split; [lia|]. now split.
  - split; [lia|]. split; [assumption|]. intros _.
    apply IsNum_float_char, Hd. lia.
Qed.

Lemma FloatExponent_text (hi hd : bool) (Start c Pos : nat) :
  c < End -> scanning mem Start c Pos ->
  number_text mem Start (value (FloatExponent mem End hi hd Start c Pos)).
Proof.
  intros Hc H. pose proof (scanning_number_text _ _ _ H) as HP.
  unfold FloatExponent. traced.
  destruct (is_char (mem c) "e" || is_char (mem c) "E") eqn:Ee;
    [|now apply FloatSuffix_text].
  destruct (negb hi); [cbn; exact HP|].
  destruct (S c =? End) eqn:E1; [cbn; exact HP|]. apply Nat.eqb_neq in E1.
  traced.
  destruct (negb (is_char (mem (S c)) "+") && negb (is_char (mem (S c)) "-"))
    eqn:Es; [cbn; exact HP|].
  destruct (S (S c) =? End) eqn:E2; [cbn; exact HP|].
  apply Nat.eqb_neq in E2. traced.
  destruct (negb (IsNum (mem (S (S c))))) eqn:Ed; [cbn; exact HP|]. traced.
  destruct (value (SkipDigits mem End (End - S (S c)) (S (S c)) Pos))
    as [c' Pos'] eqn:ED.
  cbn [fst snd]. apply FloatSuffix_text.
  apply (SkipDigits_text Start (S (S c)) Pos); [lia | | assumption].
  apply scanning_step; [apply scanning_step; [assumption|]|].
  - unfold float_char. apply orb_true_iff in Ee as [-> | ->];
      now rewrite ?orb_true_r.
  - unfold float_char. apply andb_false_iff in Es as [Es|Es];
      apply negb_false_iff in Es; rewrite Es; now rewrite ?orb_true_r.
Qed.

Lemma FloatDecimal_text (hi : bool) (Start c Pos : nat) :
  c < End -> scanning mem Start c Pos ->
  number_text mem Start (value (FloatDecimal mem End hi Start c Pos)).
Proof.
  intros Hc H. unfold FloatDecimal. traced.
  destruct (is_char (mem c) ".") eqn:Ep; [|now apply FloatExponent_text].
  traced.
  destruct (value (SkipDigits mem End (End - S c) (S c)
                              (if hi then S c else Pos)))
    as [c' Pos'] eqn:ED.
  assert (Hpt : float_char (mem c) = true /\ float_last_char (mem c) = true).
  { unfold float_char, float_last_char. rewrite Ep.
    now rewrite ?orb_true_r. }
  pose proof ED as ED'.
  apply SkipDigits_spec in ED' as [Hb _]; [|lia|lia].
  apply (SkipDigits_text Start) in ED; [|lia|].
  2:{ destruct hi.
      - now apply (scanning_move _ _ Pos).
      - now apply scanning_step. }
  cbn [fst snd]. rewrite value_CHECK_END. unfold at_end.
  destruct (c' =? End) eqn:E; cbn [orb];
    [now apply scanning_number_text in ED|].
  apply Nat.eqb_neq in E.
  destruct (is_char (mem c') NUL); [now apply scanning_number_text in ED|].
  apply FloatExponent_text; [lia | assumption].
Qed.

End FloatText.

Section FloatTextInteger.

Variable mem : nat -> ascii.
Variable End : nat.

Lemma FloatInteger_text (Start c Pos : nat) :
  c < End -> scanning mem Start c Pos ->
  number_text mem Start (value (FloatInteger mem End Start c Pos)).
Proof.
  intros Hc H. unfold FloatInteger. traced.
  destruct (IsNum (mem c)) eqn:Ed; [|now apply FloatDecimal_text].
  traced.
  destruct (value (SkipDigits mem End (End - c) c Pos)) as [c' Pos'] eqn:ED.
  pose proof ED as ED'.
  apply SkipDigits_spec in ED' as [Hb _]; [|lia|lia].
  apply (SkipDigits_text mem End Start) in ED; [|lia|assumption].
  cbn [fst snd]. rewrite value_CHECK_END. unfold at_end.
  destruct (c' =? End) eqn:E; cbn [orb];
    [now apply scanning_number_text in ED|].
  apply Nat.eqb_neq in E.
  destruct (is_char (mem c') NUL); [now apply scanning_number_text in ED|].
  apply FloatDecimal_text; [lia | assumption].
Qed.

End FloatTextInteger.

(** X24.  [SkipFloatNumber] consumes nothing but the characters of a
    number: digits, signs, decimal points, the exponent letters and the
    suffix [f] or [F]; and what it consumes ends with a digit, a decimal
    point or the suffix, never with a sign or an exponent letter. *)
Theorem SkipFloatNumber_text (mem : nat -> ascii) (End Pos : nat) :
  Pos <= End ->
  number_text mem Pos (value (SkipFloatNumber mem End Pos)).
Proof.
  intros HP.
  assert (H0 : number_text mem Pos Pos) by (split; intros; lia).
  unfold SkipFloatNumber. cbv zeta. rewrite value_CHECK_END.
  unfold at_end. destruct (Pos =? End) eqn:E; cbn [orb]; [exact H0|].
  apply Nat.eqb_neq in E.
  destruct (is_char (mem Pos) NUL); [exact H0|]. traced.
  set (c := if is_char (mem Pos) "+" || is_char (mem Pos) "-"
            then S Pos else Pos).
  assert (Hc : Pos <= c <= End /\ scanning mem Pos c Pos).
  { subst c. destruct (is_char (mem Pos) "+" || is_char (mem Pos) "-") eqn:Es.
    - split; [lia|]. split; [lia|]. split; [|lia].
      intros i Hi. assert (i = Pos) as -> by lia. unfold float_char.
      apply orb_true_iff in Es as [-> | ->]; now rewrite ?orb_true_r.
    - split; [lia|]. split; [lia|]. split; intros; lia. }
  destruct Hc as [Hc Hs].
  rewrite value_CHECK_END.
  unfold at_end. destruct (c =? End) eqn:E2; cbn [orb]; [exact H0|].
  apply Nat.eqb_neq in E2.
  destruct (is_char (mem c) NUL); [exact H0|]. traced.
  destruct (is_char (mem c) "0") eqn:Ez.
  - traced. destruct (IsNum (mem (c + 1))).
    + cbn. replace (c + 1) with (S c) by lia.
      apply is_char_eq in Ez.
      apply (scanning_number_text mem Pos (S c)).
      apply (scanning_move mem _ _ Pos Hs); now rewrite Ez.
    + apply FloatInteger_text; [lia | assumption].
  - cbn [value tret fst]. apply FloatInteger_text; [lia | assumption].
Qed.

(** The theorem on a number followed by a letter. *)
Lemma SkipFloatNumber_text_witness :
  number_text (buffer "-1.5e+3fx") 0
              (value (SkipFloatNumber (buffer "-1.5e+3fx") 9 0)).
Proof. apply SkipFloatNumber_text. lia. Defined.

(** * D3D11 resource bind points *)

Lemma land_pow2_eqb (a : Z) (i : nat) :
  (Z.land a (2 ^ Z.of_nat i) =? 0)%Z = negb (Z.testbit a (Z.of_nat i)).
Proof.
  destruct (Z.testbit a (Z.of_nat i)) eqn:E; cbn [negb].
  - apply Z.eqb_neq. intros H.
    assert (Hb : Z.testbit (Z.land a (2 ^ Z.of_nat i)) (Z.of_nat i) = true).
    { rewrite Z.land_spec, E, Z.pow2_bits_true by lia. reflexivity. }
    rewrite H in Hb. now rewrite Z.bits_0 in Hb.
  - apply Z.eqb_eq. apply Z.bits_inj'. intros n Hn.
    rewrite Z.land_spec, Z.bits_0.
    destruct (Z.eq_dec n (Z.of_nat i)) as [->|Hne].
    + now rewrite E.
    + rewrite Z.pow2_bits_false by lia. apply andb_false_r.
Qed.

Lemma stage_mask (i : nat) :
  i < NumShaderTypes ->
  Uint32 (Z.shiftl 1 (Z.of_nat i)) = (2 ^ Z.of_nat i)%Z.
Proof.
  unfold NumShaderTypes, Uint32. intros H.
  rewrite Z.shiftl_1_l. apply Z.mod_small. split; [lia|].
  change 4294967296%Z with (2 ^ 32)%Z. apply Z.pow_lt_mono_r; lia.
Qed.

Lemma stage_bit_testbit (bp : D3D11ResourceBindPoints) (i : nat) :
  i < NumShaderTypes ->
  stage_bit bp i = Z.testbit (ActiveStages bp) (Z.of_nat i).
Proof.
  intros H. unfold stage_bit, GetActiveStages.
  now rewrite stage_mask, land_pow2_eqb, negb_involutive.
Qed.

Lemma assign_length (l : list Z) (i : nat) (v : Z) :
  List.length (assign l i v) = List.length l.
Proof.
  revert i. induction l as [|x l IH]; intros [|i]; cbn; auto.
Qed.

Lemma assign_same (l : list Z) (i : nat) (v : Z) :
  i < List.length l -> nth_error (assign l i v) i = Some v.
Proof.
  revert i. induction l as [|x l IH]; intros [|i]; cbn; intros H;
    try lia; auto. apply IH. lia.
Qed.

Lemma assign_other (l : list Z) (i j : nat) (v : Z) :
  j <> i -> nth_error (assign l i v) j = nth_error l j.
Proof.
  revert i j. induction l as [|x l IH]; intros [|i] [|j] H; cbn; auto;
    try contradiction.
Qed.

(** The bits of the mask after [Set]. *)
Lemma Set_bits (a : Z) (i j : nat) :
  i < NumShaderTypes ->
  Z.testbit (Uint8 (Z.lor a (2 ^ Z.of_nat i))) (Z.of_nat j)
  = (j <? 8) && (Z.testbit a (Z.of_nat j) || (j =? i)).
Proof.
  unfold NumShaderTypes, Uint8. intros Hi.
  change 256%Z with (2 ^ 8)%Z.
  destruct (j <? 8) eqn:E; cbn [andb].
  - apply Nat.ltb_lt in E. rewrite Z.mod_pow2_bits_low by lia.
    rewrite Z.lor_spec. f_equal.
    destruct (j =? i) eqn:Ej.
    + apply Nat.eqb_eq in Ej. subst j. apply Z.pow2_bits_true. lia.
    + apply Nat.eqb_neq in Ej. apply Z.pow2_bits_false. lia.
  - apply Nat.ltb_ge in E. apply Z.mod_pow2_bits_high. lia.
Qed.

Lemma Set_inv (bp bp' : D3D11ResourceBindPoints) (i : nat) (v : Z) :
  mask_agrees bp -> (0 <= v)%Z ->
  Set_ bp i v = Some bp' ->
  mask_agrees bp'
  /\ i < NumShaderTypes /\ (v < InvalidBindPoint)%Z
  /\ Bindings bp' = assign (Bindings bp) i v
  /\ ActiveStages bp'
     = Uint8 (Z.lor (ActiveStages bp) (2 ^ Z.of_nat i)).
Proof.
  intros [Hlen [Hpos [Hbits Hhigh]]] Hv. unfold Set_.
  destruct (i <? NumShaderTypes) eqn:Ei; cbn [negb]; [|discriminate].
  apply Nat.ltb_lt in Ei.
  destruct (v <? InvalidBindPoint)%Z eqn:Ev; cbn [negb]; [|discriminate].
  apply Z.ltb_lt in Ev. intros [= <-]. cbn [Bindings ActiveStages].
  rewrite stage_mask by assumption.
  assert (Hu : Uint8 v = v).
  { unfold Uint8. apply Z.mod_small. unfold InvalidBindPoint in Ev. lia. }
  rewrite Hu.
  split; [|repeat split; assumption].
  unfold mask_agrees. cbn [Bindings ActiveStages].
  split; [now rewrite assign_length|].
  split; [unfold Uint8; apply Z.mod_pos_bound; lia|].
  split.
  - intros j b Hj.
    assert (Hjl : j < NumShaderTypes).
    { rewrite <- Hlen, <- (assign_length _ i v).
      apply nth_error_Some. rewrite Hj. discriminate. }
    rewrite Set_bits by assumption.
    replace (j <? 8) with true
      by (symmetry; apply Nat.ltb_lt; unfold NumShaderTypes in Hjl; lia).
    cbn [andb]. destruct (Nat.eq_dec j i) as [->|Hne].
    + rewrite assign_same in Hj by lia. injection Hj as <-.
      rewrite Nat.eqb_refl, orb_true_r.
      unfold InvalidBindPoint in *. split; [lia|].
      symmetry. apply negb_true_iff, Z.eqb_neq. lia.
    + rewrite assign_other in Hj by assumption.
      replace (j =? i) with false by (symmetry; now apply Nat.eqb_neq).
      rewrite orb_false_r. now apply Hbits.
  - intros j Hj. rewrite Set_bits by assumption.
    rewrite Hhigh by assumption.
    replace (j =? i) with false
      by (symmetry; apply Nat.eqb_neq; unfold NumShaderTypes in *; lia).
    apply andb_false_r.
Qed.

Lemma assigned_mask_agrees (bp : D3D11ResourceBindPoints) :
  assigned bp -> mask_agrees bp.
Proof.
  induction 1 as [|bp bp' i v _ IH Hv HS].
  - unfold mask_agrees. cbn. split; [reflexivity|]. split; [lia|]. split.
    + intros j b Hj. rewrite Z.bits_0.
      do 6 (destruct j as [|j]; [injection Hj as <-; now split|]).
      now destruct j.
    + intros j _. apply Z.bits_0.
  - now apply (Set_inv bp bp' i v).
Qed.

Lemma IsStageActive_agrees (bp : D3D11ResourceBindPoints) (i : nat) :
  mask_agrees bp -> i < NumShaderTypes ->
  exists b,
    BindPoint_at bp i = Some b
    /\ IsStageActive bp i = Some (negb (b =? InvalidBindPoint)%Z).
Proof.
  intros [Hlen [Hpos [Hbits Hhigh]]] Hi. unfold IsStageActive, BindPoint_at.
  destruct (nth_error (Bindings bp) i) as [b|] eqn:E.
  2:{ apply nth_error_None in E. lia. }
  exists b. split; [reflexivity|]. cbv zeta.
  rewrite stage_bit_testbit by assumption.
  destruct (Hbits i b E) as [_ ->].
  now destruct (b =? InvalidBindPoint)%Z.
Qed.

(** X25.  In an object made by assignments of bind points, the mask of the
    active stages agrees with the array: for each of the six stages the
    check of [IsStageActive] passes, and the stage is active exactly when
    its bind point is not the invalid one. *)
Theorem IsStageActive_assigned (bp : D3D11ResourceBindPoints)
        (ShaderInd : nat) :
  assigned bp -> ShaderInd < NumShaderTypes ->
  exists b,
    BindPoint_at bp ShaderInd = Some b
    /\ IsStageActive bp ShaderInd = Some (negb (b =? InvalidBindPoint)%Z).
Proof.
  intros H. apply IsStageActive_agrees. now apply assigned_mask_agrees.
Qed.

(** The theorem after two assignments to the default object, bind point
    3 to stage 1 and bind point 0 to stage 4, at stage 4: the stage reads 0
    and is active. *)
Lemma IsStageActive_assigned_witness :
  exists bp1 bp2,
    Set_ DefaultBindPoints 1 3 = Some bp1
    /\ Set_ bp1 4 0 = Some bp2
    /\ exists b,
        BindPoint_at bp2 4 = Some b
        /\ IsStageActive bp2 4 = Some (negb (b =? InvalidBindPoint)%Z).
Proof.
  exists (MakeBindPoints [255; 3; 255; 255; 255; 255]%Z 2),
    (MakeBindPoints [255; 3; 255; 255; 0; 255]%Z 18).
  split; [reflexivity|]. split; [reflexivity|].
  apply IsStageActive_assigned.
  - apply (assigned_Set (MakeBindPoints [255; 3; 255; 255; 255; 255]%Z 2)
                        _ 4 0); [|lia|reflexivity].
    apply (assigned_Set DefaultBindPoints _ 1 3);
      [apply assigned_default | lia | reflexivity].
  - unfold NumShaderTypes. lia.
Defined.

(** X26.  Assigning a valid bind point to one of the six stages succeeds;
    afterwards that stage reads the bind point back and is active, and
    every other stage reads and reports what it did before. *)
Theorem Set_then_read (bp : D3D11ResourceBindPoints) (ShaderInd : nat)
        (BindPoint : Z) :
  assigned bp -> ShaderInd < NumShaderTypes ->
  (0 <= BindPoint < InvalidBindPoint)%Z ->
  exists bp',
    Set_ bp ShaderInd BindPoint = Some bp'
    /\ BindPoint_at bp' ShaderInd = Some BindPoint
    /\ IsStageActive bp' ShaderInd = Some true
    /\ forall j, j <> ShaderInd ->
         BindPoint_at bp' j = BindPoint_at bp j
         /\ IsStageActive bp' j = IsStageActive bp j.
Proof.
  intros Ha Hi Hv. pose proof (assigned_mask_agrees bp Ha) as Hm.
  destruct (Set_ bp ShaderInd BindPoint) as [bp'|] eqn:ES.
  2:{ unfold Set_ in ES.
      replace (ShaderInd <? NumShaderTypes) with true in ES
        by (symmetry; now apply Nat.ltb_lt).
      replace (BindPoint <? InvalidBindPoint)%Z with true in ES
        by (symmetry; apply Z.ltb_lt; lia).
      discriminate. }
  exists bp'. split; [reflexivity|].
  destruct (Set_inv bp bp' ShaderInd BindPoint Hm (proj1 Hv) ES)
    as [Hm' [_ [_ [Hb HA]]]].
  assert (Hr : BindPoint_at bp' ShaderInd = Some BindPoint).
  { unfold BindPoint_at. rewrite Hb. apply assign_same.
    destruct Hm as [-> _]. assumption. }
  split; [assumption|]. split.
  - destruct (IsStageActive_agrees bp' ShaderInd Hm' Hi) as [b [Eb ->]].
    rewrite Hr in Eb. injection Eb as <-. f_equal.
    apply negb_true_iff, Z.eqb_neq. lia.
  - intros j Hj.
    assert (Hbj : BindPoint_at bp' j = BindPoint_at bp j).
    { unfold BindPoint_at. rewrite Hb. now apply assign_other. }
    split; [assumption|].
    destruct (Nat.lt_ge_cases j NumShaderTypes) as [Hlt|Hge].
    + destruct (IsStageActive_agrees bp' j Hm' Hlt) as [b' [Eb' ->]].
      destruct (IsStageActive_agrees bp j Hm Hlt) as [b [Eb ->]].
      congruence.
    + unfold IsStageActive. rewrite Hbj. unfold BindPoint_at.
      replace (nth_error (Bindings bp) j) with (@None Z); [reflexivity|].
      symmetry. apply nth_error_None. destruct Hm as [-> _]. assumption.
Qed.

(** The theorem on the default object: bind point 3 for stage 1. *)
Lemma Set_then_read_witness :
  exists bp',
    Set_ DefaultBindPoints 1 3 = Some bp'
    /\ BindPoint_at bp' 1 = Some 3%Z
    /\ IsStageActive bp' 1 = Some true
    /\ forall j, j <> 1 ->
         BindPoint_at bp' j = BindPoint_at DefaultBindPoints j
         /\ IsStageActive bp' j = IsStageActive DefaultBindPoints j.
Proof.
  apply Set_then_read.
  - apply assigned_default.
  - unfold NumShaderTypes. lia.
  - unfold InvalidBindPoint. lia.
Defined.

(** X27.  The comparison of two objects made by assignments of bind points
    looks at the arrays only, and yet it holds exactly when the two objects
    are the same, masks of the active stages included. *)
Theorem BindPoints_eqb_assigned (a b : D3D11ResourceBindPoints) :
  assigned a -> assigned b ->
  (BindPoints_eqb a b = true <-> a = b).
Proof.
  intros Ha Hb. unfold BindPoints_eqb.
  destruct (list_eq_dec Z.eq_dec (Bindings a) (Bindings b)) as [E|E].
  2:{ split; [discriminate|]. intros ->. contradiction. }
  split; [intros _ | reflexivity].
  apply assigned_mask_agrees in Ha as [Hla [Hpa [Hba Hha]]].
  apply assigned_mask_agrees in Hb as [Hlb [Hpb [Hbb Hhb]]].
  destruct a as [Ba Aa], b as [Bb Ab]. cbn [Bindings ActiveStages] in *.
  subst Bb. f_equal. apply Z.bits_inj'. intros n Hn.
  rewrite <- (Z2Nat.id n Hn).
  destruct (Nat.lt_ge_cases (Z.to_nat n) NumShaderTypes) as [Hlt|Hge].
  - destruct (nth_error Ba (Z.to_nat n)) as [x|] eqn:Ex.
    + destruct (Hba _ _ Ex) as [_ ->]. destruct (Hbb _ _ Ex) as [_ ->].
      reflexivity.
    + apply nth_error_None in Ex. lia.
  - now rewrite Hha, Hhb.
Qed.

(** The theorem on two objects made by different assignments that end
    with the same bindings (stage 1 is assigned twice in the second): the
    comparison holds and the objects are the same, mask included. *)
Lemma BindPoints_eqb_assigned_witness :
  exists a1 a b1 b2 b,
    Set_ DefaultBindPoints 1 3 = Some a1
    /\ Set_ a1 4 0 = Some a
    /\ Set_ DefaultBindPoints 4 0 = Some b1
    /\ Set_ b1 1 7 = Some b2
    /\ Set_ b2 1 3 = Some b
    /\ (BindPoints_eqb a b = true <-> a = b).
Proof.
  exists (MakeBindPoints [255; 3; 255; 255; 255; 255]%Z 2),
    (MakeBindPoints [255; 3; 255; 255; 0; 255]%Z 18),
    (MakeBindPoints [255; 255; 255; 255; 0; 255]%Z 16),
    (MakeBindPoints [255; 7; 255; 255; 0; 255]%Z 18),
    (MakeBindPoints [255; 3; 255; 255; 0; 255]%Z 18).
  do 5 (split; [reflexivity|]).
  apply BindPoints_eqb_assigned.
  - apply (assigned_Set (MakeBindPoints [255; 3; 255; 255; 255; 255]%Z 2)
                        _ 4 0); [|lia|reflexivity].
    apply (assigned_Set DefaultBindPoints _ 1 3);
      [apply assigned_default | lia | reflexivity].
  - apply (assigned_Set (MakeBindPoints [255; 7; 255; 255; 0; 255]%Z 18)
                        _ 1 3); [|lia|reflexivity].
    apply (assigned_Set (MakeBindPoints [255; 255; 255; 255; 0; 255]%Z 16)
                        _ 1 7); [|lia|reflexivity].
    apply (assigned_Set DefaultBindPoints _ 4 0);
      [apply assigned_default | lia | reflexivity].
Defined.
